(** * AWSDataScanner: the scan engine of the scanner worker

    A shallow embedding of [scanner-worker/src]: the detectors of
    [detectors.py], the streaming reader of [scanner.py], the persistence
    operations of [database.py] and the per-message state machine of
    [main.py], followed by the properties the specification states about
    them and by further properties of the same code.

    Conventions.
    - A Python [str] is a list of Unicode code points ([N]); a [bytes] object
      is a list of byte values ([N] below 256).
    - Python's Unicode tables are given in full for Latin-1 (code points below
      256); what lies beyond belongs to the interpreter and is a parameter
      ([UnicodeDB]).
    - A call that may raise returns a [res]: [Ret v] or [Exn e]. *)

From Stdlib Require Import String Ascii DecimalString NArith ZArith Arith Bool Lia List.
Import ListNotations.

Set Implicit Arguments.

(* ================================================================= *)
(** * Python values *)

Module Py.

Definition char := N.
Definition str := list char.
Definition bytes := list N.

(** A string literal of this file (ASCII) as a Python [str]. *)
Definition lit (s : string) : str :=
  map N_of_ascii (list_ascii_of_string s).

Definition char_eqb (a b : char) : bool := N.eqb a b.

Fixpoint str_eqb (a b : str) : bool :=
  match a, b with
  | [], [] => true
  | x :: a', y :: b' => char_eqb x y && str_eqb a' b'
  | _, _ => false
  end.

(** [s.startswith(p)] *)
Fixpoint startswith (p s : str) : bool :=
  match p with
  | [] => true
  | x :: p' =>
      match s with
      | [] => false
      | y :: s' => char_eqb x y && startswith p' s'
      end
  end.

(** [s.endswith(p)] *)
Definition endswith (p s : str) : bool :=
  startswith (rev p) (rev s).

(** [s[a:b]] for [0 <= a], [0 <= b] (out-of-range bounds are clipped). *)
Definition slice (s : str) (a b : nat) : str :=
  firstn (b - a) (skipn a s).


(** [c in s] for a single character. *)
Definition has_char (c : char) (s : str) : bool := existsb (char_eqb c) s.

(** Exceptions the worker distinguishes. *)
Inductive exn :=
| ValueError (msg : str)
| ClientError (msg : str)
| SQLAlchemyError (msg : str)
| OtherError (msg : str).

(** [str(e)] *)
Definition exn_str (e : exn) : str :=
  match e with
  | ValueError m | ClientError m | SQLAlchemyError m | OtherError m => m
  end.

Inductive res (A : Type) :=
| Ret (a : A)
| Exn (e : exn).
Arguments Ret {A} a.
Arguments Exn {A} e.

Definition bind {A B} (m : res A) (f : A -> res B) : res B :=
  match m with
  | Ret a => f a
  | Exn e => Exn e
  end.

End Py.

Import Py.
Notation "x <- m ;; k" := (bind m (fun x => k))
  (at level 61, m at next level, right associativity).

(* ================================================================= *)
(** * The Unicode character database *)

(** The part of the character database beyond Latin-1.  The fields are
    consulted for code points from 256 on only. *)
Class UnicodeDB := {
  (** decimal digits (category Nd) with their value: [\d], [str.isdecimal] *)
  ucd_decimal : char -> option nat;
  (** characters with the Digit property that are not decimal *)
  ucd_other_digit : char -> bool;
  (** white space: [\s], [str.isspace], what [str.strip] removes *)
  ucd_space : char -> bool;
  (** [str.isalnum] *)
  ucd_alnum : char -> bool;
  ucd_upper : char -> bool;
  ucd_lower : char -> bool;
  (** [str.lower] on a string that is not wholly Latin-1 *)
  ucd_to_lower : str -> str;
  (** a decimal digit is not white space *)
  ucd_decimal_not_space :
    forall c v, ucd_decimal c = Some v -> ucd_space c = false
}.

(** A database with nothing beyond Latin-1; it closes the examples, whose
    text is Latin-1 and on which every database agrees. *)
Definition latin1_db : UnicodeDB := {|
  ucd_decimal := fun _ => None;
  ucd_other_digit := fun _ => false;
  ucd_space := fun _ => false;
  ucd_alnum := fun _ => false;
  ucd_upper := fun _ => false;
  ucd_lower := fun _ => false;
  ucd_to_lower := fun s => s;
  ucd_decimal_not_space := fun c v (H : None = Some v) =>
    match H in (_ = o) return (match o with None => True | Some _ => false = false end)
    with eq_refl => I end
|}.

Module Unicode.
Section Tables.
Context {U : UnicodeDB}.

Definition in_range (lo hi c : N) : bool := (lo <=? c)%N && (c <=? hi)%N.
Definition latin1 (c : char) : bool := (c <? 256)%N.

Definition ascii_digit (c : char) : bool := in_range 48 57 c.
Definition ascii_upper (c : char) : bool := in_range 65 90 c.
Definition ascii_lower (c : char) : bool := in_range 97 122 c.

(** [int(c)] for a decimal digit; [None] otherwise. *)
Definition decimal_value (c : char) : option nat :=
  if latin1 c then
    if ascii_digit c then Some (N.to_nat (c - 48)) else None
  else ucd_decimal c.

(** [\d] of [re] on [str] patterns, and [str.isdecimal]. *)
Definition is_decimal (c : char) : bool :=
  match decimal_value c with Some _ => true | None => false end.

(** [c.isdigit()]: the decimal digits and, in Latin-1, the superscripts
    two, three and one. *)
Definition is_digit (c : char) : bool :=
  if latin1 c then
    ascii_digit c || in_range 178 179 c || N.eqb c 185
  else is_decimal c || ucd_other_digit c.

(** [\s] and [c.isspace()]. *)
Definition is_space (c : char) : bool :=
  if latin1 c then
    in_range 9 13 c || in_range 28 32 c || N.eqb c 133 || N.eqb c 160
  else ucd_space c.

(** [c.isalnum()] *)
Definition is_alnum (c : char) : bool :=
  if latin1 c then
    ascii_digit c || ascii_upper c || ascii_lower c ||
    N.eqb c 170 || in_range 178 179 c || N.eqb c 181 || in_range 185 186 c ||
    in_range 188 190 c || in_range 192 214 c || in_range 216 246 c ||
    in_range 248 255 c
  else ucd_alnum c.

(** [\w]: alphanumeric or underscore. *)
Definition is_word (c : char) : bool := is_alnum c || N.eqb c 95.

(** [c.isupper()] *)
Definition is_upper (c : char) : bool :=
  if latin1 c then
    ascii_upper c || in_range 192 214 c || in_range 216 222 c
  else ucd_upper c.

(** [c.islower()] *)
Definition is_lower (c : char) : bool :=
  if latin1 c then
    ascii_lower c || N.eqb c 170 || N.eqb c 181 || N.eqb c 186 ||
    in_range 223 246 c || in_range 248 255 c
  else ucd_lower c.

Definition latin1_to_lower (c : char) : char :=
  if ascii_upper c || in_range 192 214 c || in_range 216 222 c
  then (c + 32)%N else c.

(** [s.lower()] *)
Definition lower (s : str) : str :=
  if forallb latin1 s then map latin1_to_lower s else ucd_to_lower s.

(** [s.isdigit()]: false on the empty string. *)
Definition isdigit (s : str) : bool :=
  match s with
  | [] => false
  | _ => forallb is_digit s
  end.

Fixpoint lstrip (s : str) : str :=
  match s with
  | [] => []
  | c :: s' => if is_space c then lstrip s' else s
  end.

Definition rstrip (s : str) : str := rev (lstrip (rev s)).

(** [s.strip()] *)
Definition strip (s : str) : str := rstrip (lstrip s).

End Tables.
End Unicode.

(** The Arabic-Indic digits, U+0660 to U+0669. *)
Definition arabic_indic_digit (c : char) : bool := Unicode.in_range 0x660 0x669 c.

(** A database that holds, beyond Latin-1, the Arabic-Indic digits as
    Python's does: decimal digits (category Nd) of the values 0 to 9,
    alphanumeric, neither white space nor cased.  It closes the examples
    whose text is made of Latin-1 and these digits. *)
Definition arabic_indic_db : UnicodeDB := {|
  ucd_decimal := fun c =>
    if arabic_indic_digit c then Some (N.to_nat (c - 0x660)) else None;
  ucd_other_digit := fun _ => false;
  ucd_space := fun _ => false;
  ucd_alnum := arabic_indic_digit;
  ucd_upper := fun _ => false;
  ucd_lower := fun _ => false;
  ucd_to_lower :=
    map (fun c => if Unicode.latin1 c then Unicode.latin1_to_lower c else c);
  ucd_decimal_not_space := fun _ _ _ => eq_refl
|}.

(* ================================================================= *)
(** * Regular expressions: the fragment of [re] that [PATTERNS] uses *)

Module Re.

(** Capturing groups are not represented: the detectors read only
    [match.group(0)], [match.start()] and [match.end()]. *)
Inductive regex :=
| Eps
| Chr (p : char -> bool)                 (* a character class *)
| Bnd                                    (* \b *)
| Seq (r1 r2 : regex)
| Alt (r1 r2 : regex)                    (* r1|r2, r1 tried first *)
| Rep (r : regex) (lo hi : nat)          (* greedy r{lo,hi} *)
| Many (p : char -> bool) (lo : nat).    (* greedy [class]{lo,} *)

Definition Opt (r : regex) : regex := Rep r 0 1.
Definition Times (r : regex) (n : nat) : regex := Rep r n n.

(** Where the matcher stands: the character before it, the text ahead and
    the index of the next character. *)
Record cursor := Cursor {
  before : option char;
  ahead : list char;
  index : nat
}.

Definition advance (x : char) (xs : list char) (c : cursor) : cursor :=
  Cursor (Some x) xs (S (index c)).

Section Matcher.
Context {U : UnicodeDB}.

Definition word_opt (o : option char) : bool :=
  match o with
  | Some x => Unicode.is_word x
  | None => false
  end.

(** [\b]: exactly one of the characters on either side is a word
    character (the ends of the text count as non-word). *)
Definition at_boundary (c : cursor) : bool :=
  xorb (word_opt (before c)) (word_opt (hd_error (ahead c))).

(** Greedy [class]{lo,}: take the longest run first, give characters back
    one at a time while at least [lo] remain. *)
Fixpoint many {A} (p : char -> bool) (lo : nat) (k : cursor -> option A)
    (xs : list char) (c : cursor) (taken : nat) : option A :=
  let stop := if lo <=? taken then k c else None in
  match xs with
  | x :: xs' =>
      if p x then
        match many p lo k xs' (advance x xs' c) (S taken) with
        | Some a => Some a
        | None => stop
        end
      else stop
  | [] => stop
  end.

(** Greedy [r]{lo,hi}, [m] being the matcher of [r]: one more round
    first, else stop if [lo] rounds are done. *)
Fixpoint rep {A} (m : cursor -> (cursor -> option A) -> option A)
    (k : cursor -> option A) (lo hi : nat) (c : cursor) : option A :=
  let stop := if lo =? 0 then k c else None in
  match hi with
  | 0 => stop
  | S hi' =>
      match m c (rep m k (pred lo) hi') with
      | Some a => Some a
      | None => stop
      end
  end.

(** Backtracking matcher in continuation-passing style: [k] is what must
    still match after [r]; the first success in priority order wins. *)
Fixpoint rmatch {A} (r : regex) (c : cursor) (k : cursor -> option A)
    {struct r} : option A :=
  match r with
  | Eps => k c
  | Chr p =>
      match ahead c with
      | x :: xs => if p x then k (advance x xs c) else None
      | [] => None
      end
  | Bnd => if at_boundary c then k c else None
  | Seq r1 r2 => rmatch r1 c (fun c' => rmatch r2 c' k)
  | Alt r1 r2 =>
      match rmatch r1 c k with
      | Some a => Some a
      | None => rmatch r2 c k
      end
  | Rep r' lo hi => rep (fun c' k' => rmatch r' c' k') k lo hi c
  | Many p lo => many p lo k (ahead c) c 0
  end.

(** [pattern.match] at a cursor: the end index of the match. *)
Definition match_at (r : regex) (c : cursor) : option nat :=
  rmatch r c (fun c' => Some (index c')).

(** [pattern.finditer(text)]: leftmost matches, each search resuming where
    the previous match ended.  [skip] counts the characters of the last
    match still to be passed over.  (After an empty match the search moves
    on by one character; no pattern of [PATTERNS] matches the empty
    string.) *)
Fixpoint scan (r : regex) (bef : option char) (xs : list char)
    (pos skip : nat) : list (nat * nat) :=
  let here :=
    match skip with
    | 0 => match_at r (Cursor bef xs pos)
    | S _ => None
    end in
  match here with
  | Some e =>
      (pos, e) ::
      match xs with
      | [] => []
      | x :: xs' => scan r (Some x) xs' (S pos) (e - pos - 1)
      end
  | None =>
      match xs with
      | [] => []
      | x :: xs' => scan r (Some x) xs' (S pos) (pred skip)
      end
  end.

Definition finditer (r : regex) (text : str) : list (nat * nat) :=
  scan r None text 0 0.

(** [match.group(0)] *)
Definition group0 (text : str) (m : nat * nat) : str :=
  slice text (fst m) (snd m).

(** [pattern.sub('', text)]: the text outside the matches. *)
Fixpoint splice (text : str) (pos : nat) (ms : list (nat * nat)) : str :=
  match ms with
  | [] => skipn pos text
  | (s, e) :: ms' => slice text pos s ++ splice text e ms'
  end.

Definition sub_empty (r : regex) (text : str) : str :=
  splice text 0 (finditer r text).

End Matcher.
End Re.

(* ================================================================= *)
(** * [str.encode('utf-8')] and [hashlib.sha256] *)

Module Codec.

(** UTF-8 of one code point that is not a surrogate.  (On a lone
    surrogate Python raises [UnicodeEncodeError]; see [encodable].  The
    detectors hash decimal digits and ASCII, and text decoded from bytes
    holds no surrogate.) *)
Definition utf8_encode_char (c : char) : bytes :=
  if (c <? 0x80)%N then [c]
  else if (c <? 0x800)%N then
    [N.lor 0xC0 (N.shiftr c 6); N.lor 0x80 (N.land c 0x3F)]
  else if (c <? 0x10000)%N then
    [N.lor 0xE0 (N.shiftr c 12);
     N.lor 0x80 (N.land (N.shiftr c 6) 0x3F);
     N.lor 0x80 (N.land c 0x3F)]
  else
    [N.lor 0xF0 (N.shiftr c 18);
     N.lor 0x80 (N.land (N.shiftr c 12) 0x3F);
     N.lor 0x80 (N.land (N.shiftr c 6) 0x3F);
     N.lor 0x80 (N.land c 0x3F)].

Definition utf8_encode (s : str) : bytes := flat_map utf8_encode_char s.

(** The strings [str.encode('utf-8')] accepts: those without a surrogate
    (U+D800 to U+DFFF), no code point being above U+10FFFF.  On the others
    Python raises [UnicodeEncodeError] and [utf8_encode] is not its
    model. *)
Definition encodable (s : str) : bool :=
  forallb (fun c => ((c <? 0xD800) || (0xDFFF <? c)) && (c <=? 0x10FFFF))%N s.

End Codec.

Module Sha256.

Local Open Scope N_scope.

Definition mask32 : N := 0xFFFFFFFF.
Definition add32 (a b : N) : N := N.land (a + b) mask32.
Definition rotr (n x : N) : N :=
  N.lor (N.shiftr x n) (N.land (N.shiftl x (32 - n)) mask32).
Definition not32 (x : N) : N := N.lxor x mask32.

Definition Ch (x y z : N) := N.lxor (N.land x y) (N.land (not32 x) z).
Definition Maj (x y z : N) :=
  N.lxor (N.lxor (N.land x y) (N.land x z)) (N.land y z).
Definition Sigma0 (x : N) := N.lxor (N.lxor (rotr 2 x) (rotr 13 x)) (rotr 22 x).
Definition Sigma1 (x : N) := N.lxor (N.lxor (rotr 6 x) (rotr 11 x)) (rotr 25 x).
Definition sigma0 (x : N) := N.lxor (N.lxor (rotr 7 x) (rotr 18 x)) (N.shiftr x 3).
Definition sigma1 (x : N) := N.lxor (N.lxor (rotr 17 x) (rotr 19 x)) (N.shiftr x 10).

(** The whole part of the [k]-th root of [n], bit by bit from bit
    [bit - 1] down. *)
Fixpoint root_bits (k n : N) (bit : nat) (r : N) : N :=
  match bit with
  | O => r
  | S b =>
      let r' := N.lor r (N.shiftl 1 (N.of_nat b)) in
      root_bits k n b (if r' ^ k <=? n then r' else r)
  end.

Definition is_prime (n : nat) : bool :=
  forallb (fun d => negb (Nat.eqb (Nat.modulo n d) 0)) (seq 2 (n - 2)).

(** The first 64 primes: 2 to 311. *)
Definition primes : list N :=
  Eval vm_compute in map N.of_nat (filter is_prime (seq 2 310)).

(** The round constants: the first 32 bits of the fractional parts of the
    cube roots of the first 64 primes. *)
Definition K : list N :=
  Eval vm_compute in
    map (fun p => N.land (root_bits 3 (N.shiftl p 96) 36 0) mask32) primes.

(** The initial hash value: the same of the square roots of the first 8
    primes. *)
Definition H0 : list N :=
  Eval vm_compute in
    map (fun p => N.land (root_bits 2 (N.shiftl p 64) 36 0) mask32)
        (firstn 8 primes).

(** Big-endian bytes of an [n]-byte number. *)
Fixpoint be_bytes (n : nat) (x : N) : bytes :=
  match n with
  | O => []
  | S n' => N.land (N.shiftr x (8 * N.of_nat n')) 0xFF :: be_bytes n' x
  end.

Definition be_word (bs : bytes) : N :=
  fold_left (fun acc b => N.lor (N.shiftl acc 8) b) bs 0.

(** The message, the bit 1, zero bytes up to 56 modulo 64, and the bit
    length on eight bytes. *)
Definition pad (msg : bytes) : bytes :=
  let len := N.of_nat (length msg) in
  let zeros := N.to_nat ((119 - len mod 64) mod 64) in
  msg ++ [0x80] ++ repeat 0 zeros ++ be_bytes 8 (8 * len).

Fixpoint chunks (n : nat) (size : nat) (bs : bytes) : list bytes :=
  match n with
  | O => []
  | S n' => firstn size bs :: chunks n' size (skipn size bs)
  end.

Definition nthN (l : list N) (i : nat) : N := nth i l 0.

(** One round: the working variables and the sixteen most recent schedule
    words, oldest first. *)
Definition round (st : list N * list N) (k : N) : list N * list N :=
  let (v, w) := st in
  let a := nthN v 0 in let b := nthN v 1 in let c := nthN v 2 in
  let d := nthN v 3 in let e := nthN v 4 in let f := nthN v 5 in
  let g := nthN v 6 in let h := nthN v 7 in
  let t1 := add32 (add32 (add32 (add32 h (Sigma1 e)) (Ch e f g)) k) (nthN w 0) in
  let t2 := add32 (Sigma0 a) (Maj a b c) in
  let next :=
    add32 (add32 (add32 (sigma1 (nthN w 14)) (nthN w 9)) (sigma0 (nthN w 1)))
          (nthN w 0) in
  ([add32 t1 t2; a; b; c; add32 d t1; e; f; g], tl w ++ [next]).

Definition compress (h : list N) (block : bytes) : list N :=
  let w := map be_word (chunks 16 4 block) in
  let (v, _) := fold_left round K (h, w) in
  map (fun p => add32 (fst p) (snd p)) (combine h v).

Definition digest (msg : bytes) : bytes :=
  let p := pad msg in
  let h := fold_left compress (chunks (length p / 64) 64 p) H0 in
  flat_map (be_bytes 4) h.

Definition hex_digit (n : N) : char :=
  if n <? 10 then 48 + n else 87 + n.

(** [hashlib.sha256(msg).hexdigest()] *)
Definition hexdigest (msg : bytes) : str :=
  flat_map (fun b => [hex_digit (N.shiftr b 4); hex_digit (N.land b 0xF)])
           (digest msg).

End Sha256.

(* ================================================================= *)
(** * detectors.py *)

Module Detectors.

Inductive FindingType :=
| ssn | credit_card | aws_access_key | aws_secret_key | email | phone_us.

Inductive Confidence := low | medium | high.

(** [@dataclass class Finding] *)
Record Finding := {
  finding_type : FindingType;
  value : str;
  value_hash : str;
  line_number : nat;
  column_start : nat;
  column_end : nat;
  context : str;
  confidence : Confidence
}.

(** [s.split(sep)] for a one-character separator. *)
Fixpoint split (sep : char) (s : str) : list str :=
  match s with
  | [] => [[]]
  | x :: s' =>
      if char_eqb x sep then [] :: split sep s'
      else
        match split sep s' with
        | p :: ps => (x :: p) :: ps
        | [] => [[x]]
        end
  end.

Definition ch (a : ascii) : char := N_of_ascii a.
Definition is_ch (a : ascii) (x : char) : bool := char_eqb x (ch a).

Section Detector.
Context {U : UnicodeDB}.

Import Re.

(** ** Character classes of [PATTERNS] *)

(** [\d] *)
Definition digit : char -> bool := Unicode.is_decimal.
(** [[-\s]] *)
Definition dash_space (x : char) : bool := is_ch "-" x || Unicode.is_space x.
(** [[-.\s]] *)
Definition dash_dot_space (x : char) : bool :=
  is_ch "-" x || is_ch "." x || Unicode.is_space x.
(** [[-.\s()]] *)
Definition phone_punct (x : char) : bool :=
  is_ch "-" x || is_ch "." x || Unicode.is_space x || is_ch "(" x || is_ch ")" x.
(** [[0-9A-Z]] *)
Definition digit_upper (x : char) : bool :=
  Unicode.ascii_digit x || Unicode.ascii_upper x.
(** [[A-Za-z0-9]] *)
Definition ascii_alnum (x : char) : bool :=
  Unicode.ascii_upper x || Unicode.ascii_lower x || Unicode.ascii_digit x.
(** [[A-Za-z0-9/+=]] *)
Definition base64_char (x : char) : bool :=
  ascii_alnum x || is_ch "/" x || is_ch "+" x || is_ch "=" x.
(** [[A-Za-z0-9._%+-]] *)
Definition email_local (x : char) : bool :=
  ascii_alnum x || is_ch "." x || is_ch "_" x || is_ch "%" x ||
  is_ch "+" x || is_ch "-" x.
(** [[A-Za-z0-9.-]] *)
Definition email_domain (x : char) : bool :=
  ascii_alnum x || is_ch "." x || is_ch "-" x.
(** [[A-Z|a-z]] *)
Definition email_tld (x : char) : bool :=
  Unicode.ascii_upper x || is_ch "|" x || Unicode.ascii_lower x.

Fixpoint cat (rs : list regex) : regex :=
  match rs with
  | [] => Eps
  | [r] => r
  | r :: rs' => Seq r (cat rs')
  end.

Definition D : regex := Chr digit.

(** ** [PATTERNS] *)

(** [\b\d{3}[-\s]?\d{2}[-\s]?\d{4}\b] *)
Definition pattern_ssn : regex :=
  cat [Bnd; Times D 3; Opt (Chr dash_space); Times D 2;
       Opt (Chr dash_space); Times D 4; Bnd].

(** [\b(?:\d{4}[-\s]?){3}\d{4}\b|\b\d{15,16}\b] *)
Definition pattern_credit_card : regex :=
  Alt (cat [Bnd; Times (cat [Times D 4; Opt (Chr dash_space)]) 3;
            Times D 4; Bnd])
      (cat [Bnd; Rep D 15 16; Bnd]).

(** [\b(AKIA[0-9A-Z]{16})\b] *)
Definition pattern_aws_access_key : regex :=
  cat [Bnd; Chr (is_ch "A"); Chr (is_ch "K"); Chr (is_ch "I");
       Chr (is_ch "A"); Times (Chr digit_upper) 16; Bnd].

(** [\b([A-Za-z0-9/+=]{40})\b] *)
Definition pattern_aws_secret_key : regex :=
  cat [Bnd; Times (Chr base64_char) 40; Bnd].

(** [\b[A-Za-z0-9._%+-]+@[A-Za-z0-9.-]+\.[A-Z|a-z]{2,}\b] *)
Definition pattern_email : regex :=
  cat [Bnd; Many email_local 1; Chr (is_ch "@"); Many email_domain 1;
       Chr (is_ch "."); Many email_tld 2; Bnd].

(** [\b(?:\+?1[-.\s]?)?\(?\d{3}\)?[-.\s]?\d{3}[-.\s]?\d{4}\b] *)
Definition pattern_phone_us : regex :=
  cat [Bnd;
       Opt (cat [Opt (Chr (is_ch "+")); Chr (is_ch "1");
                 Opt (Chr dash_dot_space)]);
       Opt (Chr (is_ch "(")); Times D 3; Opt (Chr (is_ch ")"));
       Opt (Chr dash_dot_space); Times D 3;
       Opt (Chr dash_dot_space); Times D 4; Bnd].

Definition PATTERNS (t : FindingType) : regex :=
  match t with
  | ssn => pattern_ssn
  | credit_card => pattern_credit_card
  | aws_access_key => pattern_aws_access_key
  | aws_secret_key => pattern_aws_secret_key
  | email => pattern_email
  | phone_us => pattern_phone_us
  end.

Definition CONTEXT_WINDOW : nat := 50.

(** ** [luhn_check] *)

(** [int(d)] for a character that passed [d.isdigit()]. *)
Definition int_of_char (d : char) : res nat :=
  match Unicode.decimal_value d with
  | Some v => Ret v
  | None =>
      Exn (ValueError
             (lit "invalid literal for int() with base 10: '" ++ [d] ++ lit "'"))
  end.

Fixpoint ints (ds : list char) : res (list nat) :=
  match ds with
  | [] => Ret []
  | d :: ds' =>
      v <- int_of_char d ;;
      vs <- ints ds' ;;
      Ret (v :: vs)
  end.

(** [enumerate(l)] counting from [i]. *)
Fixpoint enumerate {A} (i : nat) (l : list A) : list (nat * A) :=
  match l with
  | [] => []
  | x :: l' => (i, x) :: enumerate (S i) l'
  end.

(** The body of the checksum loop. *)
Definition luhn_add (checksum : nat) (p : nat * nat) : nat :=
  let (i, digit) := p in
  let digit :=
    if i mod 2 =? 1 then
      let digit := digit * 2 in
      if 9 <? digit then digit - 9 else digit
    else digit in
  checksum + digit.

Definition luhn_check (card_number : str) : res bool :=
  digits <- ints (filter Unicode.is_digit card_number) ;;
  if (length digits <? 13) || (19 <? length digits) then Ret false
  else
    let reverse_digits := rev digits in
    let checksum := fold_left luhn_add (enumerate 0 reverse_digits) 0 in
    Ret (checksum mod 10 =? 0).

(** ** [hash_value] *)

Definition hash_value (value : str) : str :=
  Sha256.hexdigest (Codec.utf8_encode value).

(** ** [get_context] *)

Definition get_context (text : str) (start end_ : nat) : str :=
  let context_start := Nat.max 0 (start - CONTEXT_WINDOW) in
  let context_end := Nat.min (length text) (end_ + CONTEXT_WINDOW) in
  let context := Unicode.strip (slice text context_start context_end) in
  if 200 <? length context then firstn 200 context ++ lit "..."
  else context.

(** ** The detectors *)

Definition finding_of (t : FindingType) (text : str) (line_number : nat)
    (m : nat * nat) (hashed : str) (conf : Confidence) : Finding :=
  {| finding_type := t;
     value := group0 text m;
     value_hash := hash_value hashed;
     line_number := line_number;
     column_start := fst m;
     column_end := snd m;
     context := get_context text (fst m) (snd m);
     confidence := conf |}.

Definition ssn_match (text : str) (line_number : nat) (m : nat * nat)
    : list Finding :=
  let value := group0 text m in
  let normalized := sub_empty (Chr dash_space) value in
  if (length normalized =? 9) && Unicode.isdigit normalized then
    if startswith (lit "000") normalized || startswith (lit "666") normalized
       || startswith (lit "9") normalized
    then []
    else [finding_of ssn text line_number m normalized high]
  else [].

Definition detect_ssn (text : str) (line_number : nat) : list Finding :=
  flat_map (ssn_match text line_number) (finditer (PATTERNS ssn) text).

Definition credit_card_match (text : str) (line_number : nat)
    (m : nat * nat) : res (list Finding) :=
  let value := group0 text m in
  let normalized := sub_empty (Chr dash_space) value in
  valid <- luhn_check normalized ;;
  if valid then
    Ret [finding_of credit_card text line_number m normalized high]
  else Ret [].

(** The loop over the matches, stopping at the first exception. *)
Fixpoint for_matches (f : nat * nat -> res (list Finding))
    (ms : list (nat * nat)) : res (list Finding) :=
  match ms with
  | [] => Ret []
  | m :: ms' =>
      fs <- f m ;;
      rest <- for_matches f ms' ;;
      Ret (fs ++ rest)
  end.

Definition detect_credit_card (text : str) (line_number : nat)
    : res (list Finding) :=
  for_matches (credit_card_match text line_number)
              (finditer (PATTERNS credit_card) text).

Definition access_key_match (text : str) (line_number : nat)
    (m : nat * nat) : list Finding :=
  [finding_of aws_access_key text line_number m (group0 text m) high].

Definition secret_key_match (text : str) (line_number : nat)
    (m : nat * nat) : list Finding :=
  let value := group0 text m in
  if existsb Unicode.is_upper value && existsb Unicode.is_lower value
     && existsb Unicode.is_digit value
  then [finding_of aws_secret_key text line_number m value medium]
  else [].

Definition detect_aws_keys (text : str) (line_number : nat) : list Finding :=
  flat_map (access_key_match text line_number)
           (finditer (PATTERNS aws_access_key) text) ++
  flat_map (secret_key_match text line_number)
           (finditer (PATTERNS aws_secret_key) text).

Definition email_match (text : str) (line_number : nat) (m : nat * nat)
    : list Finding :=
  let value := group0 text m in
  if has_char (ch "@") value &&
     has_char (ch ".") (nth 1 (split (ch "@") value) [])
  then [finding_of email text line_number m (Unicode.lower value) high]
  else [].

Definition detect_email (text : str) (line_number : nat) : list Finding :=
  flat_map (email_match text line_number) (finditer (PATTERNS email) text).

(** The normalisation of [detect_phone]: punctuation removed, then one
    leading [1] dropped. *)
Definition phone_normalize (value : str) : str :=
  let normalized := sub_empty (Many phone_punct 1) value in
  if startswith (lit "1") normalized then skipn 1 normalized else normalized.

Definition phone_match (text : str) (line_number : nat) (m : nat * nat)
    : list Finding :=
  let value := group0 text m in
  let normalized := phone_normalize value in
  if (length normalized =? 10) && Unicode.isdigit normalized then
    if startswith (lit "000") normalized || startswith (lit "555") normalized
    then []
    else [finding_of phone_us text line_number m normalized high]
  else [].

Definition detect_phone (text : str) (line_number : nat) : list Finding :=
  flat_map (phone_match text line_number) (finditer (PATTERNS phone_us) text).

(** ** [scan_line] *)

Definition scan_line (line : str) (line_number : nat) : res (list Finding) :=
  let findings := detect_ssn line line_number in
  cards <- detect_credit_card line line_number ;;
  let findings := findings ++ cards in
  let findings := findings ++ detect_aws_keys line line_number in
  let findings := findings ++ detect_email line line_number in
  let findings := findings ++ detect_phone line line_number in
  Ret findings.

End Detector.
End Detectors.


(* ================================================================= *)
(** * detectors.py: [scan_text] *)

Module ScanText.

Import Detectors.

(** The line boundaries of [str.splitlines]: line feed, vertical tab, form
    feed, carriage return, the file, group and record separators, next
    line, and the line and paragraph separators. *)
Definition line_boundary (c : char) : bool :=
  existsb (N.eqb c) [10; 11; 12; 13; 28; 29; 30; 133; 8232; 8233]%N.

(** [s.splitlines()]: a carriage return followed by a line feed is one
    boundary; no empty line follows a boundary that ends the text. *)
Fixpoint splitlines (s : str) : list str :=
  match s with
  | [] => []
  | x :: s' =>
      if line_boundary x then
        [] :: match s' with
              | y :: s'' =>
                  if N.eqb x 13 && N.eqb y 10 then splitlines s''
                  else splitlines s'
              | [] => []
              end
      else
        match splitlines s' with
        | l :: ls => (x :: l) :: ls
        | [] => [[x]]
        end
  end.

Section Detector.
Context {U : UnicodeDB}.

(** [for line_num, line in enumerate(lines, start=...)]: the findings of
    the lines, or the first exception. *)
Fixpoint scan_numbered (lines : list (nat * str)) : res (list Finding) :=
  match lines with
  | [] => Ret []
  | (line_num, line) :: lines' =>
      line_findings <- scan_line line line_num ;;
      rest <- scan_numbered lines' ;;
      Ret (line_findings ++ rest)
  end.

(** [scan_text], the method and the module's function of the same name
    (which calls the method of a fresh detector). *)
Definition scan_text (text : str) : res (list Finding) :=
  scan_numbered (enumerate 1 (splitlines text)).

End Detector.
End ScanText.

(* ================================================================= *)
(** * scanner.py *)

Module Scanner.

Import Detectors.

(** [config.py]: the settings the scanner reads. *)
Record Config := {
  MAX_FILE_SIZE : N;
  CHUNK_SIZE : N
}.

Definition default_config : Config :=
  {| MAX_FILE_SIZE := 500 * 1024 * 1024; CHUNK_SIZE := 10 * 1024 * 1024 |}.

(** ** The object store as the scanner sees it *)

(** A streaming body: what [iter_chunks(chunk_size)] yields, and the
    exception it ends with when the transport fails midway. *)
Record S3Body := {
  iter_chunks : N -> list bytes;
  body_fault : option exn
}.

Record S3 := {
  (** [head_object(...)['ContentLength']] *)
  head_object : str -> str -> res N;
  (** [get_object(..., Range='bytes=0-1023')['Body'].read(1024)] *)
  get_object_range : str -> str -> res bytes;
  (** [get_object(...)['Body']] *)
  get_object : str -> str -> res S3Body
}.

(** The requests made to the object store, oldest first. *)
Inductive S3Call :=
| HeadObject (bucket key : str)
| GetObjectRange (bucket key : str)
| GetObject (bucket key : str).

(** ** Decoding *)

Definition continuation (b : N) : bool := Unicode.in_range 0x80 0xBF b.

Definition bits (b mask : N) (shift : N) : N := N.shiftl (N.land b mask) shift.

(** [bytes.decode('utf-8')], strict: [None] stands for
    [UnicodeDecodeError] (a truncated or ill-formed sequence, an overlong
    form, a surrogate, a value above U+10FFFF). *)
Fixpoint utf8_decode (bs : bytes) : option str :=
  match bs with
  | [] => Some []
  | b0 :: r0 =>
      if (b0 <? 0x80)%N then option_map (cons b0) (utf8_decode r0)
      else if Unicode.in_range 0xC2 0xDF b0 then
        match r0 with
        | b1 :: r1 =>
            if continuation b1 then
              option_map (cons (N.lor (bits b0 0x1F 6) (bits b1 0x3F 0)))
                         (utf8_decode r1)
            else None
        | _ => None
        end
      else if Unicode.in_range 0xE0 0xEF b0 then
        match r0 with
        | b1 :: b2 :: r2 =>
            if Unicode.in_range (if N.eqb b0 0xE0 then 0xA0 else 0x80)
                                (if N.eqb b0 0xED then 0x9F else 0xBF) b1
               && continuation b2 then
              option_map
                (cons (N.lor (bits b0 0x0F 12)
                             (N.lor (bits b1 0x3F 6) (bits b2 0x3F 0))))
                (utf8_decode r2)
            else None
        | _ => None
        end
      else if Unicode.in_range 0xF0 0xF4 b0 then
        match r0 with
        | b1 :: b2 :: b3 :: r3 =>
            if Unicode.in_range (if N.eqb b0 0xF0 then 0x90 else 0x80)
                                (if N.eqb b0 0xF4 then 0x8F else 0xBF) b1
               && continuation b2 && continuation b3 then
              option_map
                (cons (N.lor (bits b0 0x07 18)
                             (N.lor (bits b1 0x3F 12)
                                    (N.lor (bits b2 0x3F 6) (bits b3 0x3F 0)))))
                (utf8_decode r3)
            else None
        | _ => None
        end
      else None
  end.

(** [bytes.decode('latin-1')]: every byte is its own code point. *)
Definition latin1_decode (bs : bytes) : str := bs.

(** The decoding of one chunk: UTF-8, else Latin-1 (which cannot fail, so
    the inner handler that skips the chunk is never entered). *)
Definition decode_chunk (chunk : bytes) : str :=
  match utf8_decode chunk with
  | Some text => text
  | None => latin1_decode chunk
  end.

Section Scan.
Context {U : UnicodeDB}.
Variable cfg : Config.
Variable s3 : S3.

Definition text_extensions : list str :=
  map lit [".txt"; ".log"; ".csv"; ".json"; ".xml"; ".html"; ".htm";
           ".md"; ".py"; ".js"; ".java"; ".c"; ".cpp"; ".h"; ".sh";
           ".yml"; ".yaml"; ".toml"; ".ini"; ".cfg"; ".conf"; ".sql"]%string.

(** ** [is_text_file]: the answer, or the exception that escapes, with the
    requests made. *)
Definition is_text_file (s3_bucket s3_key : str) : res bool * list S3Call :=
  if existsb (fun ext => endswith ext (Unicode.lower s3_key)) text_extensions
  then (Ret true, [])
  else
    let calls := [GetObjectRange s3_bucket s3_key] in
    match get_object_range s3 s3_bucket s3_key with
    | Ret sample =>
        if existsb (N.eqb 0) sample then (Ret false, calls)
        else
          match utf8_decode sample with
          | Some _ => (Ret true, calls)
          | None => (Ret false, calls)
          end
    | Exn (ClientError _) => (Ret false, calls)
    | Exn e => (Exn e, calls)
    end.

(** ** [get_file_size]: [Ret None] when the request fails with a
    [ClientError]. *)
Definition get_file_size (s3_bucket s3_key : str) : res (option N) :=
  match head_object s3 s3_bucket s3_key with
  | Ret size => Ret (Some size)
  | Exn (ClientError _) => Ret None
  | Exn e => Exn e
  end.

(** ** [scan_file_streaming] *)

(** The local variables of the streaming loop. *)
Record Loop := {
  line_number : nat;
  buffer : str;
  findings : list Finding
}.

(** [for line in lines[:-1]]: the state reached, and the exception that
    stopped the loop, if any. *)
Fixpoint scan_lines (lines : list str) (line_number : nat)
    (findings : list Finding) : nat * list Finding * option exn :=
  match lines with
  | [] => (line_number, findings, None)
  | line :: lines' =>
      let line_number := line_number + 1 in
      match scan_line line line_number with
      | Ret line_findings =>
          scan_lines lines' line_number (findings ++ line_findings)
      | Exn e => (line_number, findings, Some e)
      end
  end.

(** One turn of [for chunk in body.iter_chunks(...)]. *)
Definition scan_chunk (st : Loop) (chunk : bytes) : Loop * option exn :=
  let text := decode_chunk chunk in
  let buffer := buffer st ++ text in
  let lines := split (ch "010") buffer in
  let buffer := last lines [] in
  let '(line_number, findings, e) :=
    scan_lines (removelast lines) (line_number st) (findings st) in
  ({| line_number := line_number; buffer := buffer; findings := findings |}, e).

Fixpoint scan_chunks (st : Loop) (chunks : list bytes) : Loop * option exn :=
  match chunks with
  | [] => (st, None)
  | chunk :: chunks' =>
      match scan_chunk st chunk with
      | (st', None) => scan_chunks st' chunks'
      | (st', Some e) => (st', Some e)
      end
  end.

(** The two handlers that close [scan_file_streaming]. *)
Definition error_message_of (e : exn) : str :=
  match e with
  | ClientError m => lit "S3 error: " ++ m
  | _ => lit "Unexpected error: " ++ exn_str e
  end.

Definition decimal (n : N) : str :=
  lit (DecimalString.NilZero.string_of_uint (N.to_uint n)).

(** The streaming of the body once it is open. *)
Definition scan_body (body : S3Body) : list Finding * option str :=
  let st0 := {| line_number := 0; buffer := []; findings := [] |} in
  match scan_chunks st0 (iter_chunks body (CHUNK_SIZE cfg)) with
  | (st, Some e) => (findings st, Some (error_message_of e))
  | (st, None) =>
      match body_fault body with
      | Some e => (findings st, Some (error_message_of e))
      | None =>
          match buffer st with
          | [] => (findings st, None)
          | _ =>
              match scan_line (buffer st) (line_number st + 1) with
              | Ret line_findings => (findings st ++ line_findings, None)
              | Exn e => (findings st, Some (error_message_of e))
              end
          end
      end
  end.

(** The findings, the error message ([None] when the scan completed) and
    the requests made to the object store. *)
Definition scan_file_streaming (s3_bucket s3_key : str)
    : (list Finding * option str) * list S3Call :=
  let head := [HeadObject s3_bucket s3_key] in
  match get_file_size s3_bucket s3_key with
  | Exn e => (([], Some (error_message_of e)), head)
  | Ret None => (([], Some (lit "Could not determine file size")), head)
  | Ret (Some file_size) =>
      if (MAX_FILE_SIZE cfg <? file_size)%N then
        (([], Some (lit "File too large: " ++ decimal file_size ++ lit " bytes")),
         head)
      else
        match is_text_file s3_bucket s3_key with
        | (Exn e, calls) => (([], Some (error_message_of e)), head ++ calls)
        | (Ret false, calls) =>
            (([], Some (lit "Non-text file, skipped")), head ++ calls)
        | (Ret true, calls) =>
            let calls := head ++ calls ++ [GetObject s3_bucket s3_key] in
            match get_object s3 s3_bucket s3_key with
            | Exn e => (([], Some (error_message_of e)), calls)
            | Ret body => (scan_body body, calls)
            end
        end
  end.

(** [scan_file] *)
Definition scan_file (s3_bucket s3_key : str)
    : (list Finding * option str) * list S3Call :=
  scan_file_streaming s3_bucket s3_key.

End Scan.
End Scanner.

(* ================================================================= *)
(** * database.py *)

Module Database.

Import Detectors.

(** The values of [job_objects.status] the schema admits. *)
Inductive Status := pending | scanning | completed | failed | skipped.

Definition timestamp := N.

(** A row of [job_objects]. *)
Record JobObject := {
  object_id : N;
  job_id : str;
  s3_key : str;
  file_size_bytes : option N;
  status : Status;
  findings_count : nat;
  error_message : option str;
  attempts : nat;
  scanned_at : option timestamp
}.

(** A row of [findings] as the worker supplies it; [finding_id] and
    [detected_at] are filled in by the server and not represented. *)
Record FindingRow := {
  f_object_id : N;
  f_job_id : str;
  f_finding_type : FindingType;
  f_value_hash : str;
  f_line_number : nat;
  f_column_start : nat;
  f_column_end : nat;
  f_context : str;
  f_confidence : Confidence
}.

Record DB := {
  job_objects : list JobObject;
  findings : list FindingRow
}.

(** The operations of a session that may raise [SQLAlchemyError]. *)
Inductive DbOp :=
| OpQuery                      (* the query of get_object_by_job_and_key *)
| OpUpdate (target : Status)   (* update_object_status: query and flush *)
| OpInsert                     (* bulk_insert_findings: execute and flush *)
| OpCommit (session : nat).    (* session.commit() of the n-th session *)

Definition finding_type_eqb (a b : FindingType) : bool :=
  match a, b with
  | ssn, ssn | credit_card, credit_card | aws_access_key, aws_access_key
  | aws_secret_key, aws_secret_key | email, email | phone_us, phone_us => true
  | _, _ => false
  end.

(** The columns of the constraint [unique_finding]. *)
Definition conflicts (a b : FindingRow) : bool :=
  N.eqb (f_object_id a) (f_object_id b) &&
  finding_type_eqb (f_finding_type a) (f_finding_type b) &&
  Nat.eqb (f_line_number a) (f_line_number b) &&
  Nat.eqb (f_column_start a) (f_column_start b) &&
  str_eqb (f_value_hash a) (f_value_hash b).

(** [INSERT ... ON CONFLICT DO NOTHING] of one row. *)
Definition insert_or_ignore (table : list FindingRow) (row : FindingRow)
    : list FindingRow :=
  if existsb (conflicts row) table then table else table ++ [row].

(** [INSERT ... VALUES rows ON CONFLICT (object_id, finding_type,
    line_number, column_start, value_hash) DO NOTHING] *)
Definition insert_on_conflict_do_nothing (table : list FindingRow)
    (rows : list FindingRow) : list FindingRow :=
  fold_left insert_or_ignore rows table.

(** [if s:] for an optional string. *)
Definition truthy (s : option str) : bool :=
  match s with
  | Some (_ :: _) => true
  | _ => false
  end.

Section Operations.
(** Which operation fails, and the clock of [datetime.utcnow()]. *)
Variable db_fault : DbOp -> option exn.
Variable utcnow : timestamp.

Definition set_status (status_ : Status) (error_message_ : option str)
    (obj : JobObject) : JobObject :=
  {| object_id := object_id obj;
     job_id := job_id obj;
     s3_key := s3_key obj;
     file_size_bytes := file_size_bytes obj;
     status := status_;
     findings_count := findings_count obj;
     error_message :=
       if truthy error_message_ then error_message_ else error_message obj;
     attempts := attempts obj + 1;
     scanned_at :=
       match status_ with
       | completed | failed => Some utcnow
       | _ => None
       end |}.

(** [session.query(JobObject).filter(JobObject.object_id == id).first()] *)
Definition first_by_id (s : DB) (id : N) : option JobObject :=
  find (fun o => N.eqb (object_id o) id) (job_objects s).

(** The row [obj], mutated in place. *)
Definition store (s : DB) (id : N) (f : JobObject -> JobObject) : DB :=
  {| job_objects :=
       map (fun o => if N.eqb (object_id o) id then f o else o) (job_objects s);
     findings := findings s |}.

(** [update_object_status] *)
Definition update_object_status (s : DB) (id : N) (status_ : Status)
    (error_message_ : option str) : res DB :=
  match db_fault (OpUpdate status_) with
  | Some e => Exn e
  | None =>
      match first_by_id s id with
      | Some _ => Ret (store s id (set_status status_ error_message_))
      | None => Ret s
      end
  end.

(** [bulk_insert_findings] *)
Definition bulk_insert_findings (s : DB) (findings_data : list FindingRow)
    : res DB :=
  match findings_data with
  | [] => Ret s
  | _ =>
      match db_fault OpInsert with
      | Some e => Exn e
      | None =>
          Ret {| job_objects := job_objects s;
                 findings :=
                   insert_on_conflict_do_nothing (findings s) findings_data |}
      end
  end.

(** [get_object_by_job_and_key]: [None] also when the query fails (the
    faults of [OpQuery] stand for [SQLAlchemyError], the class the function
    catches).  The job is compared as the string the rows were stored
    with. *)
Definition get_object_by_job_and_key (s : DB) (job_id_ s3_key_ : str)
    : option JobObject :=
  match db_fault OpQuery with
  | Some _ => None
  | None =>
      find (fun o => str_eqb (job_id o) job_id_ && str_eqb (s3_key o) s3_key_)
           (job_objects s)
  end.

Definition mark_object_scanning (s : DB) (id : N) : res DB :=
  update_object_status s id scanning None.

Definition mark_object_completed (s : DB) (id : N) : res DB :=
  update_object_status s id completed None.

Definition mark_object_failed (s : DB) (id : N) (error_message_ : str)
    : res DB :=
  update_object_status s id failed (Some error_message_).

End Operations.
End Database.

(* ================================================================= *)
(** * main.py *)

Module Worker.

Import Detectors Scanner Database.

(** An SQS message.  [Body] is what [json.loads] makes of the body:
    [None] for text that is not JSON, else the fields of the object (the
    worker is sent objects whose values are strings).  A body that is JSON
    but no object (a number, [null], a list, a string) is not
    represented. *)
Record Message := {
  ReceiptHandle : str;
  MessageId : str;
  Body : option (list (str * str))
}.

Inductive SqsCall := DeleteMessage (receipt_handle : str).

(** What the worker acts on: the database and the requests it has sent to
    the queue, latest last. *)
Record World := {
  db : DB;
  sqs_calls : list SqsCall
}.

(** How [process_message] ended: it returned, or its handler logged an
    exception (and the message was left for redelivery). *)
Inductive Outcome :=
| Returned
| Logged (e : exn).

Record Env := {
  config : Config;
  s3 : S3;
  db_fault : DbOp -> option exn;
  (** the answer of [sqs_client.delete_message] *)
  sqs_delete : str -> res unit;
  utcnow : timestamp
}.

Definition lookup (k : str) (data : list (str * str)) : option str :=
  option_map snd (find (fun p => str_eqb (fst p) k) data).

Definition has_field (data : list (str * str)) (k : str) : bool :=
  match lookup k data with Some _ => true | None => false end.

(** [data[k]] for a key that [parse_message] has checked. *)
Definition field (k : str) (data : list (str * str)) : str :=
  match lookup k data with Some v => v | None => [] end.

Definition required_fields : list str :=
  map lit ["job_id"; "s3_bucket"; "s3_key"]%string.

(** [parse_message] *)
Definition parse_message (message_body : option (list (str * str)))
    : option (list (str * str)) :=
  match message_body with
  | None => None
  | Some data =>
      if forallb (has_field data) required_fields then Some data else None
  end.

Section Worker.
Context {U : UnicodeDB}.
Variable env : Env.

(** [delete_message]: a [ClientError] is logged, anything else escapes. *)
Definition delete_message (receipt_handle : str) (w : World)
    : res unit * World :=
  let w' := {| db := db w;
               sqs_calls := sqs_calls w ++ [DeleteMessage receipt_handle] |} in
  match sqs_delete env receipt_handle with
  | Ret _ => (Ret tt, w')
  | Exn (ClientError _) => (Ret tt, w')
  | Exn e => (Exn e, w')
  end.

(** [with self.db_manager.get_session() as session]: the body works on the
    session's view of the database; leaving it commits, an exception (of
    the body or of the commit) rolls back and is raised again. *)
Definition get_session {A} (n : nat)
    (body : DB -> World -> res A * DB * World) (w : World) : res A * World :=
  match body (db w) w with
  | (Ret a, s, w') =>
      match db_fault env (OpCommit n) with
      | None => (Ret a, {| db := s; sqs_calls := sqs_calls w' |})
      | Some e => (Exn e, w')
      end
  | (Exn e, _, w') => (Exn e, w')
  end.

(** The first session: [Ret None] when the function returns from inside it
    (no such object), else the object's id. *)
Definition resolve_and_mark (job_id_ s3_key_ receipt_handle : str)
    (s : DB) (w : World) : res (option N) * DB * World :=
  match get_object_by_job_and_key (db_fault env) s job_id_ s3_key_ with
  | None =>
      match delete_message receipt_handle w with
      | (Ret _, w') => (Ret None, s, w')
      | (Exn e, w') => (Exn e, s, w')
      end
  | Some obj =>
      match mark_object_scanning (db_fault env) (utcnow env) s (object_id obj) with
      | Ret s' => (Ret (Some (object_id obj)), s', w)
      | Exn e => (Exn e, s, w)
      end
  end.

Definition findings_data (id : N) (job_id_ : str) (fs : list Finding)
    : list FindingRow :=
  map (fun f =>
         {| f_object_id := id;
            f_job_id := job_id_;
            f_finding_type := finding_type f;
            f_value_hash := value_hash f;
            f_line_number := Detectors.line_number f;
            f_column_start := column_start f;
            f_column_end := column_end f;
            f_context := context f;
            f_confidence := confidence f |}) fs.

(** The second session: the results of the scan are written. *)
Definition write_results (id : N) (job_id_ : str) (fs : list Finding)
    (error_message_ : option str) (s : DB) (w : World)
    : res unit * DB * World :=
  if truthy error_message_ then
    match mark_object_failed (db_fault env) (utcnow env) s id
                             (match error_message_ with Some m => m | None => [] end) with
    | Ret s' => (Ret tt, s', w)
    | Exn e => (Exn e, s, w)
    end
  else
    match (match fs with
           | [] => Ret s
           | _ => bulk_insert_findings (db_fault env) s (findings_data id job_id_ fs)
           end) with
    | Exn e => (Exn e, s, w)
    | Ret s1 =>
        match mark_object_completed (db_fault env) (utcnow env) s1 id with
        | Ret s2 => (Ret tt, s2, w)
        | Exn e => (Exn e, s, w)
        end
    end.

(** [process_message] *)
Definition process_message (message : Message) (w : World) : World * Outcome :=
  let receipt_handle := ReceiptHandle message in
  match parse_message (Body message) with
  | None =>
      match delete_message receipt_handle w with
      | (Ret _, w') => (w', Returned)
      | (Exn e, w') => (w', Logged e)
      end
  | Some data =>
      let job_id_ := field (lit "job_id") data in
      let s3_bucket := field (lit "s3_bucket") data in
      let s3_key_ := field (lit "s3_key") data in
      match get_session 1 (resolve_and_mark job_id_ s3_key_ receipt_handle) w with
      | (Exn e, w1) => (w1, Logged e)
      | (Ret None, w1) => (w1, Returned)
      | (Ret (Some id), w1) =>
          let '(fs, error_message_, _) :=
            scan_file (config env) (s3 env) s3_bucket s3_key_ in
          match get_session 2 (write_results id job_id_ fs error_message_) w1 with
          | (Exn e, w2) => (w2, Logged e)
          | (Ret _, w2) =>
              match delete_message receipt_handle w2 with
              | (Ret _, w3) => (w3, Returned)
              | (Exn e, w3) => (w3, Logged e)
              end
          end
      end
  end.

End Worker.
End Worker.

(* ================================================================= *)
(** * Notions the properties are stated with *)

Module ReSpec.

Import Re.

(** The words of a pattern, word boundaries left aside. *)
Inductive lang : regex -> list char -> Prop :=
| L_Eps : lang Eps []
| L_Chr p x : p x = true -> lang (Chr p) [x]
| L_Bnd : lang Bnd []
| L_Seq r1 r2 w1 w2 :
    lang r1 w1 -> lang r2 w2 -> lang (Seq r1 r2) (w1 ++ w2)
| L_AltL r1 r2 w : lang r1 w -> lang (Alt r1 r2) w
| L_AltR r1 r2 w : lang r2 w -> lang (Alt r1 r2) w
| L_RepStop r hi : lang (Rep r 0 hi) []
| L_RepStep r lo hi w1 w2 :
    lang r w1 -> lang (Rep r (pred lo) hi) w2 ->
    lang (Rep r lo (S hi)) (w1 ++ w2)
| L_Many p lo w :
    Forall (fun x => p x = true) w -> lo <= length w -> lang (Many p lo) w.

(** A cursor reached from [c] by reading [w]. *)
Definition reads (c : cursor) (w : list char) (c' : cursor) : Prop :=
  ahead c = w ++ ahead c' /\ index c' = index c + length w.

(** A matcher is sound for a set of words when each success is the
    continuation's success after one of them. *)
Definition sound_for {A} (L : list char -> Prop)
    (m : cursor -> (cursor -> option A) -> option A) : Prop :=
  forall c k a, m c k = Some a ->
    exists w c', L w /\ reads c w c' /\ k c' = Some a.

(** Whether the empty word is a word of the pattern. *)
Fixpoint nullable (r : regex) : bool :=
  match r with
  | Eps | Bnd => true
  | Chr _ => false
  | Seq r1 r2 => nullable r1 && nullable r2
  | Alt r1 r2 => nullable r1 || nullable r2
  | Rep r' lo _ => (lo =? 0) || nullable r'
  | Many _ lo => lo =? 0
  end.

(** The classes a word of the pattern can start with. *)
Fixpoint heads (r : regex) : list (char -> bool) :=
  match r with
  | Eps | Bnd => []
  | Chr p => [p]
  | Seq r1 r2 => heads r1 ++ (if nullable r1 then heads r2 else [])
  | Alt r1 r2 => heads r1 ++ heads r2
  | Rep r' _ _ => heads r'
  | Many p _ => [p]
  end.

(** The classes a word of the pattern can end with. *)
Fixpoint lasts (r : regex) : list (char -> bool) :=
  match r with
  | Eps | Bnd => []
  | Chr p => [p]
  | Seq r1 r2 => lasts r2 ++ (if nullable r2 then lasts r1 else [])
  | Alt r1 r2 => lasts r1 ++ lasts r2
  | Rep r' _ _ => lasts r'
  | Many p _ => [p]
  end.


End ReSpec.

Module DetectorSpec.

Import Re Detectors.

Section Spec.
Context {U : UnicodeDB}.

(** What [re.sub(r'[-\s]', '', value)] returns for a match. *)
Definition normalized (text : str) (m : nat * nat) : str :=
  sub_empty (Chr dash_space) (group0 text m).

(** The area numbers [detect_ssn] excludes. *)
Definition ssn_excluded (digits : str) : bool :=
  startswith (lit "000") digits || startswith (lit "666") digits ||
  startswith (lit "9") digits.

(** Follows the spec's words: "mod-10 of alternating-doubled digits from
    the rightmost digit".  [luhn_sum double ds] adds the digits [ds], read
    from the right, doubling every second one ([double] says whether the
    first is doubled); a doubled digit above 9 counts as the sum of its two
    digits, that is, less 9. *)
Fixpoint luhn_sum (double : bool) (from_right : list nat) : nat :=
  match from_right with
  | [] => 0
  | d :: ds =>
      (if double then (if 9 <? d * 2 then d * 2 - 9 else d * 2) else d)
      + luhn_sum (negb double) ds
  end.

(** The checksum of the spec on the digits of a number, leftmost first. *)
Definition spec_luhn_valid (digits : list nat) : bool :=
  luhn_sum false (rev digits) mod 10 =? 0.

(** The values of a string of decimal digits. *)
Definition digit_values (s : str) : list nat :=
  map (fun c => match Unicode.decimal_value c with Some v => v | None => 0 end) s.

(** What removing the separators leaves of [w]: [n] digits. *)
Definition leaves (w : list char) (n : nat) : Prop :=
  Forall (fun x => digit x = true) (filter (fun x => negb (dash_space x)) w) /\
  length (filter (fun x => negb (dash_space x)) w) = n.

(** What a detector reports of a line: where, and the hash. *)
Definition reported (fs : list Finding) : list (nat * nat * str) :=
  map (fun f => (column_start f, column_end f, value_hash f)) fs.

(** The findings of a line that holds [s] alone: value, hash, confidence. *)
Definition card_findings (s : string) : res (list (str * str * Confidence)) :=
  fs <- detect_credit_card (lit s) 1 ;;
  Ret (map (fun f => (value f, value_hash f, confidence f)) fs).

(** [s] is reported, hashed as the digits [digits]. *)
Definition accepts (s digits : string) : Prop :=
  card_findings s = Ret [(lit s, hash_value (lit digits), high)].

Definition rejects (s : string) : Prop :=
  card_findings s = Ret [].

(** A class none of whose characters is white space. *)
Definition solid (p : char -> bool) : Prop :=
  forall x, p x = true -> Unicode.is_space x = false.

(** A text that is not empty and neither starts nor ends with white
    space. *)
Definition trimmed (w : str) : Prop :=
  (exists x, hd_error w = Some x /\ Unicode.is_space x = false) /\
  (exists y, hd_error (rev w) = Some y /\ Unicode.is_space y = false).

End Spec.
End DetectorSpec.

Module ScannerSpec.

Import Re Detectors DetectorSpec Scanner.

Section Spec.
Context {U : UnicodeDB}.

(** A body that yields the given chunks, whatever size is asked for. *)
Definition yielding (chunks : list bytes) (fault : option exn) : S3Body :=
  {| iter_chunks := fun _ => chunks; body_fault := fault |}.

(** The loop before the first chunk. *)
Definition start : Loop := {| line_number := 0; buffer := []; findings := [] |}.

Definition newline : char := ch "010".

(** The findings of a line, [scan_line] never raising. *)
Definition line_findings (line : str) (n : nat) : list Finding :=
  (((detect_ssn line n ++
     map (fun m => finding_of credit_card line n m
                     (normalized line m) high)
         (filter (fun m => spec_luhn_valid
                             (digit_values
                                (normalized line m)))
                 (Re.finditer (PATTERNS credit_card) line))) ++
    detect_aws_keys line n) ++ detect_email line n) ++ detect_phone line n.

(** The findings of consecutive lines, the first numbered [n + 1]. *)
Fixpoint lines_findings (n : nat) (lines : list str) : list Finding :=
  match lines with
  | [] => []
  | line :: lines' =>
      line_findings line (n + 1) ++ lines_findings (n + 1) lines'
  end.

(** One turn of the loop on decoded text. *)
Definition feed (st : Loop) (text : str) : Loop :=
  let lines := split newline (buffer st ++ text) in
  {| line_number := line_number st + length (removelast lines);
     buffer := last lines [];
     findings :=
       findings st ++ lines_findings (line_number st) (removelast lines) |}.

End Spec.
End ScannerSpec.

Module DatabaseSpec.

Import Database.

(** The table holds no two rows with the same key. *)
Definition unique_finding (table : list FindingRow) : Prop :=
  ForallOrdPairs (fun a b => conflicts a b = false) table.

End DatabaseSpec.


Module HashSpec.

(** A lower-case hexadecimal digit. *)
Definition hex_char (c : char) : bool :=
  Unicode.in_range 48 57 c || Unicode.in_range 97 102 c.

End HashSpec.

Module LuhnSpec.

(** What one digit adds to the checksum: itself, or when doubled the sum
    of the digits of its double. *)
Definition luhn_term (double : bool) (d : nat) : nat :=
  if double then (if 9 <? d * 2 then d * 2 - 9 else d * 2) else d.

End LuhnSpec.

Module TextSpec.

Import Detectors DetectorSpec Scanner ScannerSpec ScanText.

Section Spec.
Context {U : UnicodeDB}.

(** The text the streaming loop sees: each chunk decoded on its own. *)
Definition decoded (chunks : list bytes) : str :=
  concat (map decode_chunk chunks).

(** The findings of a text read line by line, the lines ending at line
    feeds and numbered from 1; nothing follows a final line feed. *)
Definition text_findings (text : str) : list Finding :=
  let lines := split newline text in
  lines_findings 0 (removelast lines) ++
  match last lines [] with
  | [] => []
  | line => line_findings line (length (removelast lines) + 1)
  end.

(** The line feed is the only line boundary of the text. *)
Definition only_line_feeds (text : str) : bool :=
  forallb (fun c => negb (line_boundary c) || N.eqb c 10) text.

End Spec.
End TextSpec.

(* ================================================================= *)
(** * Worked instances *)

Module Demo.

Import Detectors Scanner Database Worker.

(** [content] cut in pieces of [size] bytes, the last one shorter. *)
Fixpoint pieces (fuel size : nat) (content : bytes) : list bytes :=
  match fuel, content with
  | S fuel', _ :: _ =>
      firstn size content :: pieces fuel' size (skipn size content)
  | _, _ => []
  end.

(** What [iter_chunks(chunk_size)] yields of a body that holds [content]:
    [read(chunk_size)] after [read(chunk_size)] until nothing is left. *)
Definition read_chunks (content : bytes) (chunk_size : N) : list bytes :=
  if (chunk_size =? 0)%N then []
  else if (N.of_nat (length content) <=? chunk_size)%N then
    match content with [] => [] | _ => [content] end
  else pieces (length content) (N.to_nat chunk_size) content.

(** A store that holds one object and answers every request honestly. *)
Definition store_of (content : bytes) : S3 :=
  {| head_object := fun _ _ => Ret (N.of_nat (length content));
     get_object_range := fun _ _ => Ret (firstn 1024 content);
     get_object := fun _ _ =>
       Ret {| iter_chunks := read_chunks content; body_fault := None |} |}.

(** A store whose object is larger than the default maximum. *)
Definition oversize_store : S3 :=
  {| head_object := fun _ _ => Ret (600 * 1024 * 1024)%N;
     get_object_range := fun _ _ => Ret [];
     get_object := fun _ _ =>
       Ret {| iter_chunks := fun _ => []; body_fault := None |} |}.

Definition no_fault : DbOp -> option exn := fun _ => None.

(** [s] with its digits 0 to 9 written as Arabic-Indic digits. *)
Definition arabic_indic (s : string) : str :=
  map (fun c => if Unicode.ascii_digit c then (c + 0x630)%N else c) (lit s).

Definition env_of (store : S3) (fault : DbOp -> option exn)
    (delete : str -> res unit) : Env :=
  {| config := default_config;
     s3 := store;
     db_fault := fault;
     sqs_delete := delete;
     utcnow := 1700000000%N |}.

Definition row : JobObject :=
  {| object_id := 7;
     job_id := lit "job-1";
     s3_key := lit "notes.txt";
     file_size_bytes := None;
     status := pending;
     findings_count := 0;
     error_message := None;
     attempts := 0;
     scanned_at := None |}.

Definition world : World :=
  {| db := {| job_objects := [row]; findings := [] |}; sqs_calls := [] |}.

Definition data : list (str * str) :=
  [(lit "job_id", lit "job-1"); (lit "s3_bucket", lit "bucket");
   (lit "s3_key", lit "notes.txt")].

Definition message : Message :=
  {| ReceiptHandle := lit "rh-1"; MessageId := lit "m-1"; Body := Some data |}.

Definition notes : bytes := lit "SSN 123-45-6789".

(** [e-acute] in UTF-8. *)
Definition accented : bytes := Codec.utf8_encode [233%N].

(** The results cannot be written: the update to [completed] fails. *)
Definition update_fails (op : DbOp) : option exn :=
  match op with
  | OpUpdate completed => Some (SQLAlchemyError (lit "connection lost"))
  | _ => None
  end.

(** The queue cannot be reached when the message is to be deleted. *)
Definition unreachable (receipt_handle : str) : res unit :=
  Exn (OtherError (lit "Could not connect to the endpoint URL")).

Definition deleted (receipt_handle : str) : res unit := Ret tt.

(** A store holding a zero-byte object, which answers a ranged read of it
    with the client error [InvalidRange]. *)
Definition empty_object_store : S3 :=
  {| head_object := fun _ _ => Ret 0%N;
     get_object_range := fun _ _ =>
       Exn (ClientError (lit "An error occurred (InvalidRange) when calling the GetObject operation: The requested range is not satisfiable"));
     get_object := fun _ _ =>
       Ret {| iter_chunks := fun _ => []; body_fault := None |} |}.

(** The findings of a scan of [notes.txt] holding [content], read with
    the given chunk size. *)
Definition findings_at_chunk_size {U : UnicodeDB} (chunk_size : N)
    (content : bytes) : list Finding :=
  fst (fst (scan_file_streaming
              {| MAX_FILE_SIZE := MAX_FILE_SIZE default_config;
                 CHUNK_SIZE := chunk_size |}
              (store_of content) (lit "bucket") (lit "notes.txt"))).

(** The text [contact no: e-acute 123-45-6789]. *)
Definition accented_text : str :=
  lit "contact no: " ++ [233; 32]%N ++ lit "123-45-6789".

(** The same in UTF-8: 26 bytes, those of the e-acute the 13th and the
    14th. *)
Definition accented_line : bytes := Codec.utf8_encode accented_text.

(** [contact no: e-acute123-45-6789] in UTF-8: 25 bytes. *)
Definition accented_word : bytes :=
  Codec.utf8_encode (lit "contact no: " ++ [233]%N ++ lit "123-45-6789").

Definition finding_row (line column : nat) : FindingRow :=
  {| f_object_id := 7;
     f_job_id := lit "job-1";
     f_finding_type := ssn;
     f_value_hash := lit "15e2b0d3";
     f_line_number := line;
     f_column_start := column;
     f_column_end := column + 11;
     f_context := lit "123-45-6789";
     f_confidence := high |}.

Definition empty_db : DB := {| job_objects := []; findings := [] |}.

Definition stored : DB :=
  {| job_objects := []; findings := [finding_row 1 0; finding_row 2 4] |}.




(** Two lines, the first starting with a two-byte character. *)
Definition two_lines : bytes :=
  accented ++ lit " 123-45-6789" ++ [ch "010"] ++ lit "mail a@b.co".

End Demo.


Module Samples.

Import Detectors Scanner Database Worker Demo.

(** The example secret key of the AWS documentation, as a configuration
    file would hold it. *)
Definition secret_key : str := lit "wJalrXUtnFEMI/K7MDENG/bPxRfiCYEXAMPLEKEY".

Definition secret_key_line : str := lit "AWS_SECRET_KEY=" ++ secret_key.

Definition ssn_line : str := lit "SSN 123-45-6789".

(** The first line of [two_lines] as the reader decodes it. *)
Definition accented_ssn_line : str := [233; 32]%N ++ lit "123-45-6789".

(** [two_lines] delivered in two chunks, cut after the first fifteen
    bytes. *)
Definition two_chunks : S3Body :=
  {| iter_chunks := fun _ => [firstn 15 two_lines; skipn 15 two_lines];
     body_fault := None |}.

(** The first bytes of a ZIP archive. *)
Definition zip_header : bytes := [80; 75; 3; 4; 20; 0; 0; 0; 8; 0]%N.

(** A store that does not hold the object asked for. *)
Definition missing_object_store : S3 :=
  {| head_object := fun _ _ =>
       Exn (ClientError (lit "An error occurred (404) when calling the HeadObject operation: Not Found"));
     get_object_range := fun _ _ => Ret [];
     get_object := fun _ _ =>
       Ret {| iter_chunks := fun _ => []; body_fault := None |} |}.

(** A store whose object cannot be opened: it answers the size request
    and refuses the download. *)
Definition denied_store : S3 :=
  {| head_object := fun _ _ => Ret 15%N;
     get_object_range := fun _ _ => Ret [];
     get_object := fun _ _ =>
       Exn (ClientError (lit "An error occurred (AccessDenied) when calling the GetObject operation: Access Denied")) |}.

(** A row that an earlier attempt left failed. *)
Definition failed_row : JobObject :=
  {| object_id := 7;
     job_id := lit "job-1";
     s3_key := lit "notes.txt";
     file_size_bytes := None;
     status := failed;
     findings_count := 0;
     error_message := Some (lit "S3 error: timed out");
     attempts := 2;
     scanned_at := Some 1600000000%N |}.

Definition retried : DB := {| job_objects := [failed_row]; findings := [] |}.



(** The fields of a message that names a key no row has. *)
Definition stray_data : list (str * str) :=
  [(lit "job_id", lit "job-1"); (lit "s3_bucket", lit "bucket");
   (lit "s3_key", lit "other.txt")].

Definition stray : Message :=
  {| ReceiptHandle := lit "rh-4"; MessageId := lit "m-4";
     Body := Some stray_data |}.

(** The query of the lookup fails. *)
Definition lookup_fails (op : DbOp) : option exn :=
  match op with
  | OpQuery =>
      Some (SQLAlchemyError (lit "server closed the connection unexpectedly"))
  | _ => None
  end.

(** The environment of a worker whose store holds [notes] and in which
    nothing fails. *)
Definition quiet : Env := env_of (store_of notes) no_fault deleted.

End Samples.

(* ================================================================= *)
(** * Properties *)

(** ** Strings *)

Module PyFacts.

Lemma char_eqb_refl c : char_eqb c c = true.
Proof. apply N.eqb_refl. Qed.

Lemma str_eqb_refl s : str_eqb s s = true.
Proof. induction s; simpl; [reflexivity|]. now rewrite char_eqb_refl. Qed.

Lemma str_eqb_eq a b : str_eqb a b = true <-> a = b.
Proof.
  split; [|intros ->; apply str_eqb_refl].
  revert b; induction a as [|x a IH]; destruct b as [|y b]; simpl;
    try discriminate; auto.
  intros H. apply andb_prop in H as [H1 H2].
  apply N.eqb_eq in H1. f_equal; auto.
Qed.
End PyFacts.

(** ** Encoding and hashing *)

Module CodecFacts.

Import Scanner.

(** The test vectors of FIPS 180-4 for the empty message, for [abc] and
    for a message of two blocks. *)
Example sha256_empty :
  Sha256.hexdigest [] =
  lit "e3b0c44298fc1c149afbf4c8996fb92427ae41e4649b934ca495991b7852b855".
Proof. vm_compute. reflexivity. Qed.

Example sha256_abc :
  Sha256.hexdigest (lit "abc") =
  lit "ba7816bf8f01cfea414140de5dae2223b00361a396177a9cb410ff61f20015ad".
Proof. vm_compute. reflexivity. Qed.

Example sha256_two_blocks :
  Sha256.hexdigest
    (lit "abcdbcdecdefdefgefghfghighijhijkijkljklmklmnlmnomnopnopq") =
  lit "248d6a61d20638b8e5c026930c3e6039a33ce45964ff2167f6ecedd419db06c1".
Proof. vm_compute. reflexivity. Qed.

(** One character of each encoded length, there and back. *)
Example utf8_round_trip :
  Codec.utf8_encode [65; 233; 8364; 128512]%N
    = [65; 195; 169; 226; 130; 172; 240; 159; 152; 128]%N /\
  utf8_decode [65; 195; 169; 226; 130; 172; 240; 159; 152; 128]%N
    = Some [65; 233; 8364; 128512]%N.
Proof. vm_compute. split; reflexivity. Qed.

(** A chunk that ends inside a character, or starts inside one, is not
    UTF-8. *)
Example utf8_truncated :
  utf8_decode [65; 195]%N = None /\ utf8_decode [169; 65]%N = None.
Proof. vm_compute. split; reflexivity. Qed.

End CodecFacts.

(** ** What the matcher returns *)

Module ReFacts.

Import Re ReSpec.

#[local] Hint Constructors lang : core.

Lemma reads_nil c : reads c [] c.
Proof. split; [reflexivity|]. simpl; lia. Qed.

Lemma reads_app c1 c2 c3 w1 w2 :
  reads c1 w1 c2 -> reads c2 w2 c3 -> reads c1 (w1 ++ w2) c3.
Proof.
  intros [H1 H2] [H3 H4]. split.
  - now rewrite H1, H3, app_assoc.
  - rewrite H4, H2, length_app. lia.
Qed.

Section Sound.
Context {U : UnicodeDB}.
Variable A : Type.

Lemma many_sound p lo (k : cursor -> option A) : forall xs c taken a,
  ahead c = xs ->
  many p lo k xs c taken = Some a ->
  exists w c',
    Forall (fun x => p x = true) w /\ lo <= taken + length w /\
    reads c w c' /\ k c' = Some a.
Proof.
  induction xs as [|x xs IH]; intros c taken a Hc; simpl.
  - destruct (lo <=? taken) eqn:E; [|discriminate]. intros Hk.
    apply Nat.leb_le in E.
    exists [], c. repeat split; auto using reads_nil. simpl; lia.
  - assert (Hstop : (if lo <=? taken then k c else None) = Some a ->
              exists w c', Forall (fun x => p x = true) w /\
                lo <= taken + length w /\ reads c w c' /\ k c' = Some a).
    { destruct (lo <=? taken) eqn:E; [|discriminate]. intros Hk.
      apply Nat.leb_le in E.
      exists [], c. repeat split; auto using reads_nil. simpl; lia. }
    destruct (p x) eqn:Px; [|exact Hstop].
    destruct (many p lo k xs (advance x xs c) (S taken)) as [a'|] eqn:M;
      [|exact Hstop].
    intros H; injection H as <-.
    destruct (IH (advance x xs c) (S taken) a' eq_refl M)
      as (w & c' & Hw & Hlen & [Hr1 Hr2] & Hk).
    exists (x :: w), c'. repeat split; auto.
    + simpl; lia.
    + rewrite Hc. simpl. f_equal. exact Hr1.
    + rewrite Hr2. simpl. lia.
Qed.

Lemma rep_sound r (m : cursor -> (cursor -> option A) -> option A)
    (k : cursor -> option A) :
  sound_for (lang r) m ->
  forall hi lo c a,
    rep m k lo hi c = Some a ->
    exists w c', lang (Rep r lo hi) w /\ reads c w c' /\ k c' = Some a.
Proof.
  intros Hm.
  assert (Hstop : forall lo hi c a,
            (if lo =? 0 then k c else None) = Some a ->
            exists w c', lang (Rep r lo hi) w /\ reads c w c' /\ k c' = Some a).
  { intros lo hi c a. destruct (Nat.eqb_spec lo 0) as [->|]; [|discriminate].
    intros Hk. exists [], c. auto using reads_nil. }
  induction hi as [|hi IH]; intros lo c a; simpl; [apply Hstop|].
  destruct (m c (rep m k (pred lo) hi)) as [a'|] eqn:M; [|apply Hstop].
  intros H; injection H as <-.
  destruct (Hm _ _ _ M) as (w1 & c1 & L1 & R1 & K1).
  destruct (IH _ _ _ K1) as (w2 & c2 & L2 & R2 & K2).
  exists (w1 ++ w2), c2. eauto using reads_app.
Qed.

Lemma rmatch_sound r :
  sound_for (A := A) (lang r) (fun c k => rmatch r c k).
Proof.
  induction r as [|p| |r1 IH1 r2 IH2|r1 IH1 r2 IH2|r IH lo hi|p lo];
    intros c k a; simpl.
  - intros Hk. exists [], c. auto using reads_nil.
  - destruct (ahead c) as [|x xs] eqn:Hc; [discriminate|].
    destruct (p x) eqn:Px; [|discriminate]. intros Hk.
    exists [x], (advance x xs c). repeat split; auto.
    simpl. lia.
  - destruct (at_boundary c); [|discriminate]. intros Hk.
    exists [], c. auto using reads_nil.
  - intros H. destruct (IH1 _ _ _ H) as (w1 & c1 & L1 & R1 & K1).
    destruct (IH2 _ _ _ K1) as (w2 & c2 & L2 & R2 & K2).
    exists (w1 ++ w2), c2. eauto using reads_app.
  - destruct (rmatch r1 c k) as [a'|] eqn:M.
    + intros H; injection H as <-.
      destruct (IH1 _ _ _ M) as (w & c' & L & R & K). eauto 6.
    + intros H. destruct (IH2 _ _ _ H) as (w & c' & L & R & K). eauto 6.
  - apply rep_sound. exact IH.
  - intros H.
    destruct (many_sound _ _ _ _ _ eq_refl H) as (w & c' & Hw & Hl & R & K).
    exists w, c'. auto.
Qed.

End Sound.

Section Finditer.
Context {U : UnicodeDB}.

Lemma match_at_sound r c e :
  match_at r c = Some e ->
  exists w rest, lang r w /\ ahead c = w ++ rest /\ e = index c + length w.
Proof.
  unfold match_at. intros H.
  destruct (rmatch_sound _ _ _ H) as (w & c' & L & [R1 R2] & K).
  injection K as <-. eauto.
Qed.

(** Every match starts at or after [pos] and spells a word of the
    pattern. *)
Lemma scan_sound r : forall xs bef pos skip m,
  In m (scan r bef xs pos skip) ->
  exists pre w rest,
    lang r w /\ xs = pre ++ w ++ rest /\
    fst m = pos + length pre /\ snd m = fst m + length w.
Proof.
  induction xs as [|x xs IH]; intros bef pos skip m; simpl.
  - destruct skip; [|simpl; tauto].
    destruct (match_at r (Cursor bef [] pos)) as [e|] eqn:M; simpl; [|tauto].
    intros [<-|[]]. apply match_at_sound in M as (w & rest & L & E & ->).
    simpl in *. exists [], w, rest. repeat split; auto; simpl; lia.
  - assert (Htail : forall sk,
              In m (scan r (Some x) xs (S pos) sk) ->
              exists pre w rest,
                lang r w /\ x :: xs = pre ++ w ++ rest /\
                fst m = pos + length pre /\ snd m = fst m + length w).
    { intros sk H. apply IH in H as (pre & w & rest & L & E & F & S).
      exists (x :: pre), w, rest. repeat split; auto.
      - simpl. now rewrite E.
      - simpl. lia. }
    destruct skip; [|apply Htail].
    destruct (match_at r (Cursor bef (x :: xs) pos)) as [e|] eqn:M;
      [|apply Htail].
    intros [<-|H]; [|eapply Htail; eauto].
    apply match_at_sound in M as (w & rest & L & E & ->).
    simpl in *. exists [], w, rest. repeat split; auto; simpl; lia.
Qed.

Lemma finditer_sound r text m :
  In m (finditer r text) ->
  exists pre w rest,
    lang r w /\ text = pre ++ w ++ rest /\
    fst m = length pre /\ snd m = length pre + length w /\
    group0 text m = w.
Proof.
  intros H. apply scan_sound in H as (pre & w & rest & L & E & F & S).
  simpl in F. exists pre, w, rest. repeat split; auto; [lia|].
  unfold group0, slice. rewrite S, F, E.
  replace (length pre + length w - length pre) with (length w) by lia.
  rewrite skipn_app, Nat.sub_diag, skipn_all. simpl.
  rewrite firstn_app, Nat.sub_diag, firstn_all. simpl.
  now rewrite app_nil_r.
Qed.

End Finditer.
End ReFacts.

(** ** The detectors *)

Module DetectorFacts.

Import Re ReSpec ReFacts Detectors DetectorSpec.

#[local] Hint Constructors lang : core.

(** The repetitions of a pattern, one word per round. *)
Lemma lang_rep_inv r : forall hi lo w,
  lang (Rep r lo hi) w ->
  exists ws, w = concat ws /\ Forall (lang r) ws /\
             lo <= length ws /\ length ws <= hi.
Proof.
  induction hi as [|hi IH]; intros lo w H; inversion H; subst.
  - exists []. simpl. auto with arith.
  - exists []. simpl. auto with arith.
  - match goal with
    | H1 : lang r ?w1, H2 : lang (Rep r _ hi) ?w2 |- _ =>
        destruct (IH _ _ H2) as (ws & -> & F & Lo & Hi);
        exists (w1 :: ws); simpl; repeat split; auto; lia
    end.
Qed.

(** A bounded run of one class. *)
Lemma lang_rep_chr p lo hi w :
  lang (Rep (Chr p) lo hi) w ->
  Forall (fun x => p x = true) w /\ lo <= length w /\ length w <= hi.
Proof.
  intros H. apply lang_rep_inv in H as (ws & -> & F & Lo & Hi).
  assert (E : Forall (fun x => p x = true) (concat ws) /\
              length (concat ws) = length ws).
  { clear Lo Hi. induction F as [|w ws Hw _ [IH1 IH2]]; simpl; [auto|].
    inversion Hw; subst. simpl. split; [constructor; auto|congruence]. }
  destruct E as [E1 E2]. rewrite E2. auto.
Qed.

Section Facts.
Context {U : UnicodeDB}.

Lemma is_decimal_not_space c :
  Unicode.is_decimal c = true -> Unicode.is_space c = false.
Proof.
  unfold Unicode.is_decimal, Unicode.decimal_value, Unicode.is_space.
  destruct (Unicode.latin1 c) eqn:L.
  - destruct (Unicode.ascii_digit c) eqn:D; [|discriminate].
    intros _. unfold Unicode.ascii_digit, Unicode.in_range in *.
    apply andb_prop in D as [D1 D2].
    apply N.leb_le in D1; apply N.leb_le in D2.
    repeat rewrite orb_false_iff; repeat split;
      try (apply andb_false_iff;
           (left; apply N.leb_gt; lia) || (right; apply N.leb_gt; lia));
      apply N.eqb_neq; lia.
  - destruct (ucd_decimal c) eqn:D; [|discriminate].
    intros _. eapply ucd_decimal_not_space; eauto.
Qed.

Lemma is_decimal_is_digit c :
  Unicode.is_decimal c = true -> Unicode.is_digit c = true.
Proof.
  unfold Unicode.is_digit, Unicode.is_decimal at 1, Unicode.decimal_value.
  destruct (Unicode.latin1 c) eqn:L.
  - destruct (Unicode.ascii_digit c); [reflexivity|discriminate].
  - intros D. unfold Unicode.is_decimal, Unicode.decimal_value. rewrite L.
    destruct (ucd_decimal c); [reflexivity|discriminate].
Qed.

(** A digit is not a separator of [[-\s]]. *)
Lemma digit_not_dash_space x : digit x = true -> dash_space x = false.
Proof.
  unfold digit, dash_space. intros D.
  rewrite (is_decimal_not_space _ D), orb_false_r.
  unfold is_ch, char_eqb.
  destruct (N.eqb_spec x (ch "-")) as [->|]; [|reflexivity].
  discriminate D.
Qed.

(** *** [re.sub] of a single class is a filter *)

Lemma skipn_nth_error {A} (l : list A) : forall n x,
  nth_error l n = Some x -> skipn n l = x :: skipn (S n) l.
Proof.
  induction l as [|y l IH]; intros [|n] x; simpl; try discriminate.
  - now intros [= ->].
  - intros H. now rewrite (IH _ _ H).
Qed.

Lemma splice_skip text pos x ms :
  nth_error text pos = Some x ->
  match ms with [] => True | m :: _ => pos < fst m end ->
  splice text pos ms = x :: splice text (S pos) ms.
Proof.
  intros Hx. destruct ms as [|[s e] ms]; simpl; intros Hs.
  - now apply skipn_nth_error.
  - unfold slice. rewrite (skipn_nth_error _ _ Hx).
    replace (s - pos) with (S (s - S pos)) by lia. reflexivity.
Qed.

Lemma scan_head_ge r xs bef pos skip :
  match scan r bef xs pos skip with [] => True | m :: _ => pos <= fst m end.
Proof.
  destruct (scan r bef xs pos skip) as [|m ms] eqn:E; [exact I|].
  assert (H : In m (scan r bef xs pos skip)) by (rewrite E; now left).
  apply scan_sound in H as (pre & w & rest & _ & _ & F & _). lia.
Qed.

Lemma scan_hit r bef x xs pos e :
  match_at r (Cursor bef (x :: xs) pos) = Some e ->
  scan r bef (x :: xs) pos 0
  = (pos, e) :: scan r (Some x) xs (S pos) (e - pos - 1).
Proof. intros H. simpl. now rewrite H. Qed.

Lemma scan_miss r bef x xs pos :
  match_at r (Cursor bef (x :: xs) pos) = None ->
  scan r bef (x :: xs) pos 0 = scan r (Some x) xs (S pos) 0.
Proof. intros H. simpl. now rewrite H. Qed.

Lemma match_at_chr p bef x xs pos :
  match_at (Chr p) (Cursor bef (x :: xs) pos)
  = if p x then Some (S pos) else None.
Proof. unfold match_at. simpl. now destruct (p x). Qed.

Lemma splice_scan_chr p : forall xs pre bef,
  splice (pre ++ xs) (length pre) (scan (Chr p) bef xs (length pre) 0)
  = filter (fun x => negb (p x)) xs.
Proof.
  induction xs as [|x xs IH]; intros pre bef.
  - simpl. rewrite app_nil_r. apply skipn_all.
  - replace (pre ++ x :: xs) with ((pre ++ [x]) ++ xs)
      by (now rewrite <- app_assoc).
    specialize (IH (pre ++ [x]) (Some x)).
    rewrite length_app in IH. simpl in IH.
    rewrite Nat.add_1_r in IH.
    pose proof (match_at_chr p bef x xs (length pre)) as M.
    cbn [filter]. destruct (p x) eqn:Px; cbn [negb].
    + erewrite scan_hit by exact M.
      replace (S (length pre) - length pre - 1) with 0 by lia.
      cbn [splice]. unfold slice at 1. rewrite Nat.sub_diag. exact IH.
    + erewrite scan_miss by exact M. rewrite <- IH. apply splice_skip.
      * rewrite <- app_assoc. simpl.
        rewrite nth_error_app2 by lia. now rewrite Nat.sub_diag.
      * pose proof (scan_head_ge (Chr p) xs (Some x) (S (length pre)) 0) as G.
        destruct (scan _ _ _ _ _); [exact I|lia].
Qed.

Lemma sub_empty_chr p s :
  sub_empty (Chr p) s = filter (fun x => negb (p x)) s.
Proof. exact (splice_scan_chr p s [] None). Qed.

(** *** Digits and separators *)

Lemma leaves_nil : leaves [] 0.
Proof. split; [constructor|reflexivity]. Qed.

Lemma leaves_app w1 w2 n1 n2 :
  leaves w1 n1 -> leaves w2 n2 -> leaves (w1 ++ w2) (n1 + n2).
Proof.
  intros [F1 L1] [F2 L2]. unfold leaves. rewrite filter_app, length_app.
  split; [apply Forall_app; auto|lia].
Qed.

Lemma filter_digits w :
  Forall (fun x => digit x = true) w ->
  filter (fun x => negb (dash_space x)) w = w.
Proof.
  induction 1 as [|x w Hx _ IH]; simpl; [reflexivity|].
  now rewrite (digit_not_dash_space _ Hx), IH.
Qed.

Lemma leaves_digits w :
  Forall (fun x => digit x = true) w -> leaves w (length w).
Proof. intros F. unfold leaves. now rewrite (filter_digits F). Qed.

Lemma leaves_separators w :
  Forall (fun x => dash_space x = true) w -> leaves w 0.
Proof.
  intros F. unfold leaves.
  replace (filter (fun x => negb (dash_space x)) w) with (@nil char).
  - split; [constructor|reflexivity].
  - induction F as [|x w Hx _ IH]; simpl; [reflexivity|]. now rewrite Hx.
Qed.

Lemma leaves_run lo hi w :
  lang (Rep D lo hi) w -> exists n, leaves w n /\ lo <= n /\ n <= hi.
Proof.
  intros H. apply lang_rep_chr in H as (F & Lo & Hi).
  exists (length w). auto using leaves_digits.
Qed.

Lemma leaves_optional_separator w :
  lang (Opt (Chr dash_space)) w -> leaves w 0.
Proof.
  intros H. apply lang_rep_chr in H as (F & _). now apply leaves_separators.
Qed.

Lemma leaves_eq w n m : leaves w n -> n = m -> leaves w m.
Proof. now intros H <-. Qed.

Ltac split_word :=
  repeat match goal with
         | H : lang (Seq _ _) _ |- _ => inversion H; subst; clear H
         | H : lang Bnd _ |- _ => inversion H; subst; clear H
         | H : lang (Rep D _ _) _ |- _ =>
             apply leaves_run in H as (? & ? & ? & ?)
         | H : lang (Opt (Chr dash_space)) _ |- _ =>
             apply leaves_optional_separator in H
         end.

Ltac sum_digits :=
  repeat first [eassumption | apply leaves_nil | apply leaves_app].

Ltac count_digits := eapply leaves_eq; [sum_digits | lia].

(** A match of the SSN pattern holds nine digits. *)
Lemma ssn_shape w : lang (PATTERNS ssn) w -> leaves w 9.
Proof.
  cbn [PATTERNS]. unfold pattern_ssn, cat, Times. intros H.
  split_word. count_digits.
Qed.

(** A match of the card pattern holds fifteen or sixteen digits. *)
Lemma credit_card_shape w :
  lang (PATTERNS credit_card) w -> exists n, leaves w n /\ 15 <= n <= 16.
Proof.
  cbn [PATTERNS]. unfold pattern_credit_card, cat, Times. intros H.
  inversion H; subst; clear H.
  - repeat match goal with
           | H : lang (Seq _ _) _ |- _ => inversion H; subst; clear H
           | H : lang Bnd _ |- _ => inversion H; subst; clear H
           end.
    match goal with
    | H : lang (Rep (Seq _ _) 3 3) _ |- _ =>
        apply lang_rep_inv in H as (ws & -> & F & Lo & Hi)
    end.
    assert (G : exists n, leaves (concat ws) n /\ n = 4 * length ws).
    { clear Lo Hi. induction F as [|w ws Hw _ (n & IH1 & IH2)]; simpl.
      - exists 0. auto using leaves_nil.
      - split_word. eexists. split; [sum_digits|lia]. }
    destruct G as (n & G1 & G2). split_word.
    eexists. split; [sum_digits|lia].
  - split_word.
    eexists. split; [sum_digits|lia].
Qed.

Lemma normalized_leaves t text m :
  In m (finditer (PATTERNS t) text) ->
  forall n, (forall w, lang (PATTERNS t) w -> leaves w n) ->
  Forall (fun x => digit x = true) (normalized text m) /\
  length (normalized text m) = n.
Proof.
  intros Hm n Hshape.
  apply finditer_sound in Hm as (pre & w & rest & L & _ & _ & _ & G).
  unfold normalized. rewrite G, sub_empty_chr. exact (Hshape _ L).
Qed.

Lemma isdigit_digits s :
  s <> [] -> Forall (fun x => digit x = true) s -> Unicode.isdigit s = true.
Proof.
  intros Hs F. unfold Unicode.isdigit. destruct s; [congruence|].
  apply forallb_forall. rewrite Forall_forall in F.
  intros x Hx. apply is_decimal_is_digit. now apply F.
Qed.

Lemma flat_map_ext_in {A B} (f g : A -> list B) l :
  (forall x, In x l -> f x = g x) -> flat_map f l = flat_map g l.
Proof.
  induction l as [|x l IH]; simpl; intros H; [reflexivity|].
  rewrite H, IH; auto.
Qed.

Lemma flat_map_filter {A B} (keep : A -> bool) (g : A -> B) l :
  flat_map (fun x => if keep x then [g x] else []) l = map g (filter keep l).
Proof.
  induction l as [|x l IH]; simpl; [reflexivity|].
  destruct (keep x); simpl; now rewrite IH.
Qed.

(** *** Social security numbers *)

Lemma ssn_match_digits text ln m :
  In m (finditer (PATTERNS ssn) text) ->
  Forall (fun x => digit x = true) (normalized text m) /\
  length (normalized text m) = 9 /\
  ssn_match text ln m =
    if negb (ssn_excluded (normalized text m))
    then [finding_of ssn text ln m (normalized text m) high] else [].
Proof.
  intros Hm.
  destruct (normalized_leaves ssn text m Hm (n := 9)) as [F L];
    [intros; now apply ssn_shape|].
  repeat split; auto.
  unfold ssn_match. fold (normalized text m). rewrite L.
  rewrite isdigit_digits; auto.
  - unfold ssn_excluded. simpl andb. cbv iota.
    now destruct (_ || _ || _).
  - intros E. now rewrite E in L.
Qed.

(** *** Luhn *)

Lemma odd_mod2 i : (i mod 2 =? 1) = Nat.odd i.
Proof.
  rewrite <- Nat.bit0_mod, Nat.bit0_odd. now destruct (Nat.odd i).
Qed.

Lemma fold_luhn_add l : forall i acc,
  fold_left luhn_add (enumerate i l) acc = acc + luhn_sum (Nat.odd i) l.
Proof.
  induction l as [|d l IH]; intros i acc; [simpl; lia|].
  cbn [enumerate fold_left luhn_sum]. rewrite IH. unfold luhn_add.
  rewrite odd_mod2, Nat.odd_succ, <- Nat.negb_odd.
  destruct (Nat.odd i); cbn [negb]; [destruct (9 <? d * 2)|]; lia.
Qed.

Lemma ints_digits s :
  Forall (fun x => digit x = true) s -> ints s = Ret (digit_values s).
Proof.
  induction 1 as [|x s Hx _ IH]; simpl; [reflexivity|].
  unfold int_of_char. unfold digit, Unicode.is_decimal in Hx.
  destruct (Unicode.decimal_value x); [|discriminate].
  simpl. now rewrite IH.
Qed.

Lemma filter_is_digit s :
  Forall (fun x => digit x = true) s -> filter Unicode.is_digit s = s.
Proof.
  induction 1 as [|x s Hx _ IH]; simpl; [reflexivity|].
  now rewrite (is_decimal_is_digit _ Hx), IH.
Qed.

(** On thirteen to nineteen decimal digits [luhn_check] is the Luhn
    checksum of the spec. *)
Lemma luhn_check_digits s :
  Forall (fun x => digit x = true) s -> 13 <= length s <= 19 ->
  luhn_check s = Ret (spec_luhn_valid (digit_values s)).
Proof.
  intros F [Lo Hi]. unfold luhn_check.
  rewrite (filter_is_digit F), (ints_digits F). cbn [bind].
  assert (E : length (digit_values s) = length s)
    by (unfold digit_values; apply length_map).
  rewrite E.
  replace (length s <? 13) with false by (symmetry; apply Nat.ltb_ge; lia).
  replace (19 <? length s) with false by (symmetry; apply Nat.ltb_ge; lia).
  cbn [orb]. rewrite fold_luhn_add. reflexivity.
Qed.

Lemma for_matches_filter f (keep : nat * nat -> bool)
    (g : nat * nat -> Finding) ms :
  (forall m, In m ms -> f m = Ret (if keep m then [g m] else [])) ->
  for_matches f ms = Ret (map g (filter keep ms)).
Proof.
  induction ms as [|m ms IH]; simpl; intros H; [reflexivity|].
  rewrite H by auto. cbn [bind]. rewrite IH by auto. cbn [bind].
  now destruct (keep m).
Qed.

Lemma credit_card_match_digits text ln m :
  In m (finditer (PATTERNS credit_card) text) ->
  Forall (fun x => digit x = true) (normalized text m) /\
  15 <= length (normalized text m) <= 16 /\
  credit_card_match text ln m =
    Ret (if spec_luhn_valid (digit_values (normalized text m))
         then [finding_of credit_card text ln m (normalized text m) high]
         else []).
Proof.
  intros Hm.
  apply finditer_sound in Hm as (pre & w & rest & L & _ & _ & _ & G).
  destruct (credit_card_shape L) as (n & [F Ln] & Hn).
  unfold normalized, credit_card_match. rewrite G, sub_empty_chr.
  rewrite Ln. repeat split; auto; try lia.
  rewrite luhn_check_digits by (auto; lia). cbn [bind].
  now destruct (spec_luhn_valid _).
Qed.

(** *** Payment cards *)

(** [detect_credit_card] never raises: its findings are the matches that
    pass the checksum. *)
Lemma detect_credit_card_passing text ln :
  detect_credit_card text ln =
    Ret (map (fun m => finding_of credit_card text ln m (normalized text m) high)
             (filter (fun m => spec_luhn_valid (digit_values (normalized text m)))
                     (finditer (PATTERNS credit_card) text))).
Proof.
  unfold detect_credit_card. apply for_matches_filter. intros m Hm.
  now destruct (credit_card_match_digits text ln m Hm) as (_ & _ & E).
Qed.

(** *** Telephone numbers *)

Lemma phone_match_filter text ln m :
  phone_match text ln m =
    if (length (phone_normalize (group0 text m)) =? 10) &&
       Unicode.isdigit (phone_normalize (group0 text m)) &&
       negb (startswith (lit "000") (phone_normalize (group0 text m)) ||
             startswith (lit "555") (phone_normalize (group0 text m)))
    then [finding_of phone_us text ln m (phone_normalize (group0 text m)) high]
    else [].
Proof.
  unfold phone_match. destruct (_ && _); [|reflexivity].
  now destruct (_ || _).
Qed.

(** *** Electronic mail *)

(** X2.  The hash of an address is the hash of its lower-case form, so
    test@EXAMPLE.COM and test@example.com are hashed alike. *)
Theorem email_hash_ignores_case :
  (forall text ln f,
      In f (detect_email text ln) ->
      value_hash f = hash_value (Unicode.lower (value f))) /\
  reported (detect_email (lit "test@EXAMPLE.COM") 1)
    = [(0, 16, hash_value (lit "test@example.com"))] /\
  reported (detect_email (lit "test@example.com") 1)
    = [(0, 16, hash_value (lit "test@example.com"))].
Proof.
  split; [|vm_compute; repeat split].
  intros text ln f Hf. unfold detect_email in Hf.
  apply in_flat_map in Hf as (m & _ & Hf). unfold email_match in Hf.
  destruct (_ && _); [|destruct Hf]. now destruct Hf as [<-|[]].
Qed.

(** *** The three validating detectors *)

(** X30.  [detect_ssn], [detect_credit_card] and [detect_phone] report
    the matches of their pattern that pass their test, and no other, in
    the order of the matches.  A match of the SSN pattern is nine decimal
    digits once its separators are removed, and is reported unless these
    start with the characters 000, 666 or 9.  A match of the card pattern
    is fifteen or sixteen decimal digits once its separators are removed,
    and is reported, with confidence high, exactly when they pass the Luhn
    checksum; [detect_credit_card] never raises.  A match of the phone
    pattern is reported when its normalised form is ten characters that
    [str.isdigit] accepts and that start neither with the characters 000
    nor with 555.  The three formats of 123-45-6789 are reported with one
    hash, and so are the three formats of 202 555 1234; the card numbers
    5425233430109903, 374245455400126 and 6011111111111117 are reported,
    the first and the last also in groups of four, and 1234567890123456
    and 1111111111111111 are not. *)
Theorem validators_report_the_passing_matches :
  (forall text ln,
      (forall m, In m (finditer (PATTERNS ssn) text) ->
         length (normalized text m) = 9 /\
         Forall (fun x => digit x = true) (normalized text m)) /\
      detect_ssn text ln =
        map (fun m => finding_of ssn text ln m (normalized text m) high)
            (filter (fun m => negb (ssn_excluded (normalized text m)))
                    (finditer (PATTERNS ssn) text))) /\
  (forall text ln,
      (forall m, In m (finditer (PATTERNS credit_card) text) ->
         15 <= length (normalized text m) <= 16 /\
         Forall (fun x => digit x = true) (normalized text m)) /\
      detect_credit_card text ln =
        Ret (map (fun m => finding_of credit_card text ln m
                             (normalized text m) high)
                 (filter (fun m => spec_luhn_valid
                                     (digit_values (normalized text m)))
                         (finditer (PATTERNS credit_card) text)))) /\
  (forall text ln,
      detect_phone text ln =
        map (fun m => finding_of phone_us text ln m
                        (phone_normalize (group0 text m)) high)
            (filter (fun m =>
                       (length (phone_normalize (group0 text m)) =? 10) &&
                       Unicode.isdigit (phone_normalize (group0 text m)) &&
                       negb (startswith (lit "000")
                               (phone_normalize (group0 text m)) ||
                             startswith (lit "555")
                               (phone_normalize (group0 text m))))
                    (finditer (PATTERNS phone_us) text))) /\
  (reported (detect_ssn (lit "123-45-6789") 1)
     = [(0, 11, hash_value (lit "123456789"))] /\
   reported (detect_ssn (lit "123 45 6789") 1)
     = [(0, 11, hash_value (lit "123456789"))] /\
   reported (detect_ssn (lit "123456789") 1)
     = [(0, 9, hash_value (lit "123456789"))]) /\
  (reported (detect_phone (lit "2025551234") 1)
     = [(0, 10, hash_value (lit "2025551234"))] /\
   reported (detect_phone (lit "(202) 555-1234") 1)
     = [(1, 14, hash_value (lit "2025551234"))] /\
   reported (detect_phone (lit "+1-202-555-1234") 1)
     = [(1, 15, hash_value (lit "2025551234"))]) /\
  (accepts "5425233430109903" "5425233430109903" /\
   accepts "374245455400126" "374245455400126" /\
   accepts "6011111111111117" "6011111111111117" /\
   accepts "5425-2334-3010-9903" "5425233430109903" /\
   accepts "6011 1111 1111 1117" "6011111111111117") /\
  (rejects "1234567890123456" /\ rejects "1111111111111111").
Proof.
  split; [|split; [|split;
    [|unfold accepts, rejects; vm_compute; repeat split]]].
  - intros text ln. split.
    + intros m Hm. destruct (ssn_match_digits text ln m Hm) as (F & L & _).
      auto.
    + unfold detect_ssn. rewrite <- flat_map_filter.
      apply flat_map_ext_in. intros m Hm.
      now destruct (ssn_match_digits text ln m Hm) as (_ & _ & E).
  - intros text ln. split.
    + intros m Hm.
      destruct (credit_card_match_digits text ln m Hm) as (F & L & _). auto.
    + apply detect_credit_card_passing.
  - intros text ln. unfold detect_phone. rewrite <- flat_map_filter.
    apply flat_map_ext_in. intros m _. apply phone_match_filter.
Qed.

End Facts.
End DetectorFacts.

(** ** The context of a finding *)

Module ContextFacts.

Import Re ReSpec ReFacts Detectors DetectorSpec.

(** *** The first and the last character of a match *)

Lemma nullable_sound r w : lang r w -> w = [] -> nullable r = true.
Proof.
  induction 1; simpl; intros E; try discriminate; auto.
  - apply app_eq_nil in E as [E1 E2]. now rewrite IHlang1, IHlang2.
  - now rewrite IHlang.
  - rewrite IHlang; auto. apply orb_true_r.
  - apply app_eq_nil in E as [E1 E2]. rewrite IHlang1; auto. apply orb_true_r.
  - subst w. simpl in H0. apply Nat.eqb_eq. lia.
Qed.





Section Facts.
Context {U : UnicodeDB}.

(** Printable ASCII other than the space is not white space. *)
Lemma printable_not_space x :
  (33 <= x <= 126)%N -> Unicode.is_space x = false.
Proof.
  intros [Lo Hi]. unfold Unicode.is_space, Unicode.latin1, Unicode.in_range.
  replace (x <? 256)%N with true by (symmetry; apply N.ltb_lt; lia).
  repeat rewrite orb_false_iff. repeat split;
    try (apply andb_false_iff;
         (left; apply N.leb_gt; lia) || (right; apply N.leb_gt; lia));
    apply N.eqb_neq; lia.
Qed.

Ltac printable H :=
  apply printable_not_space;
  unfold digit_upper, base64_char, email_local, email_tld, ascii_alnum,
    Unicode.ascii_digit, Unicode.ascii_upper, Unicode.ascii_lower,
    Unicode.in_range, is_ch, char_eqb, ch in H;
  cbn in H;
  repeat rewrite ?orb_true_iff, ?andb_true_iff, ?N.leb_le, ?N.eqb_eq in H;
  lia.

Lemma solid_digit : solid digit.
Proof. exact DetectorFacts.is_decimal_not_space. Qed.

Lemma solid_ch a : (33 <= N_of_ascii a <= 126)%N -> solid (is_ch a).
Proof.
  intros Ha x H. unfold is_ch, char_eqb, ch in H. apply N.eqb_eq in H.
  subst x. now apply printable_not_space.
Qed.

Lemma solid_digit_upper : solid digit_upper.
Proof. intros x H. printable H. Qed.

Lemma solid_base64_char : solid base64_char.
Proof. intros x H. printable H. Qed.

Lemma solid_email_local : solid email_local.
Proof. intros x H. printable H. Qed.

Lemma solid_email_tld : solid email_tld.
Proof. intros x H. printable H. Qed.

Create HintDb solid.

#[local] Hint Resolve solid_digit solid_digit_upper solid_base64_char
  solid_email_local solid_email_tld : solid.

(** No pattern matches the empty string, and each starts and ends with a
    class free of white space. *)
Lemma patterns_solid t :
  nullable (PATTERNS t) = false /\
  Forall solid (heads (PATTERNS t)) /\ Forall solid (lasts (PATTERNS t)).
Proof.
  destruct t; (split; [reflexivity|]);
    cbn [PATTERNS]; unfold pattern_ssn, pattern_credit_card,
      pattern_aws_access_key, pattern_aws_secret_key, pattern_email,
      pattern_phone_us, cat, Times, Opt, D;
    cbn [heads lasts nullable app Nat.eqb orb andb];
    split; repeat constructor; auto with solid;
    apply solid_ch; cbv; split; discriminate.
Qed.



(** *** [get_context] *)



Lemma lstrip_keeps l r x :
  hd_error r = Some x -> Unicode.is_space x = false ->
  exists l', Unicode.lstrip (l ++ r) = l' ++ r /\ length l' <= length l.
Proof.
  intros Hr Hx. induction l as [|c l (l' & E & Le)].
  - exists []. split; [|auto]. destruct r as [|y r]; [discriminate|].
    injection Hr as ->. simpl. now rewrite Hx.
  - simpl. destruct (Unicode.is_space c).
    + exists l'. split; [exact E|]. simpl. lia.
    + exists (c :: l). split; [reflexivity|]. simpl. lia.
Qed.

















End Facts.
End ContextFacts.

(** ** The gates of the streaming reader *)

Module ScannerFacts.

Import Detectors Scanner ScannerSpec.

Section Facts.
Context {U : UnicodeDB}.

(** Empty chunks leave the loop where it started. *)
Lemma scan_chunks_empty chunks :
  concat chunks = [] -> scan_chunks start chunks = (start, None).
Proof.
  induction chunks as [|c chunks IH]; simpl; [reflexivity|].
  intros H. apply app_eq_nil in H as [-> H]. auto.
Qed.

Lemma scan_body_empty cfg body :
  concat (iter_chunks body (CHUNK_SIZE cfg)) = [] -> body_fault body = None ->
  scan_body cfg body = ([], None).
Proof.
  intros Hc Hf. unfold scan_body. fold start.
  rewrite (scan_chunks_empty _ Hc), Hf. reflexivity.
Qed.

(** C5, as the code has it.  A zero-byte object that passes the text gate
    (its key carries a text extension, or the probe of its first 1024
    bytes succeeds) and whose body opens is scanned to completion with no
    finding.  An object larger than the configured maximum is refused as
    too large after the size request alone: neither the probe nor the body
    is requested. *)
Theorem empty_completes_and_oversize_is_refused :
  forall (cfg : Config) (s3 : S3) (bucket key : str),
    (forall body,
        head_object s3 bucket key = Ret 0%N ->
        fst (is_text_file s3 bucket key) = Ret true ->
        get_object s3 bucket key = Ret body ->
        concat (iter_chunks body (CHUNK_SIZE cfg)) = [] ->
        body_fault body = None ->
        fst (scan_file_streaming cfg s3 bucket key) = ([], None)) /\
    (forall size,
        head_object s3 bucket key = Ret size ->
        (MAX_FILE_SIZE cfg < size)%N ->
        scan_file_streaming cfg s3 bucket key =
          (([], Some (lit "File too large: " ++ decimal size ++ lit " bytes")),
           [HeadObject bucket key])).
Proof.
  intros cfg s3 bucket key. split.
  - intros body Hh Ht Hg Hc Hf. unfold scan_file_streaming, get_file_size.
    rewrite Hh.
    replace (MAX_FILE_SIZE cfg <? 0)%N with false
      by (symmetry; apply N.ltb_ge, N.le_0_l).
    destruct (is_text_file s3 bucket key) as [r calls].
    cbn [fst] in Ht. subst r. rewrite Hg. cbn [fst].
    now apply scan_body_empty.
  - intros size Hh Hlt. unfold scan_file_streaming, get_file_size.
    rewrite Hh. apply N.ltb_lt in Hlt. now rewrite Hlt.
Qed.

End Facts.
End ScannerFacts.

(** ** Chunks cut between characters *)

Module StreamingFacts.

Import Re Detectors DetectorSpec Scanner ScannerSpec.

(** Decoding consumes whole characters: two byte strings that decode on
    their own decode together to the concatenation. *)
Lemma utf8_decode_app : forall n a b ta tb,
  length a <= n ->
  utf8_decode a = Some ta -> utf8_decode b = Some tb ->
  utf8_decode (a ++ b) = Some (ta ++ tb).
Proof.
  induction n as [|n IH]; intros a b ta tb Hn Ha Hb.
  - destruct a; [|simpl in Hn; lia]. simpl in *. injection Ha as <-. exact Hb.
  - destruct a as [|b0 r0]; [simpl in *; injection Ha as <-; exact Hb|].
    simpl in Hn.
    assert (Step : forall r c t,
              length r <= n -> option_map (cons c) (utf8_decode r) = Some t ->
              option_map (cons c) (utf8_decode (r ++ b)) = Some (t ++ tb)).
    { intros r c t Hr H. destruct (utf8_decode r) as [t'|] eqn:E; [|discriminate].
      injection H as <-. now rewrite (IH r b t' tb Hr E Hb). }
    cbn [utf8_decode app] in *.
    destruct (b0 <? 128)%N; [apply Step; [lia|exact Ha]|].
    destruct (Unicode.in_range 194 223 b0).
    { destruct r0 as [|b1 r1]; [discriminate|]. cbn [app].
      destruct (continuation b1); [|discriminate].
      apply Step; [simpl in Hn; lia|exact Ha]. }
    destruct (Unicode.in_range 224 239 b0).
    { destruct r0 as [|b1 [|b2 r2]]; try discriminate. cbn [app].
      destruct (_ && _); [|discriminate].
      apply Step; [simpl in Hn; lia|exact Ha]. }
    destruct (Unicode.in_range 240 244 b0); [|discriminate].
    destruct r0 as [|b1 [|b2 [|b3 r3]]]; try discriminate. cbn [app].
    destruct (_ && _ && _); [|discriminate].
    apply Step; [simpl in Hn; lia|exact Ha].
Qed.

Lemma utf8_decode_concat chunks : forall texts,
  Forall2 (fun c t => utf8_decode c = Some t) chunks texts ->
  utf8_decode (concat chunks) = Some (concat texts).
Proof.
  induction 1 as [|c t chunks texts Hc _ IH]; [reflexivity|].
  simpl. eapply utf8_decode_app; eauto.
Qed.

(** *** Lines across chunks *)

Lemma split_not_nil sep s : split sep s <> [].
Proof.
  destruct s as [|x s]; simpl; [discriminate|].
  destruct (char_eqb x sep); [discriminate|].
  destruct (split sep s); discriminate.
Qed.

Lemma split_cons_other sep x s :
  char_eqb x sep = false ->
  exists p ps, split sep s = p :: ps /\ split sep (x :: s) = (x :: p) :: ps.
Proof.
  intros E. simpl. rewrite E.
  destruct (split sep s) as [|p ps] eqn:S;
    [now apply split_not_nil in S|]. eauto.
Qed.

(** Splitting a concatenation: the complete pieces of the first part,
    then the pieces of its last piece continued by the second part. *)
Lemma split_app sep : forall a b,
  split sep (a ++ b) =
    removelast (split sep a) ++ split sep (last (split sep a) [] ++ b).
Proof.
  induction a as [|x a IH]; intros b; [reflexivity|].
  destruct (char_eqb x sep) eqn:E.
  - cbn [app split]. rewrite E, IH.
    destruct (split sep a) as [|p ps] eqn:S;
      [now apply split_not_nil in S|]. reflexivity.
  - destruct (@split_cons_other sep x a E) as (p & ps & S & ->).
    cbn [app]. destruct (@split_cons_other sep x (a ++ b) E) as (q & qs & S' & ->).
    rewrite IH, S in S'.
    destruct ps as [|p' ps].
    + cbn [removelast last app] in *.
      destruct (@split_cons_other sep x (p ++ b) E) as (u & us & Su & ->).
      rewrite Su in S'. now injection S' as <- <-.
    + cbn [removelast last app] in *. now injection S' as <- <-.
Qed.

Lemma last_app_not_nil {A} (l1 l2 : list A) d :
  l2 <> [] -> last (l1 ++ l2) d = last l2 d.
Proof.
  intros H. induction l1 as [|x l1 IH]; [reflexivity|].
  cbn [app last]. rewrite IH.
  destruct (l1 ++ l2) eqn:E; [|reflexivity].
  apply app_eq_nil in E as [_ E]. congruence.
Qed.

(** The piece kept in the buffer holds no separator. *)
Lemma split_single sep s :
  has_char sep s = false -> split sep s = [s].
Proof.
  unfold has_char. induction s as [|x s IH]; [reflexivity|].
  cbn [existsb]. intros H. apply orb_false_iff in H as [H1 H2].
  simpl. unfold char_eqb in *. rewrite N.eqb_sym, H1. now rewrite IH.
Qed.

Lemma split_last_clean sep s : has_char sep (last (split sep s) []) = false.
Proof.
  induction s as [|x s IH]; [reflexivity|].
  destruct (char_eqb x sep) eqn:E.
  - simpl. rewrite E.
    destruct (split sep s) eqn:S; [now apply split_not_nil in S|exact IH].
  - destruct (@split_cons_other sep x s E) as (p & ps & S & ->).
    rewrite S in IH. destruct ps; [|exact IH].
    cbn [last] in *. unfold has_char in *. cbn [existsb].
    unfold char_eqb in *. now rewrite N.eqb_sym, E, IH.
Qed.

Section Facts.
Context {U : UnicodeDB}.

Lemma scan_line_total line n : scan_line line n = Ret (line_findings line n).
Proof.
  unfold scan_line. now rewrite DetectorFacts.detect_credit_card_passing.
Qed.

(** X3.  No line makes [scan_line] raise: the characters [luhn_check]
    converts with [int] are the decimal digits the pattern matched. *)
Theorem scan_line_never_raises :
  forall line n,
    scan_line line n = Ret (line_findings line n) /\
    exists cards,
      detect_credit_card line n = Ret cards /\
      line_findings line n =
        (((detect_ssn line n ++ cards) ++ detect_aws_keys line n) ++
         detect_email line n) ++ detect_phone line n.
Proof.
  intros line n. split; [apply scan_line_total|].
  eexists. split; [apply DetectorFacts.detect_credit_card_passing|reflexivity].
Qed.

Lemma scan_lines_total lines : forall n fs,
  scan_lines lines n fs
  = (n + length lines, fs ++ lines_findings n lines, None).
Proof.
  induction lines as [|line lines IH]; intros n fs; simpl.
  - now rewrite Nat.add_0_r, app_nil_r.
  - rewrite scan_line_total, IH, <- app_assoc.
    replace (n + 1 + length lines) with (n + S (length lines)) by lia.
    reflexivity.
Qed.

Lemma lines_findings_app l1 : forall n l2,
  lines_findings n (l1 ++ l2)
  = lines_findings n l1 ++ lines_findings (n + length l1) l2.
Proof.
  induction l1 as [|x l1 IH]; intros n l2; simpl.
  - now rewrite Nat.add_0_r.
  - rewrite IH, <- app_assoc.
    replace (n + 1 + length l1) with (n + S (length l1)) by lia.
    reflexivity.
Qed.

Lemma scan_chunk_feed st chunk text :
  utf8_decode chunk = Some text -> scan_chunk st chunk = (feed st text, None).
Proof.
  intros H. unfold scan_chunk, decode_chunk. rewrite H.
  now rewrite scan_lines_total.
Qed.

Lemma feed_feed st t1 t2 : feed (feed st t1) t2 = feed st (t1 ++ t2).
Proof.
  unfold feed. cbn [buffer line_number findings].
  rewrite (app_assoc (buffer st) t1 t2), (split_app newline (buffer st ++ t1) t2).
  set (X := split newline (buffer st ++ t1)).
  set (Y := split newline (last X [] ++ t2)).
  assert (HY : Y <> []) by apply split_not_nil.
  rewrite removelast_app by exact HY.
  rewrite last_app_not_nil by exact HY.
  rewrite lines_findings_app, !length_app, <- !app_assoc.
  f_equal. lia.
Qed.

Lemma feed_nil st : has_char newline (buffer st) = false -> feed st [] = st.
Proof.
  intros H. unfold feed. rewrite app_nil_r, (split_single _ _ H).
  destruct st. cbn. now rewrite Nat.add_0_r, app_nil_r.
Qed.

Lemma feed_clean st text : has_char newline (buffer (feed st text)) = false.
Proof. unfold feed. cbn [buffer]. apply split_last_clean. Qed.

Lemma scan_chunks_feed chunks : forall texts st,
  Forall2 (fun c t => utf8_decode c = Some t) chunks texts ->
  has_char newline (buffer st) = false ->
  scan_chunks st chunks = (feed st (concat texts), None).
Proof.
  induction chunks as [|c chunks IH]; intros texts st F Hst;
    inversion F as [|? t ? texts' Hc F']; subst; simpl.
  - now rewrite feed_nil.
  - rewrite (@scan_chunk_feed st c t Hc).
    rewrite (IH texts' (feed st t) F' (feed_clean st t)).
    now rewrite feed_feed.
Qed.

Lemma decoded_chunks chunks :
  Forall (fun c => utf8_decode c <> None) chunks ->
  exists texts, Forall2 (fun c t => utf8_decode c = Some t) chunks texts.
Proof.
  induction 1 as [|c chunks Hc _ (texts & IH)]; [exists []; constructor|].
  destruct (utf8_decode c) as [t|] eqn:E; [|congruence].
  exists (t :: texts). now constructor.
Qed.

(** X1.  The streaming reader on chunks cut between characters.  When every
    chunk is valid UTF-8 on its own, the scan of the chunks is the scan of
    their concatenation delivered as one chunk: same findings, line
    numbers, columns and hashes, same outcome.  In particular content cut
    in two at an offset that leaves both parts valid, a line boundary
    included, is scanned as the whole. *)
Theorem chunks_cut_between_characters_scan_alike :
  forall (cfg : Config) (chunks : list bytes) (fault : option exn),
    Forall (fun c => utf8_decode c <> None) chunks ->
    scan_body cfg (yielding chunks fault)
    = scan_body cfg (yielding [concat chunks] fault) /\
    (forall content k,
        chunks = [firstn k content; skipn k content] ->
        scan_body cfg (yielding chunks fault)
        = scan_body cfg (yielding [content] fault)).
Proof.
  intros cfg chunks fault H.
  assert (E : scan_body cfg (yielding chunks fault)
            = scan_body cfg (yielding [concat chunks] fault)).
  { destruct (decoded_chunks H) as (texts & F).
    unfold scan_body, yielding. cbn [iter_chunks body_fault].
    rewrite (@scan_chunks_feed chunks texts
               {| line_number := 0; buffer := []; findings := [] |} F eq_refl).
    assert (F1 : Forall2 (fun c t => utf8_decode c = Some t)
                   [concat chunks] [concat texts])
      by (repeat constructor; now apply utf8_decode_concat).
    rewrite (@scan_chunks_feed [concat chunks] [concat texts]
               {| line_number := 0; buffer := []; findings := [] |} F1 eq_refl).
    cbn [concat]. now rewrite app_nil_r. }
  split; [exact E|].
  intros content k ->. rewrite E. cbn [concat].
  now rewrite app_nil_r, firstn_skipn.
Qed.

End Facts.
End StreamingFacts.

(** ** Persistence of findings *)

Module DatabaseFacts.

Import Detectors Database DatabaseSpec PyFacts.

Lemma finding_type_eqb_eq a b : finding_type_eqb a b = true <-> a = b.
Proof. destruct a, b; simpl; split; congruence. Qed.

(** Two rows conflict exactly when they agree on the five columns of the
    constraint. *)
Lemma conflicts_iff a b :
  conflicts a b = true <->
  f_object_id a = f_object_id b /\ f_finding_type a = f_finding_type b /\
  f_line_number a = f_line_number b /\ f_column_start a = f_column_start b /\
  f_value_hash a = f_value_hash b.
Proof.
  unfold conflicts. rewrite !andb_true_iff, N.eqb_eq, finding_type_eqb_eq,
    !Nat.eqb_eq, str_eqb_eq. tauto.
Qed.

Lemma conflicts_refl a : conflicts a a = true.
Proof. apply conflicts_iff; auto. Qed.

Lemma conflicts_sym a b : conflicts a b = conflicts b a.
Proof.
  destruct (conflicts a b) eqn:E1, (conflicts b a) eqn:E2; auto.
  - apply conflicts_iff in E1. rewrite <- E2. symmetry.
    apply conflicts_iff. intuition congruence.
  - apply conflicts_iff in E2. rewrite <- E1.
    apply conflicts_iff. intuition congruence.
Qed.

Lemma conflicts_trans a b c :
  conflicts a b = true -> conflicts b c = true -> conflicts a c = true.
Proof. rewrite !conflicts_iff. intuition congruence. Qed.

Lemma unique_snoc table row :
  unique_finding table -> existsb (conflicts row) table = false ->
  unique_finding (table ++ [row]).
Proof.
  unfold unique_finding. induction 1 as [|a l Ha Hl IH]; simpl; intros E.
  - repeat constructor.
  - apply orb_false_iff in E as [E1 E2]. constructor; auto.
    apply Forall_app; split; auto. constructor; auto.
    now rewrite conflicts_sym.
Qed.

Lemma insert_or_ignore_unique table row :
  unique_finding table -> unique_finding (insert_or_ignore table row).
Proof.
  unfold insert_or_ignore. destruct (existsb _ _) eqn:E; auto.
  intros; now apply unique_snoc.
Qed.

Lemma insert_unique rows : forall table,
  unique_finding table ->
  unique_finding (insert_on_conflict_do_nothing table rows).
Proof.
  unfold insert_on_conflict_do_nothing.
  induction rows as [|r rows IH]; simpl; auto.
  intros; apply IH; now apply insert_or_ignore_unique.
Qed.

(** A key that is taken stays taken. *)
Lemma insert_or_ignore_keeps table row r :
  existsb (conflicts r) table = true ->
  existsb (conflicts r) (insert_or_ignore table row) = true.
Proof.
  unfold insert_or_ignore. destruct (existsb (conflicts row) table); auto.
  intros H. rewrite existsb_app, H. reflexivity.
Qed.

Lemma insert_keeps rows : forall table r,
  existsb (conflicts r) table = true ->
  existsb (conflicts r) (insert_on_conflict_do_nothing table rows) = true.
Proof.
  unfold insert_on_conflict_do_nothing.
  induction rows as [|x rows IH]; simpl; auto.
  intros; apply IH; now apply insert_or_ignore_keeps.
Qed.

Lemma insert_or_ignore_taken table row :
  existsb (conflicts row) (insert_or_ignore table row) = true.
Proof.
  unfold insert_or_ignore. destruct (existsb (conflicts row) table) eqn:E; auto.
  rewrite existsb_app. simpl. rewrite conflicts_refl.
  now rewrite orb_true_r.
Qed.

(** After the statement every supplied key is in the table. *)
Lemma insert_covers rows : forall table r,
  In r rows ->
  existsb (conflicts r) (insert_on_conflict_do_nothing table rows) = true.
Proof.
  unfold insert_on_conflict_do_nothing.
  induction rows as [|x rows IH]; simpl; [tauto|].
  intros table r [->|Hr]; auto.
  apply insert_keeps, insert_or_ignore_taken.
Qed.

(** A statement all of whose keys are taken changes nothing. *)
Lemma insert_all_taken rows : forall table,
  (forall r, In r rows -> existsb (conflicts r) table = true) ->
  insert_on_conflict_do_nothing table rows = table.
Proof.
  unfold insert_on_conflict_do_nothing.
  induction rows as [|x rows IH]; simpl; auto.
  intros table H. unfold insert_or_ignore at 2.
  rewrite (H x) by auto. apply IH; auto.
Qed.

(** The table only grows, and by rows of the statement. *)
Lemma insert_grows rows : forall table,
  exists added,
    insert_on_conflict_do_nothing table rows = table ++ added /\
    incl added rows.
Proof.
  unfold insert_on_conflict_do_nothing.
  induction rows as [|x rows IH]; simpl; intros table.
  - exists []. now rewrite app_nil_r.
  - destruct (IH (insert_or_ignore table x)) as (added & E & I).
    unfold insert_or_ignore in *. destruct (existsb (conflicts x) table).
    + exists added; split; auto. now apply incl_tl.
    + exists (x :: added). rewrite E, <- app_assoc. split; auto.
      apply incl_cons; [now left | now apply incl_tl].
Qed.

Lemma insert_twice table rows :
  insert_on_conflict_do_nothing (insert_on_conflict_do_nothing table rows) rows
  = insert_on_conflict_do_nothing table rows.
Proof. apply insert_all_taken. intros; now apply insert_covers. Qed.

(** C8.  Persisting the same findings list twice stores exactly the rows
    that persisting it once stores (hence as many): the second statement
    finds every key taken and is ignored row by row.  The rows stay unique
    on (object_id, finding_type, line_number, column_start, value_hash),
    and a row whose key is already in the table is not inserted. *)
Theorem bulk_insert_findings_idempotent :
  forall (db_fault : DbOp -> option exn) (s s1 : DB) (rows : list FindingRow),
    bulk_insert_findings db_fault s rows = Ret s1 ->
    bulk_insert_findings db_fault s1 rows = Ret s1 /\
    (forall s2, bulk_insert_findings db_fault s1 rows = Ret s2 ->
                length (findings s2) = length (findings s1)) /\
    (unique_finding (findings s) -> unique_finding (findings s1)) /\
    (forall row table, existsb (conflicts row) table = true ->
                       insert_or_ignore table row = table).
Proof.
  intros fault s s1 rows H.
  assert (Hs1 : rows = [] /\ s1 = s \/
                fault OpInsert = None /\
                s1 = {| job_objects := job_objects s;
                        findings := insert_on_conflict_do_nothing (findings s) rows |}).
  { unfold bulk_insert_findings in H. destruct rows as [|r rows].
    - left. split; congruence.
    - right. destruct (fault OpInsert); [discriminate|]. split; congruence. }
  assert (Hidem : bulk_insert_findings fault s1 rows = Ret s1).
  { destruct Hs1 as [[-> ->]|[Hf ->]]; [reflexivity|].
    unfold bulk_insert_findings. destruct rows as [|r rows]; [reflexivity|].
    rewrite Hf. cbn [findings job_objects]. now rewrite insert_twice. }
  split; [exact Hidem|]. split; [|split].
  - intros s2 H2. rewrite Hidem in H2. now injection H2 as <-.
  - intros Hu. destruct Hs1 as [[-> ->]|[Hf ->]]; auto.
    cbn [findings]. now apply insert_unique.
  - intros row table E. unfold insert_or_ignore. now rewrite E.
Qed.

End DatabaseFacts.

(** ** The per-message state machine *)

Module WorkerFacts.

Import Detectors Scanner Database Worker.

Section Facts.
Context {U : UnicodeDB}.

(** Every error message of the scanner is a non-empty string, so the
    worker's test [if error_message:] tells a failed scan from a completed
    one. *)
Lemma scan_body_error_nonempty cfg body fs reason :
  scan_body cfg body = (fs, Some reason) -> reason <> [].
Proof.
  unfold scan_body.
  destruct (scan_chunks _ _) as [st [e|]].
  - intros H; injection H as _ <-. destruct e; discriminate.
  - destruct (body_fault body) as [e|].
    + intros H; injection H as _ <-. destruct e; discriminate.
    + destruct (buffer st); [discriminate|].
      destruct (scan_line _ _); [discriminate|].
      intros H; injection H as _ <-. destruct e; discriminate.
Qed.

Lemma scan_file_error_nonempty cfg s3 bucket key fs reason calls :
  scan_file cfg s3 bucket key = (fs, Some reason, calls) -> reason <> [].
Proof.
  unfold scan_file, scan_file_streaming.
  destruct (get_file_size s3 bucket key) as [[size|]|e].
  - destruct (_ <? _)%N.
    + intros H; injection H as _ <- _. discriminate.
    + destruct (is_text_file s3 bucket key) as [[[|]|e] c].
      * destruct (get_object s3 bucket key) as [body|e].
        -- intros H. injection H as H _.
           eapply scan_body_error_nonempty; eauto.
        -- intros H; injection H as _ <- _. destruct e; discriminate.
      * intros H; injection H as _ <- _. discriminate.
      * intros H; injection H as _ <- _. destruct e; discriminate.
  - intros H; injection H as _ <- _. discriminate.
  - intros H; injection H as _ <- _. destruct e; discriminate.
Qed.

Lemma truthy_nonempty reason : reason <> [] -> truthy (Some reason) = true.
Proof. destruct reason; [congruence|reflexivity]. Qed.

Lemma first_by_id_store s id f obj :
  (forall o, object_id (f o) = object_id o) ->
  first_by_id s id = Some obj ->
  first_by_id (store s id f) id = Some (f obj).
Proof.
  intros Hf. unfold first_by_id, store. cbn [job_objects].
  induction (job_objects s) as [|o l IH]; simpl; [discriminate|].
  destruct (N.eqb (object_id o) id) eqn:E.
  - intros H; injection H as <-. now rewrite Hf, E.
  - rewrite E. auto.
Qed.

Lemma first_by_id_findings s rows id :
  first_by_id {| job_objects := job_objects s; findings := rows |} id
  = first_by_id s id.
Proof. reflexivity. Qed.

Lemma set_status_id now st msg o :
  object_id (set_status now st msg o) = object_id o.
Proof. reflexivity. Qed.

(** [update_object_status] on a row that exists. *)
Lemma update_object_status_found fault now s id st msg obj :
  first_by_id s id = Some obj ->
  update_object_status fault now s id st msg =
    match fault (OpUpdate st) with
    | Some e => Exn e
    | None => Ret (store s id (set_status now st msg))
    end.
Proof.
  intros H. unfold update_object_status. now rewrite H.
Qed.

Variable env : Env.

Let mark (st : Status) (msg : option str) (s : DB) (id : N) : DB :=
  store s id (set_status (utcnow env) st msg).

(** The run of [process_message] on a well-formed message whose object is
    in the database, phase by phase. *)
Lemma process_message_found message w data obj obj0 :
  parse_message (Body message) = Some data ->
  get_object_by_job_and_key (db_fault env) (db w)
    (field (lit "job_id") data) (field (lit "s3_key") data) = Some obj ->
  first_by_id (db w) (object_id obj) = Some obj0 ->
  process_message env message w =
    match db_fault env (OpUpdate scanning), db_fault env (OpCommit 1) with
    | Some e, _ => (w, Logged e)
    | None, Some e => (w, Logged e)
    | None, None =>
        let id := object_id obj in
        let w1 := {| db := mark scanning None (db w) id;
                     sqs_calls := sqs_calls w |} in
        let '(fs, error_message_, _) :=
          scan_file (config env) (s3 env) (field (lit "s3_bucket") data)
                    (field (lit "s3_key") data) in
        match get_session env 2
                (write_results env id (field (lit "job_id") data) fs
                               error_message_) w1 with
        | (Exn e, w2) => (w2, Logged e)
        | (Ret _, w2) =>
            match delete_message env (ReceiptHandle message) w2 with
            | (Ret _, w3) => (w3, Returned)
            | (Exn e, w3) => (w3, Logged e)
            end
        end
    end.
Proof.
  intros Hp Hl H0. unfold process_message. rewrite Hp.
  unfold get_session at 1. unfold resolve_and_mark. rewrite Hl.
  unfold mark_object_scanning.
  erewrite update_object_status_found by eassumption.
  destruct (db_fault env (OpUpdate scanning)); [destruct w; reflexivity|].
  destruct (db_fault env (OpCommit 1)); [destruct w; reflexivity|].
  reflexivity.
Qed.

(** The second session when the scan failed. *)
Lemma write_results_failed id job fs reason w1 obj1 :
  reason <> [] ->
  first_by_id (db w1) id = Some obj1 ->
  get_session env 2 (write_results env id job fs (Some reason)) w1 =
    match db_fault env (OpUpdate failed), db_fault env (OpCommit 2) with
    | Some e, _ => (Exn e, w1)
    | None, Some e => (Exn e, w1)
    | None, None =>
        (Ret tt, {| db := mark failed (Some reason) (db w1) id;
                    sqs_calls := sqs_calls w1 |})
    end.
Proof.
  intros Hr H1. unfold get_session, write_results.
  rewrite (truthy_nonempty Hr). unfold mark_object_failed.
  erewrite update_object_status_found by eassumption.
  destruct (db_fault env (OpUpdate failed)); [reflexivity|].
  destruct (db_fault env (OpCommit 2)); reflexivity.
Qed.

(** The second session when the scan completed. *)
Lemma write_results_completed id job fs w1 obj1 :
  first_by_id (db w1) id = Some obj1 ->
  get_session env 2 (write_results env id job fs None) w1 =
    match (match fs with [] => None | _ => db_fault env OpInsert end),
          db_fault env (OpUpdate completed), db_fault env (OpCommit 2) with
    | Some e, _, _ => (Exn e, w1)
    | None, Some e, _ => (Exn e, w1)
    | None, None, Some e => (Exn e, w1)
    | None, None, None =>
        (Ret tt,
         {| db := mark completed None
                    {| job_objects := job_objects (db w1);
                       findings :=
                         insert_on_conflict_do_nothing
                           (findings (db w1)) (findings_data id job fs) |} id;
            sqs_calls := sqs_calls w1 |})
    end.
Proof.
  intros H1. unfold get_session, write_results. cbn [truthy].
  unfold mark_object_completed.
  destruct fs as [|f fs].
  - erewrite update_object_status_found by eassumption.
    destruct (db_fault env (OpUpdate completed)); [reflexivity|].
    destruct (db_fault env (OpCommit 2)); [reflexivity|].
    destruct w1 as [[objs fnd] calls]; reflexivity.
  - unfold bulk_insert_findings. cbn [findings_data map].
    destruct (db_fault env OpInsert); [reflexivity|].
    erewrite update_object_status_found by eassumption.
    destruct (db_fault env (OpUpdate completed)); [reflexivity|].
    destruct (db_fault env (OpCommit 2)); reflexivity.
Qed.

(** C10.  Every status update of a row that exists adds one to [attempts],
    whatever the target status, and sets [scanned_at] to the clock exactly
    for the targets [completed] and [failed] (to null otherwise); a message
    processed to completion therefore leaves [attempts] two higher: one
    for [scanning], one for [completed]. *)
Theorem update_object_status_counts_every_transition :
  (forall fault now s id st msg obj,
      first_by_id s id = Some obj ->
      fault (OpUpdate st) = None ->
      exists s' obj',
        update_object_status fault now s id st msg = Ret s' /\
        first_by_id s' id = Some obj' /\
        status obj' = st /\
        attempts obj' = attempts obj + 1 /\
        scanned_at obj' =
          match st with
          | completed | failed => Some now
          | pending | scanning | skipped => None
          end) /\
  (forall message w w' data obj fs calls,
      parse_message (Body message) = Some data ->
      get_object_by_job_and_key (db_fault env) (db w)
        (field (lit "job_id") data) (field (lit "s3_key") data) = Some obj ->
      first_by_id (db w) (object_id obj) = Some obj ->
      scan_file (config env) (s3 env) (field (lit "s3_bucket") data)
                (field (lit "s3_key") data) = (fs, None, calls) ->
      process_message env message w = (w', Returned) ->
      exists obj',
        first_by_id (db w') (object_id obj) = Some obj' /\
        status obj' = completed /\
        attempts obj' = attempts obj + 2 /\
        scanned_at obj' = Some (utcnow env)).
Proof.
  split.
  - intros fault now s id st msg obj H Hf.
    exists (store s id (set_status now st msg)), (set_status now st msg obj).
    erewrite update_object_status_found by eassumption. rewrite Hf.
    split; [reflexivity|]. split; [now apply first_by_id_store|].
    destruct st; repeat split.
  - intros message w w' data obj fs calls Hp Hl H0 Hs Hrun.
    erewrite process_message_found in Hrun by eassumption.
    destruct (db_fault env (OpUpdate scanning)); [discriminate|].
    destruct (db_fault env (OpCommit 1)); [discriminate|].
    cbv zeta in Hrun. rewrite Hs in Hrun.
    erewrite write_results_completed in Hrun
      by (cbn [db]; apply first_by_id_store; [reflexivity|eassumption]).
    destruct (match fs with [] => None | _ => db_fault env OpInsert end);
      [discriminate|].
    destruct (db_fault env (OpUpdate completed)); [discriminate|].
    destruct (db_fault env (OpCommit 2)); [discriminate|].
    unfold delete_message in Hrun. cbn [db sqs_calls] in Hrun.
    assert (Hdb : db w' =
              mark completed None
                {| job_objects := job_objects (mark scanning None (db w) (object_id obj));
                   findings := insert_on_conflict_do_nothing (findings (db w))
                                 (findings_data (object_id obj)
                                    (field (lit "job_id") data) fs) |}
                (object_id obj)).
    { destruct (sqs_delete env (ReceiptHandle message)) as [u|[m|m|m|m]];
        try discriminate; injection Hrun as <-; reflexivity. }
    rewrite Hdb.
    eexists. split.
    + apply first_by_id_store; [reflexivity|].
      rewrite first_by_id_findings.
      apply first_by_id_store; [reflexivity|eassumption].
    + cbn. repeat split. lia.
Qed.

(** C6.  When the scan of a processed message ends with an error message
    (a failed or skipped file), the row goes to [failed] with that message
    as [error_message] and [attempts] raised once more (twice in all, the
    transition to [scanning] included), no finding is stored, and the
    deletion of the queue message is requested. *)
Theorem failed_scan_is_recorded_and_acknowledged :
  forall message w w' data obj fs reason calls,
    parse_message (Body message) = Some data ->
    get_object_by_job_and_key (db_fault env) (db w)
      (field (lit "job_id") data) (field (lit "s3_key") data) = Some obj ->
    first_by_id (db w) (object_id obj) = Some obj ->
    scan_file (config env) (s3 env) (field (lit "s3_bucket") data)
              (field (lit "s3_key") data) = (fs, Some reason, calls) ->
    process_message env message w = (w', Returned) ->
    (exists obj',
        first_by_id (db w') (object_id obj) = Some obj' /\
        status obj' = failed /\
        error_message obj' = Some reason /\
        attempts obj' = attempts obj + 2 /\
        scanned_at obj' = Some (utcnow env)) /\
    findings (db w') = findings (db w) /\
    sqs_calls w' = sqs_calls w ++ [DeleteMessage (ReceiptHandle message)].
Proof.
  intros message w w' data obj fs reason calls Hp Hl H0 Hs Hrun.
  pose proof (scan_file_error_nonempty _ _ _ _ Hs) as Hne.
  erewrite process_message_found in Hrun by eassumption.
  destruct (db_fault env (OpUpdate scanning)); [discriminate|].
  destruct (db_fault env (OpCommit 1)); [discriminate|].
  cbv zeta in Hrun. rewrite Hs in Hrun.
  erewrite write_results_failed in Hrun
    by first [assumption
             |cbn [db]; apply first_by_id_store; [reflexivity|eassumption]].
  destruct (db_fault env (OpUpdate failed)); [discriminate|].
  destruct (db_fault env (OpCommit 2)); [discriminate|].
  unfold delete_message in Hrun. cbn [db sqs_calls] in Hrun.
  assert (Hw : w' =
            {| db := mark failed (Some reason)
                       (mark scanning None (db w) (object_id obj))
                       (object_id obj);
               sqs_calls := sqs_calls w ++ [DeleteMessage (ReceiptHandle message)] |}).
  { destruct (sqs_delete env (ReceiptHandle message)) as [u|[m|m|m|m]];
      try discriminate; injection Hrun as <-; reflexivity. }
  rewrite Hw. cbn [db sqs_calls]. split; [|split; reflexivity].
  eexists. split.
  - apply first_by_id_store; [reflexivity|].
    apply first_by_id_store; [reflexivity|eassumption].
  - destruct reason; [congruence|]. cbn. repeat split. lia.
Qed.

(** C7, as the code has it.  When the transition to [scanning] was
    committed and an exception is then raised before the acknowledge call
    (that is, while the results are written), no deletion of the queue
    message is requested, and the row is left in [scanning] with nothing
    else stored: the second session is rolled back. *)
Theorem exception_before_acknowledge_leaves_scanning :
  forall message w w' data obj e,
    parse_message (Body message) = Some data ->
    get_object_by_job_and_key (db_fault env) (db w)
      (field (lit "job_id") data) (field (lit "s3_key") data) = Some obj ->
    first_by_id (db w) (object_id obj) = Some obj ->
    db_fault env (OpUpdate scanning) = None ->
    db_fault env (OpCommit 1) = None ->
    (forall e', sqs_delete env (ReceiptHandle message) = Exn e' ->
                exists m, e' = ClientError m) ->
    process_message env message w = (w', Logged e) ->
    sqs_calls w' = sqs_calls w /\
    findings (db w') = findings (db w) /\
    exists obj',
      first_by_id (db w') (object_id obj) = Some obj' /\
      status obj' = scanning /\
      attempts obj' = attempts obj + 1 /\
      scanned_at obj' = None.
Proof.
  intros message w w' data obj e Hp Hl H0 Hu Hc Hdel Hrun.
  erewrite process_message_found in Hrun by eassumption.
  rewrite Hu, Hc in Hrun. cbv zeta in Hrun.
  destruct (scan_file _ _ _ _) as [[fs err] calls] eqn:Hs.
  assert (H1 : first_by_id (mark scanning None (db w) (object_id obj))
                 (object_id obj)
               = Some (set_status (utcnow env) scanning None obj))
    by (apply first_by_id_store; [reflexivity|eassumption]).
  assert (Hw : w' = {| db := mark scanning None (db w) (object_id obj);
                       sqs_calls := sqs_calls w |}).
  { destruct err as [reason|].
    - pose proof (scan_file_error_nonempty _ _ _ _ Hs) as Hne.
      erewrite write_results_failed in Hrun by first [assumption|exact H1].
      destruct (db_fault env (OpUpdate failed)); [congruence|].
      destruct (db_fault env (OpCommit 2)); [congruence|].
      unfold delete_message in Hrun.
      destruct (sqs_delete env (ReceiptHandle message)) as [u|e'] eqn:Hd;
        [discriminate|].
      destruct (Hdel _ eq_refl) as [m ->]. discriminate.
    - erewrite write_results_completed in Hrun by (exact H1).
      destruct (match fs with [] => None | _ => db_fault env OpInsert end);
        [congruence|].
      destruct (db_fault env (OpUpdate completed)); [congruence|].
      destruct (db_fault env (OpCommit 2)); [congruence|].
      unfold delete_message in Hrun.
      destruct (sqs_delete env (ReceiptHandle message)) as [u|e'] eqn:Hd;
        [discriminate|].
      destruct (Hdel _ eq_refl) as [m ->]. discriminate. }
  rewrite Hw. cbn [db sqs_calls]. split; [reflexivity|]. split; [reflexivity|].
  eexists. split; [exact H1|]. cbn. repeat split; lia.
Qed.

End Facts.
End WorkerFacts.


(** ** The stored hash *)

Module HashFacts.

Import Sha256 Detectors HashSpec.

Local Open Scope N_scope.

Lemma land_byte x : N.land x 0xFF < 256.
Proof.
  change 0xFF with (N.ones 8). rewrite N.land_ones.
  apply N.mod_upper_bound. discriminate.
Qed.

Lemma be_bytes_shape n x :
  length (be_bytes n x) = n /\ Forall (fun b => b < 256) (be_bytes n x).
Proof.
  induction n as [|n [IH1 IH2]]; simpl; [split; [reflexivity|constructor]|].
  split; [now rewrite IH1|]. constructor; [apply land_byte|exact IH2].
Qed.

Lemma round_length st k : length (fst (round st k)) = 8%nat.
Proof. destruct st as [v w]. reflexivity. Qed.

Lemma rounds_length ks : ks <> [] ->
  forall st, length (fst (fold_left round ks st)) = 8%nat.
Proof.
  intros Hks st. rewrite (app_removelast_last 0 Hks), fold_left_app.
  apply round_length.
Qed.

Lemma compress_length h block :
  length h = 8%nat -> length (compress h block) = 8%nat.
Proof.
  intros Hh. unfold compress.
  pose proof (@rounds_length K ltac:(discriminate)
                (h, map be_word (chunks 16 4 block))) as L.
  destruct (fold_left round K _) as [v w]. cbn [fst] in L.
  rewrite length_map, length_combine, Hh, L. reflexivity.
Qed.

Lemma fold_left_invariant {A B} (f : A -> B -> A) (P : A -> Prop) :
  (forall a b, P a -> P (f a b)) ->
  forall l a, P a -> P (fold_left f l a).
Proof.
  intros Hf. induction l as [|b l IH]; intros a Ha; simpl; auto.
Qed.

(** The hash value stays eight words long, block after block. *)
Lemma blocks_length blocks h :
  length h = 8%nat -> length (fold_left compress blocks h) = 8%nat.
Proof.
  apply (fold_left_invariant compress (fun h => length h = 8%nat)).
  intros a b. apply compress_length.
Qed.

Lemma words_shape (l : list N) :
  length (flat_map (be_bytes 4) l) = (4 * length l)%nat /\
  Forall (fun b => b < 256) (flat_map (be_bytes 4) l).
Proof.
  induction l as [|x l [IH1 IH2]]; [split; [reflexivity|constructor]|].
  cbn [flat_map]. destruct (be_bytes_shape 4 x) as [B1 B2]. split.
  - rewrite length_app, B1, IH1. cbn [length]. lia.
  - apply Forall_app. auto.
Qed.

(** The digest is 32 bytes. *)
Lemma digest_shape msg :
  length (digest msg) = 32%nat /\ Forall (fun b => b < 256) (digest msg).
Proof.
  unfold digest.
  assert (L : length (fold_left compress
                        (chunks (length (pad msg) / 64) 64 (pad msg)) H0) = 8%nat)
    by (apply blocks_length; reflexivity).
  destruct (words_shape (fold_left compress
                           (chunks (length (pad msg) / 64) 64 (pad msg)) H0))
    as [G1 G2].
  rewrite L in G1. auto.
Qed.

Lemma hex_digit_hex n : n < 16 -> hex_char (hex_digit n) = true.
Proof.
  intros H. unfold hex_digit, hex_char, Unicode.in_range.
  destruct (N.ltb_spec n 10).
  - replace (48 <=? 48 + n) with true by (symmetry; apply N.leb_le; lia).
    replace (48 + n <=? 57) with true by (symmetry; apply N.leb_le; lia).
    reflexivity.
  - replace (97 <=? 87 + n) with true by (symmetry; apply N.leb_le; lia).
    replace (87 + n <=? 102) with true by (symmetry; apply N.leb_le; lia).
    apply orb_true_r.
Qed.

Lemma nibbles b : b < 256 -> N.shiftr b 4 < 16 /\ N.land b 0xF < 16.
Proof.
  intros H. split.
  - rewrite N.shiftr_div_pow2. change (2 ^ 4) with 16.
    apply N.Div0.div_lt_upper_bound. lia.
  - change 0xF with (N.ones 4). rewrite N.land_ones.
    apply N.mod_upper_bound. discriminate.
Qed.

Lemma hex_pairs (l : list N) :
  Forall (fun b => b < 256) l ->
  length (flat_map (fun b => [hex_digit (N.shiftr b 4);
                              hex_digit (N.land b 0xF)]) l)
    = (2 * length l)%nat /\
  forallb hex_char
    (flat_map (fun b => [hex_digit (N.shiftr b 4);
                         hex_digit (N.land b 0xF)]) l) = true.
Proof.
  induction 1 as [|b l Hb _ [IH1 IH2]]; [split; reflexivity|].
  destruct (nibbles Hb) as [N1 N2].
  cbn [flat_map app length forallb]. rewrite IH1, IH2.
  rewrite !hex_digit_hex by assumption. split; [lia|reflexivity].
Qed.

(** X4.  For every value that [str.encode('utf-8')] accepts, that is,
    every string without a surrogate, [hash_value] returns 64 characters,
    each a digit or a letter from a to f: the hash fills the 64 characters
    of the column [value_hash] and never exceeds them. *)
Theorem value_hash_is_64_hex_digits :
  forall value : str,
    Codec.encodable value = true ->
    length (hash_value value) = 64%nat /\
    forallb hex_char (hash_value value) = true.
Proof.
  intros value _. unfold hash_value, hexdigest.
  destruct (digest_shape (Codec.utf8_encode value)) as [L F].
  destruct (hex_pairs F) as [P1 P2]. rewrite L in P1. auto.
Qed.

End HashFacts.

(** ** [luhn_check] on its own *)

Module LuhnFacts.

Import Re ReSpec Detectors DetectorSpec DetectorFacts LuhnSpec.

Lemma luhn_sum_cons b d ds :
  luhn_sum b (d :: ds) = luhn_term b d + luhn_sum (negb b) ds.
Proof. reflexivity. Qed.

Lemma luhn_sum_app a : forall b c,
  luhn_sum b (a ++ c) = luhn_sum b a + luhn_sum (xorb b (Nat.odd (length a))) c.
Proof.
  induction a as [|d a IH]; intros b c.
  - simpl. now rewrite xorb_false_r.
  - cbn [app length]. rewrite !luhn_sum_cons, IH, Nat.odd_succ, <- Nat.negb_odd.
    rewrite Nat.add_assoc. do 2 f_equal.
    now destruct b, (Nat.odd (length a)).
Qed.

(** On the digits 0 to 9 the term tells the digit. *)
Lemma luhn_term_injective b x y :
  x < 10 -> y < 10 -> luhn_term b x = luhn_term b y -> x = y.
Proof.
  unfold luhn_term. intros Hx Hy.
  destruct b; [|auto].
  destruct (Nat.ltb_spec 9 (x * 2)), (Nat.ltb_spec 9 (y * 2)); lia.
Qed.

Lemma luhn_term_small b x : x < 10 -> luhn_term b x < 10.
Proof.
  unfold luhn_term. intros Hx. destruct b; [|auto].
  destruct (Nat.ltb_spec 9 (x * 2)); lia.
Qed.

Section Facts.
Context {U : UnicodeDB}.

(** [ints] stops at the first character without a decimal value. *)
Lemma ints_exn l e :
  ints l = Exn e ->
  exists c,
    In c l /\ Unicode.decimal_value c = None /\
    e = ValueError (lit "invalid literal for int() with base 10: '"
                      ++ [c] ++ lit "'").
Proof.
  induction l as [|d l IH]; [discriminate|].
  cbn [ints]. unfold int_of_char at 1.
  destruct (Unicode.decimal_value d) eqn:E; cbn [bind].
  - destruct (ints l) as [vs|e'] eqn:I; [discriminate|].
    cbn [bind]. intros H; injection H as <-.
    destruct (IH eq_refl) as (c & Hc & Dc & He). exists c. simpl. auto.
  - intros H; injection H as <-. exists d. simpl. auto.
Qed.

(** The character [ints] stops at is the first without a decimal value:
    those before it all have one. *)
Lemma ints_exn_first l e :
  ints l = Exn e ->
  exists pre c post,
    l = pre ++ c :: post /\
    Forall (fun d => Unicode.decimal_value d <> None) pre /\
    Unicode.decimal_value c = None /\
    e = ValueError (lit "invalid literal for int() with base 10: '"
                      ++ [c] ++ lit "'").
Proof.
  induction l as [|d l IH]; [discriminate|].
  cbn [ints]. unfold int_of_char at 1.
  destruct (Unicode.decimal_value d) eqn:E; cbn [bind].
  - destruct (ints l) as [vs|e'] eqn:I; [discriminate|].
    cbn [bind]. intros H; injection H as <-.
    destruct (IH eq_refl) as (pre & c & post & -> & F & Dc & He).
    exists (d :: pre), c, post. repeat split; auto.
    constructor; [congruence|exact F].
  - intros H; injection H as <-. exists [], d, l. repeat split; auto.
Qed.

(** Where an element of a filtered list stands in the list. *)
Lemma filter_split {A} (p : A -> bool) : forall l a c b,
  filter p l = a ++ c :: b ->
  exists pre post,
    l = pre ++ c :: post /\ filter p pre = a /\ filter p post = b /\
    p c = true.
Proof.
  induction l as [|x l IH]; intros a c b H.
  - destruct a; discriminate.
  - cbn [filter] in H. destruct (p x) eqn:Px.
    + destruct a as [|y a]; cbn [app] in H; injection H as Hx H.
      * subst x. exists [], l. cbn [filter app]. auto.
      * destruct (IH _ _ _ H) as (pre & post & -> & Ea & Eb & Pc).
        exists (x :: pre), post. cbn [filter app]. rewrite Px, Ea, Hx. auto.
    + destruct (IH _ _ _ H) as (pre & post & -> & Ea & Eb & Pc).
      exists (x :: pre), post. cbn [filter app]. rewrite Px. auto.
Qed.

Lemma ints_ret l vs :
  ints l = Ret vs ->
  Forall (fun c => Unicode.decimal_value c <> None) l /\ length vs = length l.
Proof.
  revert vs. induction l as [|d l IH]; intros vs.
  - intros H; injection H as <-. split; [constructor|reflexivity].
  - cbn [ints]. unfold int_of_char at 1.
    destruct (Unicode.decimal_value d) eqn:E; cbn [bind]; [|discriminate].
    destruct (ints l) as [ws|e'] eqn:I; [|discriminate].
    cbn [bind]. intros H; injection H as <-.
    destruct (IH _ eq_refl) as [F L]. split.
    + constructor; [congruence|exact F].
    + simpl. now rewrite L.
Qed.

(** [luhn_check] raises what the conversion of its digits raises, and
    answers true only within the length gate. *)
Lemma luhn_check_cases s :
  (exists e, ints (filter Unicode.is_digit s) = Exn e /\ luhn_check s = Exn e) \/
  (exists vs b, ints (filter Unicode.is_digit s) = Ret vs /\
                luhn_check s = Ret b /\
                (b = true -> 13 <= length vs <= 19)).
Proof.
  unfold luhn_check. destruct (ints _) as [vs|e]; [right|left; eauto].
  cbn [bind]. destruct (length vs <? 13) eqn:E1; cbn [orb].
  - exists vs, false. repeat split; discriminate.
  - destruct (19 <? length vs) eqn:E2.
    + exists vs, false. repeat split; discriminate.
    + apply Nat.ltb_ge in E1, E2. eexists vs, _. repeat split; lia.
Qed.

(** X5.  [luhn_check] raises exactly when its argument holds a character
    that [str.isdigit] accepts and [int] does not convert (a superscript
    two, for one).  It then raises the [ValueError] of [int] on the first
    such character: every digit before that character has a decimal value.
    On every other argument it returns. *)
Theorem luhn_check_raises_on_other_digits :
  forall s : str,
    (forall e, luhn_check s = Exn e ->
       exists pre c post,
         s = pre ++ c :: post /\
         Forall (fun d => Unicode.is_digit d = true ->
                          Unicode.decimal_value d <> None) pre /\
         Unicode.is_digit c = true /\
         Unicode.decimal_value c = None /\
         e = ValueError (lit "invalid literal for int() with base 10: '"
                           ++ [c] ++ lit "'")) /\
    (forall c, In c s -> Unicode.is_digit c = true ->
               Unicode.decimal_value c = None ->
               exists e, luhn_check s = Exn e) /\
    (Forall (fun c => Unicode.is_digit c = true ->
                      Unicode.decimal_value c <> None) s ->
     exists b, luhn_check s = Ret b).
Proof.
  intros s. split; [|split].
  - intros e H.
    destruct (luhn_check_cases s) as [(e' & I & L)|(vs & b & _ & L & _)];
      [|congruence].
    assert (e' = e) by congruence. subst e'.
    destruct (ints_exn_first _ I) as (a & c & b & Ef & Fa & Dc & He).
    destruct (filter_split _ _ _ _ _ Ef) as (pre & post & -> & Ea & _ & Gc).
    exists pre, c, post. repeat split; auto.
    apply Forall_forall. intros d Hd Gd.
    rewrite Forall_forall in Fa. apply Fa. rewrite <- Ea.
    apply filter_In. auto.
  - intros c Hc Gc Dc.
    destruct (luhn_check_cases s) as [(e' & I & L)|(vs & b & I & _ & _)];
      [eauto|].
    destruct (ints_ret _ I) as [F _]. rewrite Forall_forall in F.
    exfalso. apply (F c); [|exact Dc]. apply filter_In. auto.
  - intros F.
    destruct (luhn_check_cases s) as [(e' & I & L)|(vs & b & I & L & _)];
      [|eauto].
    destruct (ints_exn _ I) as (c & Hc & Dc & He).
    apply filter_In in Hc as [Hc Gc]. rewrite Forall_forall in F.
    exfalso. exact (F c Hc Gc Dc).
Qed.

(** X6.  [luhn_check] reads the digits of its argument and nothing else:
    a character that is no digit (a hyphen, a space, a letter) can be
    inserted or removed anywhere without changing the result, and the
    answer is true only when the digits number thirteen to nineteen. *)
Theorem luhn_check_reads_digits_only :
  (forall (a b : str) (c : char),
      Unicode.is_digit c = false ->
      luhn_check (a ++ c :: b) = luhn_check (a ++ b)) /\
  (forall s : str,
      luhn_check s = Ret true ->
      13 <= length (filter Unicode.is_digit s) <= 19).
Proof.
  split.
  - intros a b c H. unfold luhn_check.
    rewrite !filter_app. cbn [filter]. now rewrite H.
  - intros s H.
    destruct (luhn_check_cases s) as [(e' & I & L)|(vs & b & I & L & G)];
      [congruence|].
    destruct (ints_ret _ I) as [_ E]. rewrite <- E. apply G. congruence.
Qed.

Lemma ascii_digit_value c :
  Unicode.ascii_digit c = true ->
  Unicode.decimal_value c = Some (N.to_nat (c - 48)) /\ N.to_nat (c - 48) < 10.
Proof.
  intros H. unfold Unicode.decimal_value. rewrite H.
  unfold Unicode.ascii_digit, Unicode.in_range in H.
  apply andb_prop in H as [H1 H2]. apply N.leb_le in H1, H2.
  unfold Unicode.latin1.
  replace (c <? 256)%N with true by (symmetry; apply N.ltb_lt; lia).
  split; [reflexivity|lia].
Qed.

Lemma ascii_digit_digit c : Unicode.ascii_digit c = true -> digit c = true.
Proof.
  intros H. unfold digit, Unicode.is_decimal.
  now rewrite (proj1 (ascii_digit_value c H)).
Qed.

(** [luhn_check] on decimal digits: the length gate, then the checksum. *)
Lemma luhn_check_decimal s :
  Forall (fun x => digit x = true) s ->
  luhn_check s =
    Ret (if (length s <? 13) || (19 <? length s) then false
         else spec_luhn_valid (digit_values s)).
Proof.
  intros F. unfold luhn_check.
  rewrite (filter_is_digit F), (ints_digits F). cbn [bind].
  assert (E : length (digit_values s) = length s)
    by (unfold digit_values; apply length_map).
  rewrite E. destruct (_ || _); [reflexivity|].
  rewrite fold_luhn_add. reflexivity.
Qed.

(** X7.  The checksum catches every single wrong digit: when a number of
    digits 0 to 9 passes [luhn_check], the number obtained by replacing
    any one of its digits by a different digit does not. *)
Theorem luhn_check_catches_one_wrong_digit :
  forall (pre post : str) (x y : char),
    Forall (fun c => Unicode.ascii_digit c = true) (pre ++ x :: post) ->
    Unicode.ascii_digit y = true ->
    x <> y ->
    luhn_check (pre ++ x :: post) = Ret true ->
    luhn_check (pre ++ y :: post) = Ret false.
Proof.
  intros pre post x y F Hy Hxy.
  assert (Fx : Forall (fun c => digit c = true) (pre ++ x :: post)).
  { eapply Forall_impl; [|exact F]. intros c. apply ascii_digit_digit. }
  apply Forall_app in F as [Fpre F]. inversion F as [|? ? Hx Fpost]; subst.
  assert (Fy : Forall (fun c => digit c = true) (pre ++ y :: post)).
  { apply Forall_app. split.
    - eapply Forall_impl; [|exact Fpre]. intros c. apply ascii_digit_digit.
    - constructor; [now apply ascii_digit_digit|].
      eapply Forall_impl; [|exact Fpost]. intros c. apply ascii_digit_digit. }
  rewrite (luhn_check_decimal Fx), (luhn_check_decimal Fy).
  rewrite !length_app. cbn [length].
  destruct (_ || _); [discriminate|].
  unfold spec_luhn_valid, digit_values.
  rewrite !map_app. cbn [map]. rewrite !rev_app_distr. cbn [rev].
  rewrite <- !app_assoc. cbn [app].
  rewrite !luhn_sum_app, !luhn_sum_cons.
  destruct (ascii_digit_value x Hx) as [-> Vx].
  destruct (ascii_digit_value y Hy) as [-> Vy].
  set (b := xorb false (Nat.odd (length (rev (map _ post))))).
  set (A := luhn_sum false _). set (B := luhn_sum (negb b) _).
  assert (Ne : N.to_nat (x - 48) <> N.to_nat (y - 48)).
  { unfold Unicode.ascii_digit, Unicode.in_range in Hx, Hy.
    apply andb_prop in Hx as [X1 X2]. apply andb_prop in Hy as [Y1 Y2].
    apply N.leb_le in X1, X2, Y1, Y2. lia. }
  pose proof (luhn_term_small b Vx) as Tx.
  pose proof (luhn_term_small b Vy) as Ty.
  assert (Nt : luhn_term b (N.to_nat (x - 48))
               <> luhn_term b (N.to_nat (y - 48))).
  { intros E. apply Ne. eapply luhn_term_injective; eauto. }
  set (tx := luhn_term b (N.to_nat (x - 48))) in *.
  set (ty := luhn_term b (N.to_nat (y - 48))) in *.
  clearbody tx ty A B. intros H.
  assert (H' : ((A + (tx + B)) mod 10 =? 0) = true) by congruence.
  clear H. apply Nat.eqb_eq in H'.
  f_equal. apply Nat.eqb_neq.
  pose proof (Nat.div_mod_eq (A + (tx + B)) 10).
  pose proof (Nat.div_mod_eq (A + (ty + B)) 10).
  pose proof (Nat.mod_upper_bound (A + (ty + B)) 10 ltac:(discriminate)).
  lia.
Qed.

End Facts.
End LuhnFacts.

(** ** What a finding holds *)

Module FindingFacts.

Import Re ReSpec ReFacts Detectors DetectorSpec DetectorFacts ContextFacts.
Import StreamingFacts.

#[local] Hint Constructors lang : core.

Ltac split_pattern :=
  repeat match goal with
         | H : lang (Seq _ _) _ |- _ => inversion H; subst; clear H
         | H : lang Bnd _ |- _ => inversion H; subst; clear H
         | H : lang (Chr (is_ch _)) _ |- _ => inversion H; subst; clear H
         | H : is_ch _ _ = true |- _ =>
             unfold is_ch, char_eqb in H; apply N.eqb_eq in H; subst
         | H : lang (Rep (Chr _) _ _) _ |- _ =>
             apply lang_rep_chr in H as (? & ? & ?)
         | H : lang (Many _ _) _ |- _ => inversion H; subst; clear H
         end.

Lemma forallb_of_Forall {A} (p : A -> bool) l :
  Forall (fun x => p x = true) l -> forallb p l = true.
Proof. intros F. apply forallb_forall. now rewrite Forall_forall in F. Qed.

Lemma has_char_app c a b : has_char c (a ++ b) = has_char c a || has_char c b.
Proof. unfold has_char. apply existsb_app. Qed.

Lemma has_char_none c (p : char -> bool) l :
  p c = false -> Forall (fun x => p x = true) l -> has_char c l = false.
Proof.
  intros Hc F. unfold has_char. induction F as [|x l Hx _ IH]; [reflexivity|].
  cbn [existsb]. rewrite IH, orb_false_r. unfold char_eqb.
  destruct (N.eqb_spec c x); [congruence|reflexivity].
Qed.

(** Splitting at the first separator. *)
Lemma split_first sep a b :
  has_char sep a = false -> split sep (a ++ sep :: b) = a :: split sep b.
Proof.
  unfold has_char. induction a as [|x a IH]; cbn [existsb app]; intros H.
  - simpl. now rewrite PyFacts.char_eqb_refl.
  - apply orb_false_iff in H as [H1 H2]. cbn [split].
    unfold char_eqb in *. rewrite N.eqb_sym, H1. now rewrite IH.
Qed.

Section Facts.
Context {U : UnicodeDB}.

(** A match of the access-key pattern: AKIA and sixteen digits or
    capitals. *)
Lemma access_key_shape w :
  lang (PATTERNS aws_access_key) w ->
  exists rest, w = lit "AKIA" ++ rest /\ length rest = 16 /\
               forallb digit_upper rest = true.
Proof.
  cbn [PATTERNS]. unfold pattern_aws_access_key, cat, Times. intros H.
  split_pattern. rewrite app_nil_r. eexists. split; [reflexivity|].
  split; [lia|now apply forallb_of_Forall].
Qed.

Lemma secret_key_shape w :
  lang (PATTERNS aws_secret_key) w ->
  length w = 40 /\ forallb base64_char w = true.
Proof.
  cbn [PATTERNS]. unfold pattern_aws_secret_key, cat, Times. intros H.
  split_pattern. rewrite app_nil_r. cbn [app].
  split; [lia|now apply forallb_of_Forall].
Qed.

(** X8.  A finding of [detect_aws_keys] is hashed as it stands in the
    line, and is either an access key, reported with confidence high, AKIA
    followed by sixteen digits or capital letters, or a secret key,
    reported with confidence medium, forty characters of the base-64
    alphabet among which are a capital, a small letter and a digit. *)
Theorem aws_key_findings_shape :
  forall text ln f,
    In f (detect_aws_keys text ln) ->
    value_hash f = hash_value (value f) /\
    ((finding_type f = aws_access_key /\ confidence f = high /\
      exists rest, value f = lit "AKIA" ++ rest /\ length rest = 16 /\
                   forallb digit_upper rest = true) \/
     (finding_type f = aws_secret_key /\ confidence f = medium /\
      length (value f) = 40 /\ forallb base64_char (value f) = true /\
      existsb Unicode.is_upper (value f) = true /\
      existsb Unicode.is_lower (value f) = true /\
      existsb Unicode.is_digit (value f) = true)).
Proof.
  intros text ln f Hf. unfold detect_aws_keys in Hf.
  apply in_app_iff in Hf as [Hf|Hf];
    apply in_flat_map in Hf as (m & Hm & Hf);
    apply finditer_sound in Hm as (pre & w & rest & L & _ & _ & _ & G).
  - destruct Hf as [<-|[]]. cbn. rewrite G. split; [reflexivity|]. left.
    repeat split. now apply access_key_shape.
  - unfold secret_key_match in Hf. rewrite G in Hf.
    destruct (existsb Unicode.is_upper w) eqn:E1; [|destruct Hf].
    destruct (existsb Unicode.is_lower w) eqn:E2; [|destruct Hf].
    destruct (existsb Unicode.is_digit w) eqn:E3; [|destruct Hf].
    destruct Hf as [<-|[]]. cbn. rewrite G. split; [reflexivity|]. right.
    destruct (secret_key_shape L) as [S1 S2]. repeat split; auto.
Qed.

(** A match of the address pattern: a local part, the at sign, and a
    domain that holds a dot. *)
Lemma email_shape w :
  lang (PATTERNS email) w ->
  exists l d,
    w = l ++ ch "@" :: d /\ has_char (ch "@") l = false /\
    has_char (ch "@") d = false /\ has_char (ch ".") d = true.
Proof.
  cbn [PATTERNS]. unfold pattern_email, cat. intros H.
  split_pattern.
  match goal with
  | Hl : Forall _ ?l, Hd : Forall _ ?d, Ht : Forall _ ?t
    |- context [?l ++ [_] ++ ?d ++ _] =>
      exists l, (d ++ [ch "."] ++ t ++ [])
  end.
  repeat split.
  - eapply has_char_none; [|eassumption]. reflexivity.
  - rewrite !has_char_app.
    repeat match goal with
           | F : Forall (fun x => ?p x = true) ?l |- context [has_char ?c ?l] =>
               rewrite (@has_char_none c p l eq_refl F)
           end.
    reflexivity.
  - rewrite !has_char_app. cbn. now rewrite orb_true_r.
Qed.

Lemma email_match_reported text ln m :
  In m (finditer (PATTERNS email) text) ->
  email_match text ln m =
    [finding_of email text ln m (Unicode.lower (group0 text m)) high].
Proof.
  intros Hm.
  apply finditer_sound in Hm as (pre & w & rest & L & _ & _ & _ & G).
  destruct (email_shape L) as (l & d & E & Hl & Hd & Hdot).
  unfold email_match. rewrite G, E.
  rewrite has_char_app. cbn [has_char existsb].
  rewrite PyFacts.char_eqb_refl, orb_true_r.
  rewrite (@split_first _ _ d Hl), (@split_single _ _ Hd). cbn [nth].
  now rewrite Hdot.
Qed.

(** X9.  [detect_email] reports every match of its pattern, in order: the
    test that the value holds an at sign followed somewhere by a dot never
    rejects one, since the pattern admits the at sign only between the
    local part and a domain that ends in a dot and two letters. *)
Theorem detect_email_reports_every_match :
  forall text ln,
    detect_email text ln =
      map (fun m => finding_of email text ln m
                      (Unicode.lower (group0 text m)) high)
          (finditer (PATTERNS email) text).
Proof.
  intros text ln. unfold detect_email.
  rewrite (@flat_map_ext_in _ _ (email_match text ln)
             (fun m => [finding_of email text ln m
                          (Unicode.lower (group0 text m)) high])).
  - induction (finditer _ _) as [|m ms IH]; simpl; congruence.
  - intros m Hm. now apply email_match_reported.
Qed.

(** X10.  [detect_phone] takes a leading 1 for the country code: a match
    of ten digits that starts with 1 is cut to nine digits and never
    reported. *)
Theorem phone_leading_one_is_country_code :
  forall text ln m,
    length (sub_empty (Many phone_punct 1) (group0 text m)) = 10 ->
    startswith (lit "1") (sub_empty (Many phone_punct 1) (group0 text m)) = true ->
    phone_match text ln m = [].
Proof.
  intros text ln m L S. unfold phone_match, phone_normalize. rewrite S.
  rewrite length_skipn, L. reflexivity.
Qed.

(** X29.  A card number is reported only with fifteen or sixteen digits:
    the pattern narrows the thirteen to nineteen digits that [luhn_check]
    admits.  Every finding of [detect_credit_card] has confidence high,
    and its value, separators removed, is fifteen or sixteen decimal
    digits that pass [luhn_check] and whose hash is the stored hash. *)
Theorem card_findings_hold_15_or_16_digits :
  forall text ln fs f,
    detect_credit_card text ln = Ret fs -> In f fs ->
    finding_type f = credit_card /\ confidence f = high /\
    Forall (fun c => digit c = true) (sub_empty (Chr dash_space) (value f)) /\
    15 <= length (sub_empty (Chr dash_space) (value f)) <= 16 /\
    luhn_check (sub_empty (Chr dash_space) (value f)) = Ret true /\
    value_hash f = hash_value (sub_empty (Chr dash_space) (value f)).
Proof.
  intros text ln fs f H Hf. rewrite detect_credit_card_passing in H.
  injection H as <-. apply in_map_iff in Hf as (m & <- & Hm).
  apply filter_In in Hm as [Hm Hv].
  destruct (credit_card_match_digits text ln m Hm) as (F & L & _).
  cbn [finding_type confidence value value_hash finding_of].
  fold (normalized text m). repeat split; auto; try lia.
  rewrite luhn_check_digits by (auto; lia). now rewrite Hv.
Qed.

(** Where a finding of a line comes from. *)
Lemma finding_origin line ln fs f :
  scan_line line ln = Ret fs -> In f fs ->
  exists t m hashed conf,
    In m (finditer (PATTERNS t) line) /\
    f = finding_of t line ln m hashed conf /\
    conf = match t with aws_secret_key => medium | _ => high end.
Proof.
  unfold scan_line. intros H Hf.
  rewrite detect_credit_card_passing in H.
  cbn [bind] in H. injection H as <-.
  repeat rewrite in_app_iff in Hf.
  destruct Hf as [[[[Hf|Hf]|Hf]|Hf]|Hf].
  - unfold detect_ssn in Hf. apply in_flat_map in Hf as (m & Hm & Hf).
    exists ssn, m. unfold ssn_match in Hf.
    destruct (_ && _); [|destruct Hf]. destruct (_ || _); [destruct Hf|].
    destruct Hf as [<-|[]]. eauto.
  - apply in_map_iff in Hf as (m & <- & Hm).
    apply filter_In in Hm as [Hm _]. exists credit_card, m. eauto.
  - unfold detect_aws_keys in Hf. apply in_app_iff in Hf as [Hf|Hf];
      apply in_flat_map in Hf as (m & Hm & Hf).
    + exists aws_access_key, m. destruct Hf as [<-|[]]. eauto.
    + exists aws_secret_key, m. unfold secret_key_match in Hf.
      destruct (_ && _); [|destruct Hf]. destruct Hf as [<-|[]]. eauto.
  - unfold detect_email in Hf. apply in_flat_map in Hf as (m & Hm & Hf).
    exists email, m. unfold email_match in Hf.
    destruct (_ && _); [|destruct Hf]. destruct Hf as [<-|[]]. eauto.
  - unfold detect_phone in Hf. apply in_flat_map in Hf as (m & Hm & Hf).
    exists phone_us, m. unfold phone_match in Hf.
    destruct (_ && _); [|destruct Hf]. destruct (_ || _); [destruct Hf|].
    destruct Hf as [<-|[]]. eauto.
Qed.

(** The columns of a finding are a span of its line, and its value is
    what the line holds there. *)
Lemma finding_located line ln fs f :
  scan_line line ln = Ret fs -> In f fs ->
  Detectors.line_number f = ln /\
  column_start f < column_end f /\
  column_end f <= length line /\
  value f = slice line (column_start f) (column_end f) /\
  length (value f) = column_end f - column_start f.
Proof.
  intros Hs Hf.
  destruct (@finding_origin line ln fs f Hs Hf)
    as (t & m & hashed & conf & Hm & -> & _).
  cbn [Detectors.line_number column_start column_end value finding_of].
  destruct (patterns_solid t) as (Nl & _ & _).
  apply finditer_sound in Hm as (pre & w & rest & L & E & F & S & G).
  assert (Hw : w <> []).
  { intros ->. rewrite (nullable_sound L eq_refl) in Nl. discriminate. }
  assert (Lw : 0 < length w) by (destruct w; [congruence|simpl; lia]).
  split; [reflexivity|]. split; [lia|].
  split; [rewrite E, !length_app; lia|].
  split; [reflexivity|]. rewrite G. lia.
Qed.

(** X11.  Every finding of [scan_line] carries the line number it was
    given, columns that delimit a non-empty span inside the line, and as
    value exactly the characters of the line between those columns. *)
Theorem findings_are_located :
  forall line ln fs f,
    scan_line line ln = Ret fs -> In f fs ->
    Detectors.line_number f = ln /\
    column_start f < column_end f /\
    column_end f <= length line /\
    value f = slice line (column_start f) (column_end f) /\
    length (value f) = column_end f - column_start f.
Proof. intros line ln fs f. apply finding_located. Qed.

(** X12.  The confidence of a finding follows from its type: medium for
    a secret key, high for every other type; low is never reported. *)
Theorem confidence_follows_type :
  forall line ln fs f,
    scan_line line ln = Ret fs -> In f fs ->
    confidence f =
      match finding_type f with aws_secret_key => medium | _ => high end.
Proof.
  intros line ln fs f Hs Hf.
  destruct (@finding_origin line ln fs f Hs Hf)
    as (t & m & hashed & conf & _ & -> & ->).
  reflexivity.
Qed.

End Facts.
End FindingFacts.

(** ** The edges of a context *)

Module StripFacts.

Import Re ReSpec Detectors DetectorSpec ContextFacts.

Section Facts.
Context {U : UnicodeDB}.

Lemma lstrip_head s :
  Unicode.lstrip s = [] \/
  exists x t, Unicode.lstrip s = x :: t /\ Unicode.is_space x = false.
Proof.
  induction s as [|c s IH]; [now left|]. simpl.
  destruct (Unicode.is_space c) eqn:E; [exact IH|]. right. eauto.
Qed.

(** What [strip] returns is empty or starts and ends with a character that
    is not white space. *)
Lemma strip_trimmed s : Unicode.strip s = [] \/ trimmed (Unicode.strip s).
Proof.
  unfold Unicode.strip, Unicode.rstrip.
  destruct (lstrip_head s) as [->|(x & t & -> & Hx)]; [now left|]. right.
  destruct (@lstrip_keeps _ (rev t) [x] x eq_refl Hx) as (l' & E & _).
  cbn [rev]. rewrite E, rev_app_distr. cbn [rev app]. split.
  - exists x. auto.
  - cbn [rev]. rewrite rev_involutive.
    destruct (lstrip_head (rev t ++ [x])) as [N|(y & u & Ey & Hy)].
    + rewrite E in N. destruct l'; discriminate.
    + rewrite E in Ey. rewrite Ey. exists y. auto.
Qed.

(** X13.  The context of a finding never starts or ends with white space:
    [get_context] returns the empty string (when its window holds white
    space only) or a string whose first and last characters are not white
    space, the ellipsis of a cut context included. *)
Theorem context_has_no_outer_white_space :
  forall (text : str) (start end_ : nat),
    get_context text start end_ = [] \/
    trimmed (get_context text start end_).
Proof.
  intros text s e. unfold get_context. cbv zeta.
  set (w := slice text _ _).
  destruct (strip_trimmed w) as [E|T].
  - left. rewrite E. reflexivity.
  - right. destruct (200 <? length (Unicode.strip w)); [|exact T].
    destruct T as [(x & Hx & Sx) _].
    destruct (Unicode.strip w) as [|x' c]; [discriminate|].
    injection Hx as ->. split.
    + exists x. auto.
    + rewrite rev_app_distr. exists (ch "."). split; [reflexivity|].
      apply printable_not_space. cbv. split; discriminate.
Qed.

End Facts.
End StripFacts.

(** ** The text the reader scans *)

Module TextFacts.

Import Re ReSpec Detectors DetectorSpec Scanner ScannerSpec ScanText TextSpec.
Import StreamingFacts FindingFacts.

Lemma splitlines_line_feed s : splitlines (newline :: s) = [] :: splitlines s.
Proof. destruct s; reflexivity. Qed.

(** Without other boundaries [splitlines] is [split] at the line feeds,
    less the empty piece after a final line feed. *)
Lemma splitlines_split text :
  only_line_feeds text = true ->
  splitlines text =
    match last (split newline text) [] with
    | [] => removelast (split newline text)
    | _ => split newline text
    end.
Proof.
  unfold only_line_feeds. induction text as [|x s IH]; [reflexivity|].
  cbn [forallb]. intros H. apply andb_prop in H as [Hx Hs].
  specialize (IH Hs).
  destruct (char_eqb x newline) eqn:E.
  - unfold char_eqb in E. apply N.eqb_eq in E. subst x.
    rewrite splitlines_line_feed.
    change (split newline (newline :: s)) with ([] :: split newline s).
    destruct (split newline s) as [|p ps] eqn:S;
      [now apply split_not_nil in S|].
    rewrite IH.
    change (last ([] :: p :: ps) []) with (last (p :: ps) []).
    change (removelast ([] :: p :: ps)) with ([] :: removelast (p :: ps)).
    destruct (last (p :: ps) []); reflexivity.
  - assert (B : line_boundary x = false).
    { unfold char_eqb in E. apply orb_prop in Hx as [Hx|Hx].
      - now apply negb_true_iff in Hx.
      - unfold newline, ch in E. simpl in E. congruence. }
    cbn [splitlines]. rewrite B.
    destruct (@split_cons_other newline x s E) as (p & ps & S & ->).
    rewrite IH, S. destruct ps as [|q ps].
    + cbn [last removelast]. destruct p; reflexivity.
    + change (last ((x :: p) :: q :: ps) []) with (last (q :: ps) []).
      change (last (p :: q :: ps) []) with (last (q :: ps) []).
      change (removelast ((x :: p) :: q :: ps))
        with ((x :: p) :: removelast (q :: ps)).
      change (removelast (p :: q :: ps)) with (p :: removelast (q :: ps)).
      destruct (last (q :: ps) []); reflexivity.
Qed.

Lemma nth_error_removelast {A} (l : list A) : forall i x,
  nth_error (removelast l) i = Some x -> nth_error l i = Some x.
Proof.
  induction l as [|a l IH]; intros i x; [destruct i; discriminate|].
  destruct l as [|b l]; [destruct i; discriminate|].
  change (removelast (a :: b :: l)) with (a :: removelast (b :: l)).
  destruct i; [auto|]. cbn [nth_error]. apply IH.
Qed.

Section Facts.
Context {U : UnicodeDB}.

(** Every chunk is decoded and scanned: a turn of the loop never fails. *)
Lemma scan_chunk_decoded st chunk :
  scan_chunk st chunk = (feed st (decode_chunk chunk), None).
Proof. unfold scan_chunk. now rewrite scan_lines_total. Qed.

Lemma scan_chunks_decoded chunks : forall st,
  has_char newline (buffer st) = false ->
  scan_chunks st chunks = (feed st (decoded chunks), None).
Proof.
  unfold decoded.
  induction chunks as [|c chunks IH]; intros st Hst; cbn [scan_chunks map concat].
  - now rewrite feed_nil.
  - rewrite scan_chunk_decoded, (IH _ (feed_clean st _)).
    now rewrite feed_feed.
Qed.

Lemma scan_numbered_total lines : forall n,
  scan_numbered (enumerate (n + 1) lines) = Ret (lines_findings n lines).
Proof.
  induction lines as [|line lines IH]; intros n; [reflexivity|].
  cbn [enumerate scan_numbered lines_findings].
  rewrite scan_line_total. cbn [bind].
  replace (S (n + 1)) with (n + 1 + 1) by lia. rewrite IH. reflexivity.
Qed.

(** The findings of a text are those of its lines, the empty piece after
    a final line feed left out. *)
Lemma text_findings_lines text :
  text_findings text =
    lines_findings 0
      match last (split newline text) [] with
      | [] => removelast (split newline text)
      | _ => split newline text
      end.
Proof.
  unfold text_findings. cbv zeta.
  pose proof (@app_removelast_last _ (split newline text) []
                (@split_not_nil newline text)) as E.
  destruct (last (split newline text) []) as [|c l] eqn:L.
  - now rewrite app_nil_r.
  - rewrite E at 3. rewrite lines_findings_app. cbn [lines_findings].
    now rewrite app_nil_r.
Qed.

(** What [scan_body] returns, whatever the chunks. *)
Lemma scan_body_decoded cfg body :
  scan_body cfg body =
    match body_fault body with
    | None =>
        (text_findings (decoded (iter_chunks body (CHUNK_SIZE cfg))), None)
    | Some e =>
        (lines_findings 0
           (removelast
              (split newline (decoded (iter_chunks body (CHUNK_SIZE cfg))))),
         Some (error_message_of e))
    end.
Proof.
  unfold scan_body.
  rewrite (@scan_chunks_decoded (iter_chunks body (CHUNK_SIZE cfg))
             {| Scanner.line_number := 0; buffer := []; findings := [] |} eq_refl).
  unfold feed, text_findings.
  cbn [Scanner.line_number buffer findings app].
  set (lines := split newline (decoded (iter_chunks body (CHUNK_SIZE cfg)))).
  destruct (body_fault body); [reflexivity|].
  destruct (last lines []) as [|c l] eqn:L.
  - now rewrite app_nil_r.
  - rewrite scan_line_total. reflexivity.
Qed.

(** X14.  No content makes the streaming loop fail.  Whatever bytes the
    chunks hold, each chunk is decoded (as UTF-8, else as Latin-1) and the
    scan returns the findings of the decoded text read line by line, with
    no error message.  When the transport fails after the chunks, the
    error message is that of the failure and the findings are those of the
    lines completed by then: the unfinished last line is not scanned. *)
Theorem streaming_scans_the_decoded_text :
  forall (cfg : Config) (body : S3Body),
    scan_body cfg body =
      match body_fault body with
      | None =>
          (text_findings (decoded (iter_chunks body (CHUNK_SIZE cfg))), None)
      | Some e =>
          (lines_findings 0
             (removelast
                (split newline (decoded (iter_chunks body (CHUNK_SIZE cfg))))),
           Some (error_message_of e))
      end.
Proof. exact scan_body_decoded. Qed.

(** X15.  On text whose only line boundaries are line feeds, the
    streaming reader and [scan_text] agree: scanning the decoded text of a
    body with [scan_text] returns exactly the findings the streaming scan
    of the body returns, line numbers and columns included. *)
Theorem scan_text_agrees_with_streaming :
  forall (cfg : Config) (body : S3Body),
    body_fault body = None ->
    only_line_feeds (decoded (iter_chunks body (CHUNK_SIZE cfg))) = true ->
    scan_text (decoded (iter_chunks body (CHUNK_SIZE cfg)))
    = Ret (fst (scan_body cfg body)) /\
    snd (scan_body cfg body) = None.
Proof.
  intros cfg body Hf Hp. rewrite scan_body_decoded, Hf.
  cbn [fst snd]. split; [|reflexivity].
  unfold scan_text. rewrite (splitlines_split _ Hp).
  rewrite (scan_numbered_total _ 0). now rewrite text_findings_lines.
Qed.

(** A finding of consecutive lines is a finding of one of them. *)
Lemma lines_findings_in lines : forall n f,
  In f (lines_findings n lines) ->
  exists i line,
    nth_error lines i = Some line /\ In f (line_findings line (n + i + 1)).
Proof.
  induction lines as [|l lines IH]; intros n f; [intros []|].
  cbn [lines_findings]. rewrite in_app_iff. intros [H|H].
  - exists 0, l. split; [reflexivity|]. now rewrite Nat.add_0_r.
  - apply IH in H as (i & line & Hi & Hf). exists (S i), line.
    split; [exact Hi|]. now replace (n + S i + 1) with (n + 1 + i + 1) by lia.
Qed.

(** A finding of lines numbered from 1 sits in the line of its number. *)
Lemma numbered_finding_located lines f :
  In f (lines_findings 0 lines) ->
  exists line,
    nth_error lines (Detectors.line_number f - 1) = Some line /\
    1 <= Detectors.line_number f <= length lines /\
    column_start f < column_end f <= length line /\
    value f = slice line (column_start f) (column_end f).
Proof.
  intros Hf. apply lines_findings_in in Hf as (i & line & Hi & Hf).
  destruct (@finding_located _ line (0 + i + 1) _ f
              (scan_line_total line (0 + i + 1)) Hf) as (Ln & C1 & C2 & V & _).
  exists line. rewrite Ln.
  replace (0 + i + 1 - 1) with i by lia.
  pose proof (proj1 (nth_error_Some lines i)) as B.
  rewrite Hi in B. specialize (B ltac:(discriminate)).
  repeat split; auto; lia.
Qed.

(** X16.  [scan_text] never raises, and each of its findings is where it
    says: its line number, counted from 1, names a line of
    [text.splitlines()], and its value is what that line holds between
    its columns. *)
Theorem scan_text_locates_its_findings :
  forall text,
    exists fs,
      scan_text text = Ret fs /\
      forall f, In f fs ->
        exists line,
          nth_error (splitlines text) (Detectors.line_number f - 1) = Some line /\
          1 <= Detectors.line_number f <= length (splitlines text) /\
          column_start f < column_end f <= length line /\
          value f = slice line (column_start f) (column_end f).
Proof.
  intros text. unfold scan_text. rewrite (scan_numbered_total _ 0).
  eexists. split; [reflexivity|]. intros f. apply numbered_finding_located.
Qed.

(** X17.  Each finding of the streaming scan is where it says in the
    decoded text: its line number, counted from 1, names one of the
    pieces between line feeds, and its value is what that piece holds
    between its columns. *)
Theorem streaming_locates_its_findings :
  forall (cfg : Config) (body : S3Body) (f : Finding),
    In f (fst (scan_body cfg body)) ->
    exists line,
      nth_error (split newline (decoded (iter_chunks body (CHUNK_SIZE cfg))))
                (Detectors.line_number f - 1) = Some line /\
      1 <= Detectors.line_number f /\
      column_start f < column_end f <= length line /\
      value f = slice line (column_start f) (column_end f).
Proof.
  intros cfg body f. rewrite scan_body_decoded.
  set (lines := split newline (decoded (iter_chunks body (CHUNK_SIZE cfg)))).
  assert (G : In f (lines_findings 0 (removelast lines)) \/
              In f (lines_findings 0 lines) ->
              exists line,
                nth_error lines (Detectors.line_number f - 1) = Some line /\
                1 <= Detectors.line_number f /\
                column_start f < column_end f <= length line /\
                value f = slice line (column_start f) (column_end f)).
  { intros [H|H]; apply numbered_finding_located in H
      as (line & Hn & [L1 _] & C & V); exists line;
      eauto using nth_error_removelast. }
  destruct (body_fault body); cbn [fst]; intros H; apply G; [now left|].
  rewrite text_findings_lines in H. fold lines in H.
  destruct (last lines []); auto.
Qed.

End Facts.
End TextFacts.

(** ** What is asked of the object store *)

Module GateFacts.

Import Detectors Scanner ScannerSpec.

Section Facts.
Context {U : UnicodeDB}.

(** X18.  The size request comes first, and the body is requested only
    past both gates: when the size is known and within the maximum and
    [is_text_file] answered true.  When the body is not requested the scan
    has no finding and an error message. *)
Theorem body_is_requested_only_past_the_gates :
  forall (cfg : Config) (s3 : S3) (bucket key : str),
    let r := scan_file_streaming cfg s3 bucket key in
    (exists rest, snd r = HeadObject bucket key :: rest) /\
    (In (GetObject bucket key) (snd r) ->
     exists size,
       head_object s3 bucket key = Ret size /\
       (size <= MAX_FILE_SIZE cfg)%N /\
       fst (is_text_file s3 bucket key) = Ret true) /\
    (~ In (GetObject bucket key) (snd r) ->
     fst (fst r) = [] /\ snd (fst r) <> None).
Proof.
  intros cfg s3 bucket key. cbv zeta.
  unfold scan_file_streaming, get_file_size.
  destruct (head_object s3 bucket key) as [size|e].
  - destruct (N.ltb_spec (MAX_FILE_SIZE cfg) size) as [Hlt|Hle].
    + cbn [fst snd]. split; [eexists; reflexivity|]. split.
      * intros [H|[]]; discriminate.
      * intros _. split; [reflexivity|discriminate].
    + assert (Hcalls : forall c, In c (snd (is_text_file s3 bucket key)) ->
                                 c = GetObjectRange bucket key).
      { intros c. unfold is_text_file.
        destruct (existsb _ text_extensions); [intros []|].
        destruct (get_object_range s3 bucket key) as [sample|[m|m|m|m]];
          try (intros [<-|[]]; reflexivity).
        destruct (existsb _ sample); [intros [<-|[]]; reflexivity|].
        destruct (utf8_decode sample); intros [<-|[]]; reflexivity. }
      assert (Hno : forall calls,
                 (forall c, In c calls -> c = GetObjectRange bucket key) ->
                 ~ In (GetObject bucket key) (HeadObject bucket key :: calls)).
      { intros calls Hc [H|H]; [discriminate|]. apply Hc in H. discriminate. }
      destruct (is_text_file s3 bucket key) as [[[|]|e] calls]; cbn [fst snd] in *.
      * destruct (get_object s3 bucket key) as [body|e]; cbn [fst snd];
          (split; [eexists; reflexivity|]);
          (split; [intros _; exists size; auto|]);
          intros H; exfalso; apply H; apply in_or_app; right;
          apply in_or_app; right; now left.
      * split; [eexists; reflexivity|].
        split; [intros H; destruct (Hno _ Hcalls H)|].
        intros _. split; [reflexivity|discriminate].
      * split; [eexists; reflexivity|].
        split; [intros H; destruct (Hno _ Hcalls H)|].
        intros _. split; [reflexivity|discriminate].
  - destruct e; cbn [fst snd]; (split; [eexists; reflexivity|]);
      (split; [intros [H|[]]; discriminate|]);
      intros _; (split; [reflexivity|discriminate]).
Qed.

(** X19.  The extension decides before the content: a key whose
    lower-case form ends in one of the listed extensions is taken for text
    without any request to the store, and the file is streamed and scanned
    whatever its bytes are. *)
Theorem text_extension_skips_the_probe :
  forall (cfg : Config) (s3 : S3) (bucket key ext : str) (size : N) (body : S3Body),
    In ext text_extensions ->
    endswith ext (Unicode.lower key) = true ->
    head_object s3 bucket key = Ret size ->
    (size <= MAX_FILE_SIZE cfg)%N ->
    get_object s3 bucket key = Ret body ->
    is_text_file s3 bucket key = (Ret true, []) /\
    scan_file_streaming cfg s3 bucket key =
      (scan_body cfg body, [HeadObject bucket key; GetObject bucket key]).
Proof.
  intros cfg s3 bucket key ext size body Hin He Hh Hs Hg.
  assert (T : is_text_file s3 bucket key = (Ret true, [])).
  { unfold is_text_file.
    replace (existsb _ text_extensions) with true; [reflexivity|].
    symmetry. apply existsb_exists. eauto. }
  split; [exact T|].
  unfold scan_file_streaming, get_file_size. rewrite Hh.
  replace (MAX_FILE_SIZE cfg <? size)%N with false
    by (symmetry; now apply N.ltb_ge).
  now rewrite T, Hg.
Qed.

(** X20.  A file without a listed extension is skipped as non-text, its
    body never requested, when the first 1024 bytes hold a zero byte or
    are not valid UTF-8, and also when the request for them fails with a
    client error. *)
Theorem binary_sample_is_skipped :
  forall (cfg : Config) (s3 : S3) (bucket key : str) (size : N),
    existsb (fun ext => endswith ext (Unicode.lower key)) text_extensions = false ->
    head_object s3 bucket key = Ret size ->
    (size <= MAX_FILE_SIZE cfg)%N ->
    (exists sample,
        get_object_range s3 bucket key = Ret sample /\
        (In 0%N sample \/ utf8_decode sample = None)) \/
    (exists m, get_object_range s3 bucket key = Exn (ClientError m)) ->
    scan_file_streaming cfg s3 bucket key =
      (([], Some (lit "Non-text file, skipped")),
       [HeadObject bucket key; GetObjectRange bucket key]).
Proof.
  intros cfg s3 bucket key size Hx Hh Hs Hp.
  assert (T : is_text_file s3 bucket key
              = (Ret false, [GetObjectRange bucket key])).
  { unfold is_text_file. rewrite Hx.
    destruct Hp as [(sample & -> & [H0|Hd])|(m & ->)]; [| |reflexivity].
    - replace (existsb (N.eqb 0) sample) with true; [reflexivity|].
      symmetry. apply existsb_exists. exists 0%N. auto.
    - rewrite Hd. now destruct (existsb _ sample). }
  unfold scan_file_streaming, get_file_size. rewrite Hh.
  replace (MAX_FILE_SIZE cfg <? size)%N with false
    by (symmetry; now apply N.ltb_ge).
  now rewrite T.
Qed.

(** X21.  The failures of the store end as error messages.  A client
    error of the size request (the object is missing, say) gives "Could not
    determine file size" and nothing further is requested; a client error
    when the body is opened gives "S3 error: " followed by the text of the
    error, with no finding. *)
Theorem store_failures_become_error_messages :
  forall (cfg : Config) (s3 : S3) (bucket key : str),
    (forall m,
        head_object s3 bucket key = Exn (ClientError m) ->
        scan_file_streaming cfg s3 bucket key =
          (([], Some (lit "Could not determine file size")),
           [HeadObject bucket key])) /\
    (forall size m,
        head_object s3 bucket key = Ret size ->
        (size <= MAX_FILE_SIZE cfg)%N ->
        fst (is_text_file s3 bucket key) = Ret true ->
        get_object s3 bucket key = Exn (ClientError m) ->
        fst (scan_file_streaming cfg s3 bucket key) =
          ([], Some (lit "S3 error: " ++ m))).
Proof.
  intros cfg s3 bucket key. split.
  - intros m Hh. unfold scan_file_streaming, get_file_size. now rewrite Hh.
  - intros size m Hh Hs Ht Hg. unfold scan_file_streaming, get_file_size.
    rewrite Hh.
    replace (MAX_FILE_SIZE cfg <? size)%N with false
      by (symmetry; now apply N.ltb_ge).
    destruct (is_text_file s3 bucket key) as [r calls]. cbn [fst] in Ht.
    subst r. now rewrite Hg.
Qed.

End Facts.
End GateFacts.

(** ** What the persistence layer leaves alone *)

Module StoreFacts.

Import Detectors Database DatabaseSpec DatabaseFacts WorkerFacts.

Lemma insert_or_ignore_length table row :
  length (insert_or_ignore table row) <= length table + 1.
Proof.
  unfold insert_or_ignore. destruct (existsb _ _); [lia|].
  rewrite length_app. simpl. lia.
Qed.

Lemma insert_length rows : forall table,
  length (insert_on_conflict_do_nothing table rows)
  <= length table + length rows.
Proof.
  unfold insert_on_conflict_do_nothing.
  induction rows as [|r rows IH]; intros table; simpl; [lia|].
  pose proof (IH (insert_or_ignore table r)).
  pose proof (insert_or_ignore_length table r). lia.
Qed.

(** X22.  [bulk_insert_findings] only adds: the rows already stored stay
    as they are and where they are, what is appended are rows of the list
    supplied, every supplied row is then in the table by its key, and the
    table of objects is not touched. *)
Theorem bulk_insert_findings_only_adds :
  forall (db_fault : DbOp -> option exn) (s s' : DB) (rows : list FindingRow),
    bulk_insert_findings db_fault s rows = Ret s' ->
    job_objects s' = job_objects s /\
    (exists added, findings s' = findings s ++ added /\ incl added rows) /\
    (forall r, In r rows -> existsb (conflicts r) (findings s') = true) /\
    length (findings s') <= length (findings s) + length rows.
Proof.
  intros fault s s' rows H. unfold bulk_insert_findings in H.
  destruct rows as [|r0 rows].
  - injection H as <-. split; [reflexivity|]. split.
    + exists []. rewrite app_nil_r. split; [reflexivity|apply incl_refl].
    + split; [intros r []|simpl; lia].
  - destruct (fault OpInsert); [discriminate|]. injection H as <-.
    cbn [job_objects findings]. split; [reflexivity|].
    split; [apply (insert_grows (r0 :: rows))|].
    split; [intros r Hr; exact (@insert_covers (r0 :: rows) (findings s) r Hr)|].
    apply (insert_length (r0 :: rows)).
Qed.

Section Update.
Variable db_fault : DbOp -> option exn.
Variable utcnow : timestamp.

Lemma store_other s id f o :
  In o (job_objects s) -> object_id o <> id -> In o (job_objects (store s id f)).
Proof.
  intros Ho Hid. unfold store. cbn [job_objects]. apply in_map_iff.
  exists o. split; [|exact Ho].
  destruct (N.eqb_spec (object_id o) id); [contradiction|reflexivity].
Qed.

(** X23.  [update_object_status] touches one row and, of it, only the
    status, the attempts, the scan time and, when a non-empty message is
    given, the error message.  The findings and the rows of other objects
    stay as they are; for an unknown id the function returns with nothing
    changed; and an error message once stored is never cleared: a row that
    failed and is later marked scanning or completed keeps it. *)
Theorem update_object_status_keeps_the_rest :
  forall (s s' : DB) (id : N) (st : Status) (msg : option str),
    update_object_status db_fault utcnow s id st msg = Ret s' ->
    findings s' = findings s /\
    map object_id (job_objects s') = map object_id (job_objects s) /\
    (forall o, In o (job_objects s) -> object_id o <> id ->
               In o (job_objects s')) /\
    (first_by_id s id = None -> s' = s) /\
    (forall obj, first_by_id s id = Some obj ->
       exists obj',
         first_by_id s' id = Some obj' /\
         job_id obj' = job_id obj /\ s3_key obj' = s3_key obj /\
         file_size_bytes obj' = file_size_bytes obj /\
         findings_count obj' = findings_count obj /\
         error_message obj' =
           if truthy msg then msg else error_message obj).
Proof.
  intros s s' id st msg H. unfold update_object_status in H.
  destruct (db_fault (OpUpdate st)); [discriminate|].
  destruct (first_by_id s id) as [obj|] eqn:F; injection H as <-.
  - split; [reflexivity|]. split.
    + unfold store. cbn [job_objects]. rewrite map_map. apply map_ext.
      intros o. now destruct (N.eqb (object_id o) id).
    + split; [intros o; apply store_other|].
      split; [discriminate|].
      intros obj0 E. injection E as <-.
      exists (set_status utcnow st msg obj).
      split; [now apply first_by_id_store|]. repeat split.
  - repeat split; auto. discriminate.
Qed.

End Update.
End StoreFacts.

(** ** Messages that are dropped, completed or delivered again *)

Module QueueFacts.

Import Detectors Scanner Database DatabaseSpec Worker DatabaseFacts WorkerFacts.

Lemma find_map {A} (p : A -> bool) (g : A -> A) l :
  (forall o, p (g o) = p o) -> find p (map g l) = option_map g (find p l).
Proof.
  intros H. induction l as [|o l IH]; [reflexivity|].
  cbn [map find]. rewrite H. destruct (p o); [reflexivity|exact IH].
Qed.

Lemma find_in {A} (p : A -> bool) l o :
  In o l -> p o = true -> exists o', find p l = Some o'.
Proof.
  induction l as [|x l IH]; [intros []|]. cbn [find].
  intros [->|Ho] Hp.
  - rewrite Hp. eauto.
  - destruct (p x); eauto.
Qed.

Section Facts.
Context {U : UnicodeDB}.
Variable env : Env.

(** What [delete_message] leaves: the request, and the database as it
    was. *)
Lemma delete_message_world rh w :
  db (snd (delete_message env rh w)) = db w /\
  sqs_calls (snd (delete_message env rh w)) = sqs_calls w ++ [DeleteMessage rh].
Proof.
  unfold delete_message.
  destruct (sqs_delete env rh) as [u|[m|m|m|m]]; split; reflexivity.
Qed.


(** X25.  A well-formed message is dropped when the lookup of its object
    raises [SQLAlchemyError], which [get_object_by_job_and_key] answers as
    it answers no row, and when the lookup does not fail and no row of
    [job_objects] has the key of the message: the deletion of the message
    is requested and the database is left as it was, so that a row the
    lookup did not reach keeps its status. *)
Theorem unknown_object_is_dropped :
  forall (message : Message) (w : World) (data : list (str * str)),
    parse_message (Body message) = Some data ->
    (exists m, db_fault env OpQuery = Some (SQLAlchemyError m)) \/
    (db_fault env OpQuery = None /\
     forall o, In o (job_objects (db w)) ->
               s3_key o <> field (lit "s3_key") data) ->
    db (fst (process_message env message w)) = db w /\
    sqs_calls (fst (process_message env message w))
      = sqs_calls w ++ [DeleteMessage (ReceiptHandle message)].
Proof.
  intros message w data Hp H.
  assert (L : get_object_by_job_and_key (db_fault env) (db w)
                (field (lit "job_id") data) (field (lit "s3_key") data) = None).
  { unfold get_object_by_job_and_key.
    destruct H as [(m & ->)|[-> H]]; [reflexivity|].
    destruct (find _ _) as [o|] eqn:F; [|reflexivity].
    apply find_some in F as [Ho Hk]. apply andb_prop in Hk as [_ K2].
    apply PyFacts.str_eqb_eq in K2. elim (H o Ho K2). }
  unfold process_message. rewrite Hp.
  unfold get_session, resolve_and_mark. rewrite L.
  pose proof (delete_message_world (ReceiptHandle message) w) as [D1 D2].
  destruct (delete_message env (ReceiptHandle message) w) as [[u|e] w'];
    cbn [fst snd] in *.
  - destruct (db_fault env (OpCommit 1)); cbn [fst db sqs_calls]; auto.
  - auto.
Qed.

(** The lookup by job and key after a status change of the row. *)
Lemma lookup_after_store s id f job key obj :
  (forall o, job_id (f o) = job_id o /\ s3_key (f o) = s3_key o) ->
  object_id obj = id ->
  get_object_by_job_and_key (db_fault env) s job key = Some obj ->
  get_object_by_job_and_key (db_fault env) (store s id f) job key
  = Some (f obj).
Proof.
  intros Hf Hid. unfold get_object_by_job_and_key.
  destruct (db_fault env OpQuery); [discriminate|].
  unfold store. cbn [job_objects]. rewrite find_map.
  - intros ->. cbn [option_map]. now rewrite Hid, N.eqb_refl.
  - intros o. destruct (N.eqb (object_id o) id); [|reflexivity].
    destruct (Hf o) as [-> ->]. reflexivity.
Qed.

(** A row found by job and key is found by its id. *)
Lemma lookup_has_id s job key obj :
  get_object_by_job_and_key (db_fault env) s job key = Some obj ->
  exists obj0, first_by_id s (object_id obj) = Some obj0.
Proof.
  unfold get_object_by_job_and_key.
  destruct (db_fault env OpQuery); [discriminate|]. intros F.
  apply find_some in F as [Ho _]. unfold first_by_id.
  eapply find_in; [exact Ho|]. apply N.eqb_refl.
Qed.

(** The world after a message was processed to completion, and what must
    have gone well for that. *)
Lemma process_message_completed message w w' data obj obj0 fs calls :
  parse_message (Body message) = Some data ->
  get_object_by_job_and_key (db_fault env) (db w)
    (field (lit "job_id") data) (field (lit "s3_key") data) = Some obj ->
  first_by_id (db w) (object_id obj) = Some obj0 ->
  scan_file (config env) (s3 env) (field (lit "s3_bucket") data)
            (field (lit "s3_key") data) = (fs, None, calls) ->
  process_message env message w = (w', Returned) ->
  w' =
    {| db :=
         store
           {| job_objects :=
                job_objects (store (db w) (object_id obj)
                                   (set_status (utcnow env) scanning None));
              findings :=
                insert_on_conflict_do_nothing (findings (db w))
                  (findings_data (object_id obj) (field (lit "job_id") data) fs) |}
           (object_id obj) (set_status (utcnow env) completed None);
       sqs_calls := sqs_calls w ++ [DeleteMessage (ReceiptHandle message)] |} /\
  db_fault env (OpUpdate scanning) = None /\
  db_fault env (OpCommit 1) = None /\
  db_fault env (OpUpdate completed) = None /\
  db_fault env (OpCommit 2) = None /\
  (fs <> [] -> db_fault env OpInsert = None) /\
  (forall e, sqs_delete env (ReceiptHandle message) = Exn e ->
             exists m, e = ClientError m).
Proof.
  intros Hp Hl H0 Hs Hrun.
  erewrite process_message_found in Hrun by eassumption.
  destruct (db_fault env (OpUpdate scanning)); [discriminate|].
  destruct (db_fault env (OpCommit 1)); [discriminate|].
  cbv zeta in Hrun. rewrite Hs in Hrun.
  erewrite write_results_completed in Hrun
    by (cbn [db]; apply first_by_id_store; [reflexivity|eassumption]).
  destruct (match fs with [] => None | _ => db_fault env OpInsert end) eqn:Fi;
    [discriminate|].
  destruct (db_fault env (OpUpdate completed)); [discriminate|].
  destruct (db_fault env (OpCommit 2)); [discriminate|].
  unfold delete_message in Hrun. cbn [db sqs_calls] in Hrun.
  repeat split; auto.
  - destruct (sqs_delete env (ReceiptHandle message)) as [u|[m|m|m|m]];
      try discriminate; injection Hrun as <-; reflexivity.
  - intros Hne. destruct fs; [congruence|exact Fi].
  - intros e He. rewrite He in Hrun. destruct e; try discriminate. eauto.
Qed.

(** X26.  When a message is processed and its scan completed, the
    findings are in the table: the table is the old one followed by rows
    of this scan, each finding of the scan is there by its key, the row of
    the object is completed with its error message untouched, and the
    deletion of the message is requested. *)
Theorem completed_scan_is_persisted :
  forall message w w' data obj fs calls,
    parse_message (Body message) = Some data ->
    get_object_by_job_and_key (db_fault env) (db w)
      (field (lit "job_id") data) (field (lit "s3_key") data) = Some obj ->
    first_by_id (db w) (object_id obj) = Some obj ->
    scan_file (config env) (s3 env) (field (lit "s3_bucket") data)
              (field (lit "s3_key") data) = (fs, None, calls) ->
    process_message env message w = (w', Returned) ->
    findings (db w') =
      insert_on_conflict_do_nothing (findings (db w))
        (findings_data (object_id obj) (field (lit "job_id") data) fs) /\
    (exists added, findings (db w') = findings (db w) ++ added /\
                   incl added (findings_data (object_id obj)
                                 (field (lit "job_id") data) fs)) /\
    (forall r, In r (findings_data (object_id obj)
                       (field (lit "job_id") data) fs) ->
               existsb (conflicts r) (findings (db w')) = true) /\
    (exists obj',
        first_by_id (db w') (object_id obj) = Some obj' /\
        status obj' = completed /\
        error_message obj' = error_message obj) /\
    sqs_calls w' = sqs_calls w ++ [DeleteMessage (ReceiptHandle message)].
Proof.
  intros message w w' data obj fs calls Hp Hl H0 Hs Hrun.
  destruct (process_message_completed _ _ Hp Hl H0 Hs Hrun) as (-> & _).
  cbn [db sqs_calls store findings].
  split; [reflexivity|]. split; [apply insert_grows|].
  split; [intros r Hr; exact (@insert_covers _ (findings (db w)) r Hr)|].
  split; [|reflexivity].
  eexists. split.
  - apply first_by_id_store; [reflexivity|].
    rewrite first_by_id_findings.
    apply first_by_id_store; [reflexivity|eassumption].
  - split; reflexivity.
Qed.

(** X27.  A message delivered again after it was processed to completion
    is processed to completion again and stores nothing new: the findings
    table after the second run is the table after the first.  Only the
    row of the object changes, its attempts raised by two more. *)
Theorem redelivery_stores_nothing_new :
  forall message w w1 data obj fs calls,
    parse_message (Body message) = Some data ->
    get_object_by_job_and_key (db_fault env) (db w)
      (field (lit "job_id") data) (field (lit "s3_key") data) = Some obj ->
    first_by_id (db w) (object_id obj) = Some obj ->
    scan_file (config env) (s3 env) (field (lit "s3_bucket") data)
              (field (lit "s3_key") data) = (fs, None, calls) ->
    process_message env message w = (w1, Returned) ->
    exists w2 obj2,
      process_message env message w1 = (w2, Returned) /\
      findings (db w2) = findings (db w1) /\
      first_by_id (db w2) (object_id obj) = Some obj2 /\
      status obj2 = completed /\
      attempts obj2 = attempts obj + 4.
Proof.
  intros message w w1 data obj fs calls Hp Hl H0 Hs Hrun.
  destruct (process_message_completed _ _ Hp Hl H0 Hs Hrun)
    as (Hw1 & F1 & F2 & F3 & F4 & F5 & Hdel).
  set (id := object_id obj) in *.
  set (scan := set_status (utcnow env) scanning None) in *.
  set (done := set_status (utcnow env) completed None) in *.
  set (rows := findings_data id (field (lit "job_id") data) fs) in *.
  assert (L1 : get_object_by_job_and_key (db_fault env) (db w1)
                 (field (lit "job_id") data) (field (lit "s3_key") data)
               = Some (done (scan obj))).
  { rewrite Hw1. cbn [db].
    apply lookup_after_store; [intros o; split; reflexivity|reflexivity|].
    exact (@lookup_after_store (db w) id scan _ _ obj
             (fun o => conj eq_refl eq_refl) eq_refl Hl). }
  assert (I1 : first_by_id (db w1) id = Some (done (scan obj))).
  { rewrite Hw1. cbn [db]. apply first_by_id_store; [reflexivity|].
    rewrite first_by_id_findings.
    apply first_by_id_store; [reflexivity|exact H0]. }
  pose proof (@process_message_found _ env message w1 data (done (scan obj))
                (done (scan obj)) Hp L1 I1) as R.
  rewrite F1, F2 in R. cbv zeta in R. rewrite Hs in R.
  change (object_id (done (scan obj))) with id in R.
  erewrite write_results_completed in R
    by (cbn [db]; apply first_by_id_store; [reflexivity|exact I1]).
  assert (Fi : match fs with [] => None | _ => db_fault env OpInsert end = None).
  { destruct fs; [reflexivity|]. apply F5. discriminate. }
  rewrite Fi, F3, F4 in R. unfold delete_message in R.
  cbn [db sqs_calls] in R.
  assert (T : insert_on_conflict_do_nothing (findings (db w1)) rows
              = findings (db w1)).
  { rewrite Hw1. cbn [db store findings]. apply insert_twice. }
  fold rows in R.
  change (findings (store (db w1) id (set_status (utcnow env) scanning None)))
    with (findings (db w1)) in R.
  rewrite T in R.
  eexists. exists (done (scan (done (scan obj)))).
  split.
  - rewrite R.
    destruct (sqs_delete env (ReceiptHandle message)) as [u|e] eqn:D;
      [reflexivity|].
    destruct (Hdel e eq_refl) as [m ->]. reflexivity.
  - cbn [db store findings]. split; [reflexivity|]. split.
    + apply first_by_id_store; [reflexivity|].
      rewrite first_by_id_findings.
      apply first_by_id_store; [reflexivity|exact I1].
    + split; [reflexivity|]. cbn. lia.
Qed.

(** X28.  Findings are stored only together with the completion of their
    object.  However a message is processed and whatever fails, the
    findings table is left as it was, or else the message named an object
    of the database and the row of that object is now completed. *)
Theorem findings_change_only_on_completion :
  forall (message : Message) (w : World),
    findings (db (fst (process_message env message w))) = findings (db w) \/
    exists data obj obj',
      parse_message (Body message) = Some data /\
      get_object_by_job_and_key (db_fault env) (db w)
        (field (lit "job_id") data) (field (lit "s3_key") data) = Some obj /\
      first_by_id (db (fst (process_message env message w))) (object_id obj)
        = Some obj' /\
      status obj' = completed.
Proof.
  intros message w.
  assert (D : forall w0, db (fst (let (r, w3) :=
                 delete_message env (ReceiptHandle message) w0 in
                 match r with
                 | Ret _ => (w3, Returned)
                 | Exn e => (w3, Logged e)
                 end)) = db w0).
  { intros w0.
    pose proof (delete_message_world (ReceiptHandle message) w0) as [D1 _].
    destruct (delete_message env (ReceiptHandle message) w0) as [[u|e] w3];
      exact D1. }
  destruct (parse_message (Body message)) as [data|] eqn:Hp.
  2:{ left. unfold process_message. rewrite Hp.
      pose proof (delete_message_world (ReceiptHandle message) w) as [D1 _].
      destruct (delete_message env (ReceiptHandle message) w) as [[u|e] w'];
        cbn [fst snd] in *; now rewrite D1. }
  destruct (get_object_by_job_and_key (db_fault env) (db w)
              (field (lit "job_id") data) (field (lit "s3_key") data))
    as [obj|] eqn:Hl.
  2:{ left. unfold process_message. rewrite Hp.
      unfold get_session, resolve_and_mark. rewrite Hl.
      pose proof (delete_message_world (ReceiptHandle message) w) as [D1 _].
      destruct (delete_message env (ReceiptHandle message) w) as [[u|e] w'];
        cbn [fst snd] in *; [|now rewrite D1].
      destruct (db_fault env (OpCommit 1)); cbn [fst db]; [now rewrite D1|].
      reflexivity. }
  destruct (lookup_has_id _ _ _ Hl) as [obj0 H0].
  rewrite (@process_message_found _ env message w data obj obj0 Hp Hl H0).
  destruct (db_fault env (OpUpdate scanning)); [now left|].
  destruct (db_fault env (OpCommit 1)); [now left|].
  cbv zeta.
  assert (H1 : first_by_id
                 (store (db w) (object_id obj)
                        (set_status (utcnow env) scanning None))
                 (object_id obj)
               = Some (set_status (utcnow env) scanning None obj0))
    by (apply first_by_id_store; [reflexivity|exact H0]).
  destruct (scan_file _ _ _ _) as [[fs err] calls] eqn:Hs.
  destruct err as [reason|].
  - left. pose proof (scan_file_error_nonempty _ _ _ _ Hs) as Hne.
    erewrite write_results_failed by first [assumption|exact H1].
    destruct (db_fault env (OpUpdate failed)); [reflexivity|].
    destruct (db_fault env (OpCommit 2)); [reflexivity|].
    now rewrite D.
  - erewrite write_results_completed by (exact H1).
    destruct (match fs with [] => None | _ => db_fault env OpInsert end);
      [now left|].
    destruct (db_fault env (OpUpdate completed)); [now left|].
    destruct (db_fault env (OpCommit 2)); [now left|].
    right. exists data, obj. eexists. rewrite D. cbn [db].
    split; [reflexivity|]. split; [exact Hl|]. split.
    + apply first_by_id_store; [reflexivity|].
      rewrite first_by_id_findings. exact H1.
    + reflexivity.
Qed.

End Facts.
End QueueFacts.

(** ** Instances *)

Module DetectorInstances.

Import Re ReSpec ReFacts Detectors DetectorSpec DetectorFacts ContextFacts Demo.

(** The instances are Latin-1 text, read with the Latin-1 tables. *)
#[local] Existing Instance latin1_db.



(** C1 on the code.  [luhn_check] answers false on 4532111111111111,
    bare and in groups of four, whose Luhn sum is 39, and the line
    Card number: 4532-1111-1111-1111 gives no finding; it answers true on
    0000000000000000, whose Luhn sum is 0, and the number is reported.
    The vector 374245455400126, reported when written bare, passes
    [luhn_check] with separators but is not matched by the pattern once
    separators are put in, wherever they are put. *)
Theorem claimed_card_vectors_fail :
  forall U : UnicodeDB,
    luhn_sum false (rev [4; 5; 3; 2; 1; 1; 1; 1; 1; 1; 1; 1; 1; 1; 1; 1]) = 39 /\
    luhn_check (lit "4532111111111111") = Ret false /\
    luhn_check (lit "4532 1111 1111 1111") = Ret false /\
    luhn_check (lit "4532-1111-1111-1111") = Ret false /\
    rejects "4532111111111111" /\
    rejects "4532-1111-1111-1111" /\
    detect_credit_card (lit "Card number: 4532-1111-1111-1111") 1 = Ret [] /\
    luhn_sum false (rev (repeat 0 16)) = 0 /\
    luhn_check (lit "0000000000000000") = Ret true /\
    accepts "0000000000000000" "0000000000000000" /\
    accepts "374245455400126" "374245455400126" /\
    luhn_check (lit "3742 4545 5400 126") = Ret true /\
    rejects "3742 4545 5400 126" /\
    rejects "3742-4545-5400-126" /\
    rejects "3742-454554-00126" /\
    rejects "3742 454554 00126".
Proof. intros U. unfold accepts, rejects. vm_compute. repeat split. Qed.

End DetectorInstances.

Module ScriptInstances.

Import Re ReSpec Detectors DetectorSpec Demo.

(** The instances are text in Latin-1 and Arabic-Indic digits. *)
#[local] Existing Instance arabic_indic_db.

(** C3 on the code.  The number 555-123-4567 gives no finding when written
    in the digits 0 to 9 and one finding when written in Arabic-Indic
    digits: the pattern matches them, the normalised form is ten digits of
    the values 5 5 5 1 2 3 4 5 6 7 that pass [str.isdigit], and
    [startswith] compares them with the characters 555 and answers false.
    The same holds of (555) 123-4567 and 000-000-0000, the lines of the
    claim. *)
Theorem area_code_in_other_digits_is_reported :
  arabic_indic "555-123-4567"
    = [0x665; 0x665; 0x665; 45; 0x661; 0x662; 0x663; 45;
       0x664; 0x665; 0x666; 0x667]%N /\
  detect_phone (U := arabic_indic_db) (lit "555-123-4567") 1 = [] /\
  finditer (U := arabic_indic_db) (PATTERNS phone_us)
    (arabic_indic "555-123-4567") = [(0, 12)] /\
  phone_normalize (U := arabic_indic_db)
    (group0 (arabic_indic "555-123-4567") (0, 12))
    = arabic_indic "5551234567" /\
  length (arabic_indic "5551234567") = 10 /\
  Unicode.isdigit (U := arabic_indic_db) (arabic_indic "5551234567") = true /\
  digit_values (U := arabic_indic_db) (arabic_indic "5551234567")
    = [5; 5; 5; 1; 2; 3; 4; 5; 6; 7] /\
  startswith (lit "555") (arabic_indic "5551234567") = false /\
  detect_phone (U := arabic_indic_db) (arabic_indic "555-123-4567") 1
    = [finding_of phone_us (arabic_indic "555-123-4567") 1 (0, 12)
         (arabic_indic "5551234567") high] /\
  hash_value (arabic_indic "5551234567")
    = lit "f09f4c6a05170fb4aa082c4c638eda66ca14ace9ba3131415a224329f842f281" /\
  (detect_phone (U := arabic_indic_db) (lit "(555) 123-4567") 1 = [] /\
   reported (detect_phone (U := arabic_indic_db)
               (arabic_indic "(555) 123-4567") 1)
     = [(1, 14, hash_value (arabic_indic "5551234567"))]) /\
  (detect_phone (U := arabic_indic_db) (lit "000-000-0000") 1 = [] /\
   reported (detect_phone (U := arabic_indic_db)
               (arabic_indic "000-000-0000") 1)
     = [(0, 12, hash_value (arabic_indic "0000000000"))]).
Proof. vm_compute. repeat split. Qed.

(** C4 on the code.  The numbers 000-12-3456, 666-12-3456 and 912-12-3456
    give no finding when written in the digits 0 to 9 and one finding each
    when written in Arabic-Indic digits: the pattern matches them, the
    normalised form is nine digits that pass [str.isdigit], of the values
    0 0 0 1 2 3 4 5 6 for the first, and [startswith] compares them with
    the characters 000, 666 and 9 and answers false. *)
Theorem excluded_area_in_other_digits_is_reported :
  arabic_indic "000-12-3456"
    = [0x660; 0x660; 0x660; 45; 0x661; 0x662; 45;
       0x663; 0x664; 0x665; 0x666]%N /\
  detect_ssn (U := arabic_indic_db) (lit "000-12-3456") 1 = [] /\
  finditer (U := arabic_indic_db) (PATTERNS ssn)
    (arabic_indic "000-12-3456") = [(0, 11)] /\
  normalized (U := arabic_indic_db) (arabic_indic "000-12-3456") (0, 11)
    = arabic_indic "000123456" /\
  length (arabic_indic "000123456") = 9 /\
  Unicode.isdigit (U := arabic_indic_db) (arabic_indic "000123456") = true /\
  digit_values (U := arabic_indic_db) (arabic_indic "000123456")
    = [0; 0; 0; 1; 2; 3; 4; 5; 6] /\
  ssn_excluded (arabic_indic "000123456") = false /\
  detect_ssn (U := arabic_indic_db) (arabic_indic "000-12-3456") 1
    = [finding_of ssn (arabic_indic "000-12-3456") 1 (0, 11)
         (arabic_indic "000123456") high] /\
  hash_value (arabic_indic "000123456")
    = lit "60a2ab7e00b7e1d8fdb2e269d6195a0bf2774ccca83fb80bf665eacad4467b66" /\
  (detect_ssn (U := arabic_indic_db) (lit "666-12-3456") 1 = [] /\
   reported (detect_ssn (U := arabic_indic_db) (arabic_indic "666-12-3456") 1)
     = [(0, 11, hash_value (arabic_indic "666123456"))]) /\
  (detect_ssn (U := arabic_indic_db) (lit "912-12-3456") 1 = [] /\
   reported (detect_ssn (U := arabic_indic_db) (arabic_indic "912-12-3456") 1)
     = [(0, 11, hash_value (arabic_indic "912123456"))]).
Proof. vm_compute. repeat split. Qed.

End ScriptInstances.

Module ScannerInstances.

Import Detectors Scanner ScannerSpec ScannerFacts Demo.

Lemma empty_completes_and_oversize_is_refused_witness :
  fst (scan_file_streaming (U := latin1_db) default_config
         empty_object_store (lit "bucket") (lit "empty.txt")) = ([], None) /\
  scan_file_streaming (U := latin1_db) default_config
    Demo.oversize_store (lit "bucket") (lit "video.txt") =
    (([], Some (lit "File too large: 629145600 bytes")),
     [HeadObject (lit "bucket") (lit "video.txt")]).
Proof.
  split.
  - eapply (proj1 (@empty_completes_and_oversize_is_refused latin1_db
                     default_config empty_object_store
                     (lit "bucket") (lit "empty.txt")));
      reflexivity.
  - apply (proj2 (@empty_completes_and_oversize_is_refused latin1_db
                    default_config Demo.oversize_store
                    (lit "bucket") (lit "video.txt")) (600 * 1024 * 1024)%N);
      reflexivity.
Defined.

(** C5 as stated fails for a zero-byte object whose key has no text
    extension when the probe of its first bytes is answered with a client
    error: [is_text_file] then answers false and the scan ends as skipped,
    not completed. *)
Lemma empty_object_without_extension_is_skipped :
  scan_file_streaming (U := latin1_db) default_config empty_object_store
    (lit "bucket") (lit "empty") =
  (([], Some (lit "Non-text file, skipped")),
   [HeadObject (lit "bucket") (lit "empty");
    GetObjectRange (lit "bucket") (lit "empty")]).
Proof. vm_compute. reflexivity. Qed.

(** C2 on the code.  Valid UTF-8 content of 26 bytes read with a chunk
    size of 13 arrives in two chunks, cut inside its two-byte character:
    neither chunk decodes as UTF-8, both fall back to Latin-1, and the line
    scanned is one character longer than the line of the same content read
    as one chunk.  The finding moves one column to the right and its
    context differs; where the character touches the digits, the split
    scan reports a finding that the unsplit scan does not. *)
Theorem split_inside_character_changes_findings :
  forall U : UnicodeDB,
    utf8_decode accented_line = Some accented_text /\
    read_chunks accented_line 26 = [accented_line] /\
    read_chunks accented_line 13
      = [firstn 13 accented_line; skipn 13 accented_line] /\
    map (fun f => (finding_type f, Detectors.line_number f,
                   column_start f, column_end f))
        (findings_at_chunk_size 26 accented_line) = [(ssn, 1, 14, 25)] /\
    map (fun f => (finding_type f, Detectors.line_number f,
                   column_start f, column_end f))
        (findings_at_chunk_size 13 accented_line) = [(ssn, 1, 15, 26)] /\
    map context (findings_at_chunk_size 26 accented_line) = [accented_text] /\
    map context (findings_at_chunk_size 13 accented_line)
      = [lit "contact no: " ++ [195; 169; 32]%N ++ lit "123-45-6789"] /\
    findings_at_chunk_size 25 accented_word = [] /\
    map (fun f => (finding_type f, Detectors.line_number f,
                   column_start f, column_end f))
        (findings_at_chunk_size 13 accented_word) = [(ssn, 1, 14, 25)].
Proof. intros U. vm_compute. repeat split. Qed.

End ScannerInstances.

Module StreamingInstances.

Import Detectors Scanner ScannerSpec StreamingFacts Demo.

Lemma chunks_cut_between_characters_scan_alike_witness :
  Forall (fun c => utf8_decode c <> None)
         [firstn 15 two_lines; skipn 15 two_lines] /\
  scan_body (U := latin1_db) default_config
    (yielding [firstn 15 two_lines; skipn 15 two_lines] None)
  = scan_body (U := latin1_db) default_config (yielding [two_lines] None).
Proof.
  assert (H : Forall (fun c => utf8_decode c <> None)
                     [firstn 15 two_lines; skipn 15 two_lines])
    by (repeat constructor; vm_compute; discriminate).
  split; [exact H|].
  exact (proj2 (@chunks_cut_between_characters_scan_alike latin1_db
                  default_config
                  [firstn 15 two_lines; skipn 15 two_lines] None H)
           two_lines 15 eq_refl).
Defined.

End StreamingInstances.

Module DatabaseInstances.

Import Detectors Database DatabaseSpec DatabaseFacts Demo.

Lemma bulk_insert_findings_idempotent_witness :
  bulk_insert_findings Demo.no_fault empty_db
    [finding_row 1 0; finding_row 2 4; finding_row 1 0] = Ret stored /\
  bulk_insert_findings Demo.no_fault stored
    [finding_row 1 0; finding_row 2 4; finding_row 1 0] = Ret stored /\
  (forall s2,
      bulk_insert_findings Demo.no_fault stored
        [finding_row 1 0; finding_row 2 4; finding_row 1 0] = Ret s2 ->
      length (findings s2) = length (findings stored)) /\
  (unique_finding (findings empty_db) -> unique_finding (findings stored)) /\
  (forall row table, existsb (conflicts row) table = true ->
                     insert_or_ignore table row = table).
Proof.
  split; [reflexivity|].
  apply (@bulk_insert_findings_idempotent Demo.no_fault empty_db stored
           [finding_row 1 0; finding_row 2 4; finding_row 1 0]).
  reflexivity.
Defined.

End DatabaseInstances.

Module WorkerInstances.

Import Detectors Scanner Database Worker WorkerFacts.

Lemma update_object_status_counts_every_transition_witness :
  (exists s' obj',
      update_object_status Demo.no_fault 5%N (db Demo.world) 7 failed None
        = Ret s' /\
      first_by_id s' 7 = Some obj' /\
      status obj' = failed /\
      attempts obj' = attempts Demo.row + 1 /\
      scanned_at obj' = Some 5%N) /\
  (exists obj',
      first_by_id
        (db (fst (process_message (U := latin1_db)
                    (Demo.env_of (Demo.store_of Demo.notes) Demo.no_fault
                                 Demo.deleted)
                    Demo.message Demo.world))) 7 = Some obj' /\
      status obj' = completed /\
      attempts obj' = attempts Demo.row + 2 /\
      scanned_at obj' = Some 1700000000%N).
Proof.
  destruct (@update_object_status_counts_every_transition latin1_db
              (Demo.env_of (Demo.store_of Demo.notes) Demo.no_fault Demo.deleted))
    as [H1 H2].
  split.
  - apply (H1 Demo.no_fault 5%N (db Demo.world) 7%N failed None Demo.row);
      reflexivity.
  - eapply (H2 Demo.message Demo.world _ Demo.data Demo.row);
      vm_compute; reflexivity.
Defined.

Lemma failed_scan_is_recorded_and_acknowledged_witness :
  let run :=
    process_message (U := latin1_db)
      (Demo.env_of Demo.oversize_store Demo.no_fault Demo.deleted)
      Demo.message Demo.world in
  snd run = Returned /\
  (exists obj',
      first_by_id (db (fst run)) 7 = Some obj' /\
      status obj' = failed /\
      error_message obj' = Some (lit "File too large: 629145600 bytes") /\
      attempts obj' = attempts Demo.row + 2 /\
      scanned_at obj' = Some 1700000000%N) /\
  findings (db (fst run)) = findings (db Demo.world) /\
  sqs_calls (fst run) = sqs_calls Demo.world ++ [DeleteMessage (lit "rh-1")].
Proof.
  split; [vm_compute; reflexivity|].
  eapply (@failed_scan_is_recorded_and_acknowledged latin1_db
            (Demo.env_of Demo.oversize_store Demo.no_fault Demo.deleted)
            Demo.message Demo.world _ Demo.data Demo.row);
    vm_compute; reflexivity.
Defined.

Lemma exception_before_acknowledge_leaves_scanning_witness :
  let run :=
    process_message (U := latin1_db)
      (Demo.env_of (Demo.store_of Demo.notes) Demo.update_fails Demo.deleted)
      Demo.message Demo.world in
  snd run = Logged (SQLAlchemyError (lit "connection lost")) /\
  sqs_calls (fst run) = sqs_calls Demo.world /\
  findings (db (fst run)) = findings (db Demo.world) /\
  exists obj',
    first_by_id (db (fst run)) 7 = Some obj' /\
    status obj' = scanning /\
    attempts obj' = attempts Demo.row + 1 /\
    scanned_at obj' = None.
Proof.
  split; [vm_compute; reflexivity|].
  eapply (@exception_before_acknowledge_leaves_scanning latin1_db
            (Demo.env_of (Demo.store_of Demo.notes) Demo.update_fails
                         Demo.deleted)
            Demo.message Demo.world _ Demo.data Demo.row);
    try (vm_compute; reflexivity).
  intros e' H. discriminate H.
Defined.

(** C7 as stated fails when it is the acknowledge call that raises: the
    results are committed before the message is deleted, so an exception
    of [delete_message] that is not a [ClientError] is logged with the row
    already [completed], not [scanning]. *)
Lemma exception_in_acknowledge_leaves_completed :
  let run :=
    process_message (U := latin1_db)
      (Demo.env_of (Demo.store_of Demo.notes) Demo.no_fault Demo.unreachable)
      Demo.message Demo.world in
  snd run = Logged (OtherError (lit "Could not connect to the endpoint URL")) /\
  option_map status (first_by_id (db Demo.world) 7) = Some pending /\
  option_map status (first_by_id (db (fst run)) 7) = Some completed /\
  length (findings (db (fst run))) = 1.
Proof. vm_compute. repeat split. Qed.

End WorkerInstances.

Module FindingInstances.

Import Re ReSpec Detectors DetectorSpec Demo Samples.
Import LuhnFacts FindingFacts.

(** The instances are Latin-1 text, read with the Latin-1 tables. *)
#[local] Existing Instance latin1_db.

Lemma value_hash_is_64_hex_digits_witness :
  Codec.encodable (lit "123456789") = true /\
  length (hash_value (lit "123456789")) = 64 /\
  forallb HashSpec.hex_char (hash_value (lit "123456789")) = true.
Proof.
  split; [reflexivity|].
  apply (HashFacts.value_hash_is_64_hex_digits (lit "123456789")).
  reflexivity.
Defined.

Lemma luhn_check_raises_on_other_digits_witness :
  let s := (lit "41" ++ [178; 185]%N ++ lit "11")%list in
  let e := ValueError (lit "invalid literal for int() with base 10: '"
                         ++ [178]%N ++ lit "'") in
  luhn_check (U := latin1_db) s = Exn e /\
  exists pre c post,
    s = pre ++ c :: post /\
    Forall (fun d => Unicode.is_digit (U := latin1_db) d = true ->
                     Unicode.decimal_value (U := latin1_db) d <> None) pre /\
    Unicode.is_digit (U := latin1_db) c = true /\
    Unicode.decimal_value (U := latin1_db) c = None /\
    e = ValueError (lit "invalid literal for int() with base 10: '"
                      ++ [c] ++ lit "'").
Proof.
  cbv zeta. split; [vm_compute; reflexivity|].
  apply (proj1 (@luhn_check_raises_on_other_digits latin1_db
                  (lit "41" ++ [178; 185]%N ++ lit "11"))).
  vm_compute. reflexivity.
Defined.

Lemma luhn_check_reads_digits_only_witness :
  Unicode.is_digit (U := latin1_db) (ch "-") = false /\
  luhn_check (U := latin1_db) (lit "5425" ++ ch "-" :: lit "233430109903")
  = luhn_check (U := latin1_db) (lit "5425" ++ lit "233430109903") /\
  luhn_check (U := latin1_db) (lit "5425 2334 3010 9903") = Ret true /\
  13 <= length (filter (Unicode.is_digit (U := latin1_db))
                       (lit "5425 2334 3010 9903")) <= 19.
Proof.
  destruct (@luhn_check_reads_digits_only latin1_db) as [H1 H2].
  split; [reflexivity|].
  split; [apply H1; reflexivity|].
  split; [vm_compute; reflexivity|].
  apply H2. vm_compute. reflexivity.
Defined.

Lemma luhn_check_catches_one_wrong_digit_witness :
  luhn_check (U := latin1_db) (lit "542523343010990" ++ ch "3" :: []) = Ret true /\
  luhn_check (U := latin1_db) (lit "542523343010990" ++ ch "8" :: []) = Ret false.
Proof.
  split; [vm_compute; reflexivity|].
  apply (@luhn_check_catches_one_wrong_digit latin1_db
           (lit "542523343010990") [] (ch "3") (ch "8")).
  - vm_compute. repeat constructor.
  - reflexivity.
  - discriminate.
  - vm_compute. reflexivity.
Defined.

Lemma aws_key_findings_shape_witness :
  let f := finding_of aws_secret_key secret_key_line 1 (15, 55) secret_key medium in
  In f (detect_aws_keys (U := latin1_db) secret_key_line 1) /\
  value_hash f = hash_value (value f) /\
  ((finding_type f = aws_access_key /\ confidence f = high /\
    exists rest, value f = lit "AKIA" ++ rest /\ length rest = 16 /\
                 forallb digit_upper rest = true) \/
   (finding_type f = aws_secret_key /\ confidence f = medium /\
    length (value f) = 40 /\ forallb base64_char (value f) = true /\
    existsb (Unicode.is_upper (U := latin1_db)) (value f) = true /\
    existsb (Unicode.is_lower (U := latin1_db)) (value f) = true /\
    existsb (Unicode.is_digit (U := latin1_db)) (value f) = true)).
Proof.
  cbv zeta.
  assert (H : In (finding_of (U := latin1_db) aws_secret_key secret_key_line 1
                    (15, 55) secret_key medium)
                 (detect_aws_keys (U := latin1_db) secret_key_line 1))
    by (vm_compute; auto).
  split; [exact H|].
  exact (@aws_key_findings_shape latin1_db secret_key_line 1 _ H).
Defined.

Lemma phone_leading_one_is_country_code_witness :
  In (0, 12) (finditer (U := latin1_db) (PATTERNS phone_us) (lit "123-456-7890")) /\
  sub_empty (U := latin1_db) (Many phone_punct 1)
    (group0 (lit "123-456-7890") (0, 12)) = lit "1234567890" /\
  phone_match (U := latin1_db) (lit "123-456-7890") 1 (0, 12) = [].
Proof.
  split; [vm_compute; auto|]. split; [vm_compute; reflexivity|].
  apply (@phone_leading_one_is_country_code latin1_db);
    vm_compute; reflexivity.
Defined.

Lemma card_findings_hold_15_or_16_digits_witness :
  let line := lit "Card: 5425-2334-3010-9903" in
  let f := finding_of credit_card line 1 (6, 25) (lit "5425233430109903") high in
  detect_credit_card line 1 = Ret [f] /\
  finding_type f = credit_card /\ confidence f = high /\
  Forall (fun c => digit c = true) (sub_empty (Chr dash_space) (value f)) /\
  15 <= length (sub_empty (Chr dash_space) (value f)) <= 16 /\
  luhn_check (sub_empty (Chr dash_space) (value f)) = Ret true /\
  value_hash f = hash_value (sub_empty (Chr dash_space) (value f)).
Proof.
  cbv zeta.
  assert (H : detect_credit_card (lit "Card: 5425-2334-3010-9903") 1
              = Ret [finding_of credit_card (lit "Card: 5425-2334-3010-9903") 1
                       (6, 25) (lit "5425233430109903") high])
    by (vm_compute; reflexivity).
  split; [exact H|].
  exact (@card_findings_hold_15_or_16_digits latin1_db _ 1 _ _ H
           (or_introl eq_refl)).
Defined.

Lemma findings_are_located_witness :
  let f := finding_of ssn ssn_line 1 (4, 15) (lit "123456789") high in
  scan_line (U := latin1_db) ssn_line 1 = Ret [f] /\
  Detectors.line_number f = 1 /\
  column_start f < column_end f /\
  column_end f <= length ssn_line /\
  value f = slice ssn_line (column_start f) (column_end f) /\
  length (value f) = column_end f - column_start f.
Proof.
  cbv zeta.
  assert (H : scan_line (U := latin1_db) ssn_line 1
              = Ret [finding_of (U := latin1_db) ssn ssn_line 1 (4, 15)
                       (lit "123456789") high])
    by (vm_compute; reflexivity).
  split; [exact H|].
  exact (@findings_are_located latin1_db ssn_line 1 _ _ H (or_introl eq_refl)).
Defined.

Lemma confidence_follows_type_witness :
  let f := finding_of aws_secret_key secret_key_line 1 (15, 55) secret_key medium in
  scan_line (U := latin1_db) secret_key_line 1 = Ret [f] /\
  confidence f = medium.
Proof.
  cbv zeta.
  assert (H : scan_line (U := latin1_db) secret_key_line 1
              = Ret [finding_of (U := latin1_db) aws_secret_key secret_key_line 1
                       (15, 55) secret_key medium])
    by (vm_compute; reflexivity).
  split; [exact H|].
  exact (@confidence_follows_type latin1_db secret_key_line 1 _ _ H
           (or_introl eq_refl)).
Defined.

End FindingInstances.

Module TextInstances.

Import Detectors Scanner ScannerSpec ScanText TextSpec Demo Samples.
Import TextFacts GateFacts.

#[local] Existing Instance latin1_db.

Lemma scan_text_agrees_with_streaming_witness :
  body_fault two_chunks = None /\
  only_line_feeds (decoded (iter_chunks two_chunks (CHUNK_SIZE default_config)))
    = true /\
  scan_text (decoded (iter_chunks two_chunks (CHUNK_SIZE default_config)))
  = Ret (fst (scan_body default_config two_chunks)) /\
  snd (scan_body default_config two_chunks) = None.
Proof.
  split; [reflexivity|]. split; [vm_compute; reflexivity|].
  apply (@scan_text_agrees_with_streaming latin1_db default_config two_chunks);
    vm_compute; reflexivity.
Defined.

Lemma scan_text_locates_its_findings_witness :
  exists fs,
    scan_text (lit "id 123-45-6789") = Ret fs /\
    forall f, In f fs ->
      exists line,
        nth_error (splitlines (lit "id 123-45-6789"))
                  (Detectors.line_number f - 1) = Some line /\
        1 <= Detectors.line_number f <= length (splitlines (lit "id 123-45-6789")) /\
        column_start f < column_end f <= length line /\
        value f = slice line (column_start f) (column_end f).
Proof.
  exact (@scan_text_locates_its_findings latin1_db (lit "id 123-45-6789")).
Defined.

Lemma streaming_locates_its_findings_witness :
  let f := finding_of ssn accented_ssn_line 1 (2, 13) (lit "123456789") high in
  In f (fst (scan_body default_config two_chunks)) /\
  exists line,
    nth_error (split newline
                 (decoded (iter_chunks two_chunks (CHUNK_SIZE default_config))))
              (Detectors.line_number f - 1) = Some line /\
    1 <= Detectors.line_number f /\
    column_start f < column_end f <= length line /\
    value f = slice line (column_start f) (column_end f).
Proof.
  cbv zeta.
  assert (H : In (finding_of ssn accented_ssn_line 1 (2, 13)
                    (lit "123456789") high)
                 (fst (scan_body default_config two_chunks)))
    by (vm_compute; auto).
  split; [exact H|].
  exact (@streaming_locates_its_findings latin1_db default_config two_chunks _ H).
Defined.

Lemma body_is_requested_only_past_the_gates_witness :
  let r := scan_file_streaming default_config (store_of zip_header)
             (lit "bucket") (lit "archive") in
  ~ In (GetObject (lit "bucket") (lit "archive")) (snd r) /\
  fst (fst r) = [] /\ snd (fst r) <> None.
Proof.
  cbv zeta.
  assert (H : ~ In (GetObject (lit "bucket") (lit "archive"))
                   (snd (scan_file_streaming default_config (store_of zip_header)
                           (lit "bucket") (lit "archive")))).
  { vm_compute. intros [H|[H|[]]]; discriminate. }
  split; [exact H|].
  exact (proj2 (proj2 (@body_is_requested_only_past_the_gates latin1_db
                         default_config (store_of zip_header)
                         (lit "bucket") (lit "archive"))) H).
Defined.

Lemma text_extension_skips_the_probe_witness :
  is_text_file (store_of zip_header) (lit "bucket") (lit "BACKUP.LOG")
  = (Ret true, []) /\
  scan_file_streaming default_config (store_of zip_header)
    (lit "bucket") (lit "BACKUP.LOG") =
    (scan_body default_config
       {| iter_chunks := read_chunks zip_header; body_fault := None |},
     [HeadObject (lit "bucket") (lit "BACKUP.LOG");
      GetObject (lit "bucket") (lit "BACKUP.LOG")]).
Proof.
  apply (@text_extension_skips_the_probe latin1_db default_config
           (store_of zip_header) (lit "bucket") (lit "BACKUP.LOG")
           (lit ".log") 10%N).
  - vm_compute. auto.
  - vm_compute. reflexivity.
  - reflexivity.
  - vm_compute. discriminate.
  - reflexivity.
Defined.

Lemma binary_sample_is_skipped_witness :
  scan_file_streaming default_config (store_of zip_header)
    (lit "bucket") (lit "archive") =
    (([], Some (lit "Non-text file, skipped")),
     [HeadObject (lit "bucket") (lit "archive");
      GetObjectRange (lit "bucket") (lit "archive")]).
Proof.
  apply (@binary_sample_is_skipped latin1_db default_config
           (store_of zip_header) (lit "bucket") (lit "archive") 10%N).
  - vm_compute. reflexivity.
  - reflexivity.
  - vm_compute. discriminate.
  - left. exists zip_header. split; [reflexivity|]. left.
    vm_compute. auto 10.
Defined.

Lemma store_failures_become_error_messages_witness :
  scan_file_streaming default_config missing_object_store
    (lit "bucket") (lit "notes.txt") =
    (([], Some (lit "Could not determine file size")),
     [HeadObject (lit "bucket") (lit "notes.txt")]) /\
  fst (scan_file_streaming default_config denied_store
         (lit "bucket") (lit "notes.txt")) =
    ([], Some (lit "S3 error: An error occurred (AccessDenied) when calling the GetObject operation: Access Denied")).
Proof.
  split.
  - eapply (proj1 (@store_failures_become_error_messages latin1_db
                     default_config missing_object_store
                     (lit "bucket") (lit "notes.txt"))).
    reflexivity.
  - apply (proj2 (@store_failures_become_error_messages latin1_db
                    default_config denied_store
                    (lit "bucket") (lit "notes.txt")) 15%N).
    + reflexivity.
    + vm_compute. discriminate.
    + vm_compute. reflexivity.
    + reflexivity.
Defined.

End TextInstances.

Module QueueInstances.

Import Detectors Scanner Database DatabaseSpec Worker Demo Samples.
Import StoreFacts QueueFacts.

#[local] Existing Instance latin1_db.

Lemma bulk_insert_findings_only_adds_witness :
  let s' := {| job_objects := [];
               findings := [finding_row 1 0; finding_row 2 4; finding_row 3 2] |} in
  bulk_insert_findings no_fault stored [finding_row 2 4; finding_row 3 2] = Ret s' /\
  job_objects s' = job_objects stored /\
  (exists added,
      findings s' = findings stored ++ added /\
      incl added [finding_row 2 4; finding_row 3 2]) /\
  (forall r, In r [finding_row 2 4; finding_row 3 2] ->
             existsb (conflicts r) (findings s') = true) /\
  length (findings s') <= length (findings stored) + 2.
Proof.
  cbv zeta. split; [reflexivity|].
  apply (@bulk_insert_findings_only_adds no_fault stored _
           [finding_row 2 4; finding_row 3 2]).
  reflexivity.
Defined.

Lemma update_object_status_keeps_the_rest_witness :
  exists s',
    update_object_status no_fault 1700000000%N retried 7 completed None = Ret s' /\
    findings s' = findings retried /\
    first_by_id retried 7 = Some failed_row /\
    exists obj',
      first_by_id s' 7 = Some obj' /\
      job_id obj' = job_id failed_row /\ s3_key obj' = s3_key failed_row /\
      file_size_bytes obj' = file_size_bytes failed_row /\
      findings_count obj' = findings_count failed_row /\
      error_message obj' = Some (lit "S3 error: timed out").
Proof.
  eexists. split; [reflexivity|].
  destruct (@update_object_status_keeps_the_rest no_fault 1700000000%N
              retried _ 7%N completed None eq_refl) as (H1 & _ & _ & _ & H5).
  split; [exact H1|]. split; [reflexivity|].
  exact (H5 failed_row eq_refl).
Defined.


Lemma unknown_object_is_dropped_witness :
  let env := env_of (store_of notes) lookup_fails deleted in
  (parse_message (Body message) = Some data /\
   db (fst (process_message env message world)) = db world /\
   sqs_calls (fst (process_message env message world))
     = sqs_calls world ++ [DeleteMessage (lit "rh-1")]) /\
  (parse_message (Body stray) = Some stray_data /\
   map s3_key (job_objects (db world)) = [lit "notes.txt"] /\
   field (lit "s3_key") stray_data = lit "other.txt" /\
   db (fst (process_message quiet stray world)) = db world /\
   sqs_calls (fst (process_message quiet stray world))
     = sqs_calls world ++ [DeleteMessage (lit "rh-4")]).
Proof.
  cbv zeta. split.
  - split; [reflexivity|].
    apply (@unknown_object_is_dropped latin1_db
             (env_of (store_of notes) lookup_fails deleted) message world data).
    + reflexivity.
    + left. eexists. reflexivity.
  - split; [reflexivity|]. split; [reflexivity|]. split; [reflexivity|].
    apply (@unknown_object_is_dropped latin1_db quiet stray world stray_data).
    + reflexivity.
    + right. split; [reflexivity|].
      intros o [<-|[]]. discriminate.
Defined.

Lemma completed_scan_is_persisted_witness :
  let run := process_message quiet message world in
  snd run = Returned /\
  map (fun r => (f_object_id r, f_finding_type r, f_line_number r,
                 f_column_start r, f_column_end r))
      (findings (db (fst run))) = [(7%N, ssn, 1, 4, 15)] /\
  (exists obj',
      first_by_id (db (fst run)) 7 = Some obj' /\
      status obj' = completed /\
      error_message obj' = error_message row) /\
  sqs_calls (fst run) = sqs_calls world ++ [DeleteMessage (lit "rh-1")].
Proof.
  cbv zeta. split; [vm_compute; reflexivity|].
  split; [vm_compute; reflexivity|].
  refine (proj2 (proj2 (proj2
            (@completed_scan_is_persisted latin1_db quiet message world _ data row
               _ _ _ _ _ _ _)))); vm_compute; reflexivity.
Defined.

Lemma redelivery_stores_nothing_new_witness :
  let w1 := fst (process_message quiet message world) in
  snd (process_message quiet message world) = Returned /\
  exists w2 obj2,
    process_message quiet message w1 = (w2, Returned) /\
    findings (db w2) = findings (db w1) /\
    first_by_id (db w2) 7 = Some obj2 /\
    status obj2 = completed /\
    attempts obj2 = attempts row + 4.
Proof.
  cbv zeta. split; [vm_compute; reflexivity|].
  eapply (@redelivery_stores_nothing_new latin1_db quiet message world _ data row);
    vm_compute; reflexivity.
Defined.

End QueueInstances.
